(** * kubedog trackers: a shallow embedding of the pod, deployment and
      daemonset trackers, with the properties of their event loops.

    The Go code is a set of goroutines that talk over channels.  Each
    tracker's [select] loop is embedded as a function from the message
    it dispatches to a computation in a state-and-output monad: the
    state is the tracker struct, the output is the ordered list of
    channel sends and goroutine starts the loop performs. *)

From Stdlib Require Import ZArith Lia Bool Ascii String List.
From Stdlib Require Import Strings.Byte.
From stdpp Require Import base strings list gmap.

Import ListNotations.
Local Open Scope string_scope.
Local Open Scope list_scope.

Set Default Proof Using "Type".

(* ===================================================================== *)
(** * Go values shared by the packages                                    *)
(* ===================================================================== *)

(** Go's [error] values.  The sentinels are compared by identity in the
    source ([err == StopTrack], [err == io.EOF]); every other error is
    carried with its text. *)
Inductive error : Type :=
| StopTrack
| ErrTrackTimeout
| ErrTrackInterrupted
| io_EOF
| Errorf (msg : string).

#[global] Instance error_eq_dec : EqDecision error.
Proof. solve_decision. Defined.

#[global] Instance byte_eq_dec : EqDecision byte := Byte.byte_eq_dec.

(** What a loop that only leaves through [return] has done once the
    messages it was given are used up: it either returned, or it sits
    in [select] (or in a blocking read) waiting for the next one. *)
Inductive Outcome : Type :=
| Blocked
| Returned (err : option error)
| Panicked.

(** The result of one iteration of a [for { select { ... } }] loop;
    [Panic] is a nil-pointer dereference. *)
Inductive Flow : Type :=
| Continue
| Return (err : option error)
| Panic.

(* ===================================================================== *)
(** * State and output monad                                              *)
(* ===================================================================== *)

Record Run (S O A : Type) : Type := mkRun
  { value : A; state : S; emitted : list O }.
Arguments mkRun {S O A} _ _ _.
Arguments value {S O A} _.
Arguments state {S O A} _.
Arguments emitted {S O A} _.

Definition M (S O A : Type) : Type := S -> Run S O A.

Definition ret {S O A} (a : A) : M S O A := fun s => mkRun a s [].

Definition bind {S O A B} (m : M S O A) (k : A -> M S O B) : M S O B :=
  fun s =>
    let r := m s in
    let r' := k (value r) (state r) in
    mkRun (value r') (state r') (emitted r ++ emitted r').

Definition get {S O} : M S O S := fun s => mkRun s s [].
Definition modify {S O} (f : S -> S) : M S O unit := fun s => mkRun tt (f s) [].
Definition send {S O} (o : O) : M S O unit := fun s => mkRun tt s [o].

Notation "x <- m ;; k" := (bind m (fun x => k))
  (at level 100, m at next level, right associativity).
Notation "m ;;; k" := (bind m (fun _ => k))
  (at level 100, right associativity).

(** A [for { select }] loop fed the messages it dispatches, in order. *)
Fixpoint select_loop {S O Msg} (body : Msg -> M S O Flow) (msgs : list Msg)
  : M S O Outcome :=
  match msgs with
  | [] => ret Blocked
  | m :: rest =>
      f <- body m ;;
      match f with
      | Continue => select_loop body rest
      | Return e => ret (Returned e)
      | Panic => ret Panicked
      end
  end.

(* ===================================================================== *)
(** * Package strings (the part the trackers use)                         *)
(* ===================================================================== *)

Module strings.

(** [strings.Cut] for a one-byte separator: the text before the first
    occurrence of [sep] and the text after it. *)
Fixpoint Cut (s : string) (sep : ascii) : option (string * string) :=
  match s with
  | EmptyString => None
  | String c s' =>
      if Ascii.eqb c sep then Some (EmptyString, s')
      else match Cut s' sep with
           | Some (before, after) => Some (String c before, after)
           | None => None
           end
  end.

(** [strings.SplitN(s, sep, n)] for a one-byte separator and [n >= 0]:
    at most [n] substrings, the last one being the unsplit rest. *)
Fixpoint SplitN (s : string) (sep : ascii) (n : nat) : list string :=
  match n with
  | 0 => []
  | S n' =>
      match n' with
      | 0 => [s]
      | S _ =>
          match Cut s sep with
          | None => [s]
          | Some (before, after) => before :: SplitN after sep n'
          end
      end
  end.

End strings.

(** [fmt.Sprintf("%s: %s", a, b)]. *)
Definition Sprintf_colon (a b : string) : string := a +:+ ": " +:+ b.

(* ===================================================================== *)
(** * k8s.io/api: the fields of the API objects the trackers read         *)
(* ===================================================================== *)

Module corev1.

(** [type PodPhase string]. *)
Definition PodPhase : Type := string.
Definition PodSucceeded : PodPhase := "Succeeded".
Definition PodFailed : PodPhase := "Failed".

Record ContainerStateWaiting : Type := mkWaiting
  { Reason : string; Message : string }.
Record ContainerStateRunning : Type := mkRunning
  { StartedAt : string }.
Record ContainerStateTerminated : Type := mkTerminated
  { ExitCode : Z }.

(** The three members are pointers: [None] is [nil]. *)
Record ContainerState : Type := mkContainerState
  { Waiting : option ContainerStateWaiting;
    Running : option ContainerStateRunning;
    Terminated : option ContainerStateTerminated }.

Record ContainerStatus : Type := mkContainerStatus
  { Name : string; State : ContainerState }.

Record Container : Type := mkContainer
  { ContainerName : string }.

Record PodSpec : Type := mkPodSpec
  { InitContainers : list Container; Containers : list Container }.

Record PodStatus : Type := mkPodStatus
  { Phase : PodPhase;
    InitContainerStatuses : list ContainerStatus;
    ContainerStatuses : list ContainerStatus }.

Record Pod : Type := mkPod
  { PodName : string; Spec : PodSpec; Status : PodStatus }.

End corev1.

(* ===================================================================== *)
(** * Package tracker: pod.go                                             *)
(* ===================================================================== *)

Module Pod.

Record LogLine : Type := mkLogLine
  { Timestamp : string; Data : string }.

Record ContainerLogChunk : Type := mkContainerLogChunk
  { ContainerName : string; LogLines : list LogLine }.

Record ContainerError : Type := mkContainerError
  { Message : string; CEContainerName : string }.

(* ------------------------------------------------------------------- *)
(** ** followContainerLogs                                              *)

Definition newline : byte := Byte.x0a.

(** The body of [for i := 0; i < n; i++], on the pair
    [(lineBuf, chunkLines)]. *)
Definition scan_byte (acc : list byte * list LogLine) (bt : byte)
  : list byte * list LogLine :=
  let '(lineBuf, chunkLines) := acc in
  if Byte.eqb bt newline then
    let line := string_of_list_byte lineBuf in
    let lineParts := strings.SplitN line " "%char 2 in
    if Nat.eqb (length lineParts) 2
    then ([], chunkLines ++ [mkLogLine (nth 0 lineParts "") (nth 1 lineParts "")])
    else ([], chunkLines)
  else (lineBuf ++ [bt], chunkLines).

(** One call of [readCloser.Read(chunkBuf)]: the [n] bytes it put in
    [chunkBuf], the error it returned, and whether [pod.Context] is
    done when the loop polls it at the end of this iteration. *)
Record ReadStep : Type := mkReadStep
  { rd_data : list byte; rd_err : option error; ctx_done : bool }.

(** The [if n > 0 { ... }] block: scans the bytes read and sends one
    chunk with the lines completed by them. *)
Definition read_chunk (containerName : string) (data : list byte)
  : M (list byte) ContainerLogChunk unit :=
  match data with
  | [] => ret tt
  | _ :: _ =>
      lineBuf <- get ;;
      let '(lineBuf', chunkLines) := fold_left scan_byte data (lineBuf, []) in
      modify (fun _ => lineBuf') ;;;
      send (mkContainerLogChunk containerName chunkLines)
  end.

(** The [for] loop of [followContainerLogs]; the state is [lineBuf]. *)
Fixpoint follow_loop (containerName : string) (reads : list ReadStep)
  : M (list byte) ContainerLogChunk Outcome :=
  match reads with
  | [] => ret Blocked
  | r :: rest =>
      read_chunk containerName (rd_data r) ;;;
      match rd_err r with
      | Some e =>
          if decide (e = io_EOF) then ret (Returned None)
          else ret (Returned (Some e))
      | None =>
          if ctx_done r then ret (Returned (Some ErrTrackTimeout))
          else follow_loop containerName rest
      end
  end.

(** [followContainerLogs]: [stream] is what [req.Stream()] returned,
    an error or a reader given by the reads it will serve. *)
Definition followContainerLogs (containerName : string)
    (stream : error + list ReadStep)
  : Run (list byte) ContainerLogChunk Outcome :=
  match stream with
  | inl e => mkRun (Returned (Some e)) [] []
  | inr reads => follow_loop containerName reads []
  end.

(* ------------------------------------------------------------------- *)
(** ** PodTracker                                                        *)

(** Modelled from the spec: the declaration of [TrackerState] and of
    its constants is not among the sources; the spec lists the
    container states Initial, Waiting, Running, Terminated and the
    pod transition Initial to ResourceAdded. *)
Inductive TrackerState : Type :=
| Initial
| ResourceAdded
| ContainerWaiting
| ContainerRunning
| ContainerTerminated.

Record PodTracker : Type := mkPodTracker
  { Namespace : string;
    ResourceName : string;
    State : TrackerState;
    ContainerTrackerStates : gmap string TrackerState;
    TrackedContainers : list string;
    lastObject : option corev1.Pod }.

Definition NewPodTracker (name namespace : string) : PodTracker :=
  {| Namespace := namespace;
     ResourceName := name;
     State := Initial;
     ContainerTrackerStates := ∅;
     TrackedContainers := [];
     lastObject := None |}.

Definition set_State (v : TrackerState) (p : PodTracker) : PodTracker :=
  mkPodTracker (Namespace p) (ResourceName p) v
    (ContainerTrackerStates p) (TrackedContainers p) (lastObject p).
Definition set_ContainerTrackerState (name : string) (v : TrackerState)
    (p : PodTracker) : PodTracker :=
  mkPodTracker (Namespace p) (ResourceName p) (State p)
    (<[name := v]> (ContainerTrackerStates p)) (TrackedContainers p)
    (lastObject p).
Definition set_TrackedContainers (v : list string) (p : PodTracker)
  : PodTracker :=
  mkPodTracker (Namespace p) (ResourceName p) (State p)
    (ContainerTrackerStates p) v (lastObject p).
Definition set_lastObject (v : option corev1.Pod) (p : PodTracker)
  : PodTracker :=
  mkPodTracker (Namespace p) (ResourceName p) (State p)
    (ContainerTrackerStates p) (TrackedContainers p) v.

(** What the tracker's loop does to the outside: the sends on its
    public channels and the goroutines it starts. *)
Inductive Action : Type :=
| SendAdded
| SendSucceeded
| SendFailed
| SendContainerError (e : ContainerError)
| GoInformer
| GoTrackContainer (containerName : string).

Definition T (A : Type) : Type := M PodTracker Action A.

(** [for _, x := range xs { body }]. *)
Fixpoint range {S O A} (xs : list A) (body : A -> M S O unit) : M S O unit :=
  match xs with
  | [] => ret tt
  | x :: xs' => body x ;;; range xs' body
  end.

(** The [switch cs.State.Waiting.Reason] cases. *)
Definition error_reason (reason : string) : bool :=
  String.eqb reason "ImagePullBackOff"
  || String.eqb reason "ErrImagePull"
  || String.eqb reason "CrashLoopBackOff".

(** The body of [for _, cs := range allContainerStatuses]. *)
Definition handleContainerStatus (cs : corev1.ContainerStatus) : T unit :=
  match corev1.Waiting (corev1.State cs) with
  | Some waiting =>
      modify (set_ContainerTrackerState (corev1.Name cs) ContainerWaiting) ;;;
      if error_reason (corev1.Reason waiting)
      then send (SendContainerError
                   {| CEContainerName := corev1.Name cs;
                      Message := Sprintf_colon (corev1.Reason waiting)
                                               (corev1.Message waiting) |})
      else ret tt
  | None => ret tt
  end ;;;
  match corev1.Running (corev1.State cs) with
  | Some _ => modify (set_ContainerTrackerState (corev1.Name cs) ContainerRunning)
  | None => ret tt
  end ;;;
  match corev1.Terminated (corev1.State cs) with
  | Some _ => modify (set_ContainerTrackerState (corev1.Name cs) ContainerTerminated)
  | None => ret tt
  end.

Definition handleContainersState (object : corev1.Pod) : T (option error) :=
  let allContainerStatuses :=
    corev1.InitContainerStatuses (corev1.Status object)
    ++ corev1.ContainerStatuses (corev1.Status object) in
  range allContainerStatuses handleContainerStatus ;;;
  ret None.

(** Returns [(done, err)]. *)
Definition handlePodState (object : corev1.Pod) : T (bool * option error) :=
  err <- handleContainersState object ;;
  match err with
  | Some e => ret (false, Some e)
  | None =>
      pod <- get ;;
      if Nat.eqb (length (TrackedContainers pod)) 0 then
        if String.eqb (corev1.Phase (corev1.Status object)) corev1.PodSucceeded
        then send SendSucceeded ;;; ret (true, None)
        else if String.eqb (corev1.Phase (corev1.Status object)) corev1.PodFailed
        then send SendFailed ;;; ret (true, None)
        else ret (false, None)
      else ret (false, None)
  end.

Section WithKube.

(** [pod.Kube.Core().Pods(namespace).Get(name, ...)]. *)
Variable kubeGetPod : string -> string -> error + corev1.Pod.

Definition runContainersTrackers : T (option error) :=
  pod <- get ;;
  match kubeGetPod (Namespace pod) (ResourceName pod) with
  | inl err => ret (Some err)
  | inr podManifest =>
      let allContainersNames :=
        map corev1.ContainerName (corev1.InitContainers (corev1.Spec podManifest))
        ++ map corev1.ContainerName (corev1.Containers (corev1.Spec podManifest)) in
      range allContainersNames (fun containerName =>
        modify (set_ContainerTrackerState containerName Initial) ;;;
        modify (fun p => set_TrackedContainers
                           (TrackedContainers p ++ [containerName]) p) ;;;
        send (GoTrackContainer containerName)) ;;;
      ret None
  end.

Definition runInformer : T (option error) :=
  send GoInformer ;;; ret None.

(** The messages the [select] of [Track] can receive. *)
Inductive Msg : Type :=
| containerDone (containerName : string)
| objectAdded (object : corev1.Pod)
| objectModified (object : corev1.Pod)
| objectDeleted (object : corev1.Pod)
| ContextDone
| errorsMsg (err : error).

(** [done, err := pod.handlePodState(object)] and the two tests
    that follow it in each case. *)
Definition handleAndCheck (object : corev1.Pod) : T Flow :=
  r <- handlePodState object ;;
  match snd r with
  | Some e => ret (Return (Some e))
  | None => if fst r then ret (Return None) else ret Continue
  end.

Definition Track_select (msg : Msg) : T Flow :=
  match msg with
  | containerDone containerName =>
      modify (fun p => set_TrackedContainers
                (filter (fun name => name ≠ containerName) (TrackedContainers p)) p) ;;;
      pod <- get ;;
      match lastObject pod with
      | None => ret Panic
      | Some object => handleAndCheck object
      end
  | objectAdded object =>
      modify (set_lastObject (Some object)) ;;;
      pod <- get ;;
      started <-
        match State pod with
        | Initial =>
            modify (set_State ResourceAdded) ;;;
            send SendAdded ;;;
            runContainersTrackers
        | _ => ret None
        end ;;
      match started with
      | Some e => ret (Return (Some e))
      | None => handleAndCheck object
      end
  | objectModified object =>
      modify (set_lastObject (Some object)) ;;;
      handleAndCheck object
  | objectDeleted _ => ret (Return None)
  | ContextDone => ret (Return (Some ErrTrackTimeout))
  | errorsMsg err => ret (Return (Some err))
  end.

Definition Track (msgs : list Msg) : T Outcome :=
  err <- runInformer ;;
  match err with
  | Some e => ret (Returned (Some e))
  | None => select_loop Track_select msgs
  end.

End WithKube.

(* ------------------------------------------------------------------- *)
(** ** TrackPod                                                          *)

(** The [PodFeed] interface.  A callback may keep state of its own,
    of type [F], and returns Go's [error] ([None] is [nil]). *)
Record PodFeed (F : Type) : Type := mkPodFeed
  { Added : F -> option error * F;
    Succeeded : F -> option error * F;
    Failed : F -> option error * F;
    feedContainerLogChunk : ContainerLogChunk -> F -> option error * F;
    feedContainerError : ContainerError -> F -> option error * F }.
Arguments Added {F} _ _.
Arguments Succeeded {F} _ _.
Arguments Failed {F} _ _.
Arguments feedContainerLogChunk {F} _ _ _.
Arguments feedContainerError {F} _ _ _.

(** The messages the [select] of [TrackPod] can receive: the five
    channels of the pod tracker and the two channels fed by the
    goroutine that runs [pod.Track()]. *)
Inductive FeedMsg : Type :=
| recvContainerLogChunk (chunk : ContainerLogChunk)
| recvContainerError (containerError : ContainerError)
| recvAdded
| recvSucceeded
| recvFailed
| errorChan (err : error)
| doneChan.

(** Calls a callback on the feed's state. *)
Definition call {F} (cb : F -> option error * F) : M F FeedMsg (option error) :=
  fun f => mkRun (fst (cb f)) (snd (cb f)) [].

(** The output records the messages whose callback was invoked. *)
Definition TrackPod_select {F} (feed : PodFeed F) (msg : FeedMsg)
  : M F FeedMsg Flow :=
  match msg with
  | recvContainerLogChunk chunk =>
      send msg ;;;
      err <- call (feedContainerLogChunk feed chunk) ;;
      if decide (err = Some StopTrack) then ret (Return None)
      else if decide (err ≠ None) then ret (Return err)
      else ret Continue
  | recvContainerError containerError =>
      send msg ;;;
      err <- call (feedContainerError feed containerError) ;;
      if decide (err ≠ None) then ret (Return err)
      else if decide (err = Some StopTrack) then ret (Return None)
      else ret Continue
  | recvAdded =>
      send msg ;;;
      err <- call (Added feed) ;;
      if decide (err = Some StopTrack) then ret (Return None)
      else if decide (err ≠ None) then ret (Return err)
      else ret Continue
  | recvSucceeded =>
      send msg ;;;
      err <- call (Succeeded feed) ;;
      if decide (err ≠ None) then ret (Return err)
      else if decide (err = Some StopTrack) then ret (Return None)
      else ret Continue
  | recvFailed =>
      send msg ;;;
      err <- call (Failed feed) ;;
      if decide (err ≠ None) then ret (Return err)
      else if decide (err = Some StopTrack) then ret (Return None)
      else ret Continue
  | errorChan err => ret (Return (Some err))
  | doneChan => ret (Return None)
  end.

Definition TrackPod {F} (feed : PodFeed F) (msgs : list FeedMsg)
  : M F FeedMsg Outcome :=
  select_loop (TrackPod_select feed) msgs.

End Pod.

(* ===================================================================== *)
(** * k8s.io/api/apps/v1 and the tracker packages' shared types           *)
(* ===================================================================== *)

Module appsv1.

(** [Replicas] is an [*int32] that the tracker dereferences without a
    test; the API server fills it in for every object it serves. *)
Record DeploymentSpec : Type := mkDeploymentSpec
  { Replicas : Z }.

Record DeploymentStatus : Type := mkDeploymentStatus
  { ObservedGeneration : Z;
    StatusReplicas : Z;
    UpdatedReplicas : Z;
    ReadyReplicas : Z;
    AvailableReplicas : Z;
    UnavailableReplicas : Z }.

Record Deployment : Type := mkDeployment
  { Name : string; Spec : DeploymentSpec; Status : DeploymentStatus }.

Record ReplicaSet : Type := mkReplicaSet
  { ReplicaSetName : string; Revision : Z }.

Record DaemonSetStatus : Type := mkDaemonSetStatus
  { CurrentNumberScheduled : Z;
    DesiredNumberScheduled : Z;
    NumberReady : Z;
    UpdatedNumberScheduled : Z;
    NumberAvailable : Z;
    NumberUnavailable : Z }.

Record DaemonSet : Type := mkDaemonSet
  { DaemonSetName : string; DaemonSetStatusOf : DaemonSetStatus }.

(** The zero values, as in [DeploymentStatus{}]. *)
Definition zeroDeploymentStatus : DeploymentStatus :=
  mkDeploymentStatus 0 0 0 0 0 0.
Definition zeroDaemonSetStatus : DaemonSetStatus :=
  mkDaemonSetStatus 0 0 0 0 0 0.

End appsv1.

Module tracker.

(** Modelled from the spec: [tracker.ReadyStatus] is declared outside
    the sources; the spec gives it an [isReady] flag and a message. *)
Record ReadyStatus : Type := mkReadyStatus
  { IsReady : bool; ReadyMessage : string }.

Definition zeroReadyStatus : ReadyStatus := mkReadyStatus false "".

End tracker.

Module pod.

(** Modelled from the spec: [pod.PodStatus] is declared outside the
    sources; the spec gives it a phase, a readiness and restart
    counts.  The controller trackers only store and forward it. *)
Record PodStatus : Type := mkPodStatus
  { Phase : string; IsReady : bool; Restarts : Z }.

Record PodLogChunk : Type := mkPodLogChunk
  { ContainerLogChunk : Pod.ContainerLogChunk; LogPodName : string }.

Record PodError : Type := mkPodError
  { ContainerError : Pod.ContainerError; ErrPodName : string }.

End pod.

Module replicaset.

Record ReplicaSet : Type := mkReplicaSet
  { Name : string; IsNew : bool }.

(** [replicaset.ReplicaSet{}]. *)
Definition zeroReplicaSet : ReplicaSet := mkReplicaSet "" false.

Record ReplicaSetPod : Type := mkReplicaSetPod
  { PodName : string; PodReplicaSet : ReplicaSet }.

Record ReplicaSetPodLogChunk : Type := mkReplicaSetPodLogChunk
  { PodLogChunk : pod.PodLogChunk; LogReplicaSet : ReplicaSet }.

Record ReplicaSetPodError : Type := mkReplicaSetPodError
  { PodError : pod.PodError; ErrReplicaSet : ReplicaSet }.

Definition set_IsNew_chunk (isNew : bool) (c : ReplicaSetPodLogChunk)
  : ReplicaSetPodLogChunk :=
  mkReplicaSetPodLogChunk (PodLogChunk c)
    (mkReplicaSet (Name (LogReplicaSet c)) isNew).

Definition set_IsNew_error (isNew : bool) (e : ReplicaSetPodError)
  : ReplicaSetPodError :=
  mkReplicaSetPodError (PodError e)
    (mkReplicaSet (Name (ErrReplicaSet e)) isNew).

End replicaset.

(* ===================================================================== *)
(** * Package deployment: tracker.go                                      *)
(* ===================================================================== *)

Module Deployment.

Record DeploymentStatus : Type := mkDeploymentStatus
  { Pods : gmap string pod.PodStatus;
    KubeStatus : appsv1.DeploymentStatus;
    DesiredReplicas : Z;
    IsFailed : bool;
    FailedReason : string;
    ReadyStatus : tracker.ReadyStatus }.

(** The loop copies [podsStatuses] entry by entry into a fresh map;
    with maps as values the copy is the map itself. *)
Definition NewDeploymentStatus (readyStatus : tracker.ReadyStatus)
    (isFailed : bool) (failedReason : string)
    (kubeSpec : appsv1.DeploymentSpec) (kubeStatus : appsv1.DeploymentStatus)
    (podsStatuses : gmap string pod.PodStatus) : DeploymentStatus :=
  {| KubeStatus := kubeStatus;
     DesiredReplicas := appsv1.Replicas kubeSpec;
     Pods := podsStatuses;
     ReadyStatus := readyStatus;
     IsFailed := isFailed;
     FailedReason := failedReason |}.

(** [DeploymentStatus{}]. *)
Definition zeroDeploymentStatus : DeploymentStatus :=
  {| Pods := ∅;
     KubeStatus := appsv1.zeroDeploymentStatus;
     DesiredReplicas := 0;
     IsFailed := false;
     FailedReason := "";
     ReadyStatus := tracker.zeroReadyStatus |}.

(** The fields of [Tracker] that the loop reads or writes.
    [LogsFromTime] is [None] for the zero [time.Time]. *)
Record Tracker : Type := mkTracker
  { Namespace : string;
    ResourceName : string;
    LogsFromTime : option Z;
    CurrentReady : bool;
    State : string;
    FinalDeploymentStatus : appsv1.DeploymentStatus;
    knownReplicaSets : gmap string appsv1.ReplicaSet;
    lastObject : option appsv1.Deployment;
    readyStatus : tracker.ReadyStatus;
    failedReason : string;
    podStatuses : gmap string pod.PodStatus;
    TrackedPods : list string }.

Definition NewTracker (name namespace : string) (logsFromTime : option Z)
  : Tracker :=
  {| Namespace := namespace;
     ResourceName := name;
     LogsFromTime := logsFromTime;
     CurrentReady := false;
     State := "";
     FinalDeploymentStatus := appsv1.zeroDeploymentStatus;
     knownReplicaSets := ∅;
     lastObject := None;
     readyStatus := tracker.zeroReadyStatus;
     failedReason := "";
     podStatuses := ∅;
     TrackedPods := [] |}.

Definition set_CurrentReady (v : bool) (d : Tracker) : Tracker :=
  mkTracker (Namespace d) (ResourceName d) (LogsFromTime d) v (State d)
    (FinalDeploymentStatus d) (knownReplicaSets d) (lastObject d)
    (readyStatus d) (failedReason d) (podStatuses d) (TrackedPods d).
Definition set_State (v : string) (d : Tracker) : Tracker :=
  mkTracker (Namespace d) (ResourceName d) (LogsFromTime d) (CurrentReady d) v
    (FinalDeploymentStatus d) (knownReplicaSets d) (lastObject d)
    (readyStatus d) (failedReason d) (podStatuses d) (TrackedPods d).
Definition set_FinalDeploymentStatus (v : appsv1.DeploymentStatus)
    (d : Tracker) : Tracker :=
  mkTracker (Namespace d) (ResourceName d) (LogsFromTime d) (CurrentReady d)
    (State d) v (knownReplicaSets d) (lastObject d)
    (readyStatus d) (failedReason d) (podStatuses d) (TrackedPods d).
Definition set_knownReplicaSets (v : gmap string appsv1.ReplicaSet)
    (d : Tracker) : Tracker :=
  mkTracker (Namespace d) (ResourceName d) (LogsFromTime d) (CurrentReady d)
    (State d) (FinalDeploymentStatus d) v (lastObject d)
    (readyStatus d) (failedReason d) (podStatuses d) (TrackedPods d).
Definition set_lastObject (v : option appsv1.Deployment) (d : Tracker)
  : Tracker :=
  mkTracker (Namespace d) (ResourceName d) (LogsFromTime d) (CurrentReady d)
    (State d) (FinalDeploymentStatus d) (knownReplicaSets d) v
    (readyStatus d) (failedReason d) (podStatuses d) (TrackedPods d).
Definition set_readyStatus (v : tracker.ReadyStatus) (d : Tracker) : Tracker :=
  mkTracker (Namespace d) (ResourceName d) (LogsFromTime d) (CurrentReady d)
    (State d) (FinalDeploymentStatus d) (knownReplicaSets d) (lastObject d)
    v (failedReason d) (podStatuses d) (TrackedPods d).
Definition set_failedReason (v : string) (d : Tracker) : Tracker :=
  mkTracker (Namespace d) (ResourceName d) (LogsFromTime d) (CurrentReady d)
    (State d) (FinalDeploymentStatus d) (knownReplicaSets d) (lastObject d)
    (readyStatus d) v (podStatuses d) (TrackedPods d).
Definition set_podStatuses (v : gmap string pod.PodStatus) (d : Tracker)
  : Tracker :=
  mkTracker (Namespace d) (ResourceName d) (LogsFromTime d) (CurrentReady d)
    (State d) (FinalDeploymentStatus d) (knownReplicaSets d) (lastObject d)
    (readyStatus d) (failedReason d) v (TrackedPods d).
Definition set_TrackedPods (v : list string) (d : Tracker) : Tracker :=
  mkTracker (Namespace d) (ResourceName d) (LogsFromTime d) (CurrentReady d)
    (State d) (FinalDeploymentStatus d) (knownReplicaSets d) (lastObject d)
    (readyStatus d) (failedReason d) (podStatuses d) v.

(** The sends of the loop on the tracker's public channels, and the
    goroutines it starts (informers and pod trackers). *)
Inductive Action : Type :=
| SendAdded (ready : bool)
| SendReady
| SendFailed (reason : string)
| SendAddedReplicaSet (rs : replicaset.ReplicaSet)
| SendAddedPod (rsPod : replicaset.ReplicaSetPod)
| SendPodLogChunk (rsChunk : replicaset.ReplicaSetPodLogChunk)
| SendPodError (rsPodError : replicaset.ReplicaSetPodError)
| SendStatusReport (status : DeploymentStatus)
| GoDeploymentInformer
| GoReplicaSetsInformer (owner : appsv1.Deployment)
| GoPodsInformer (owner : appsv1.Deployment)
| GoEventsInformer (resource : appsv1.Deployment)
| GoPodTracker (podName rsName : string) (logsFromTime : option Z).

Definition T (A : Type) : Type := M Tracker Action A.

(** The messages the [select] of [Track] can receive. *)
Inductive Msg : Type :=
| resourceAdded (object : appsv1.Deployment)
| resourceModified (object : appsv1.Deployment)
| resourceDeleted (object : appsv1.Deployment)
| resourceFailed (reason : string)
| replicaSetAdded (rs : appsv1.ReplicaSet)
| replicaSetModified (rs : appsv1.ReplicaSet)
| replicaSetDeleted (rs : appsv1.ReplicaSet)
| podAdded (pod : corev1.Pod)
| podDone (podName : string)
| podStatusesReport (podStatuses : gmap string pod.PodStatus)
| replicaSetPodLogChunk (rsChunk : replicaset.ReplicaSetPodLogChunk)
| replicaSetPodError (rsPodError : replicaset.ReplicaSetPodError)
| ContextDone
| errorsMsg (err : error).

(** The collaborators of the tracker that live in other packages:
    the readiness calculator and the helpers of [utils], and the
    process-wide debug switch. *)
Record Deps : Type := mkDeps
  { debug : bool;
    ListEventsForObject : appsv1.Deployment -> option error;
    DeploymentReadyStatus :
      appsv1.Deployment -> appsv1.DeploymentStatus -> tracker.ReadyStatus;
    IsReplicaSetNew :
      option appsv1.Deployment -> gmap string appsv1.ReplicaSet -> string ->
      bool * option error;
    GetPodReplicaSetName : corev1.Pod -> string }.

Section WithDeps.

Variable deps : Deps.

(** [d.StatusReport <- NewDeploymentStatus(...)] on [d.lastObject];
    the callers test [d.lastObject != nil] first or have just set it. *)
Definition sendStatusReport (object : appsv1.Deployment) : T unit :=
  d <- get ;;
  send (SendStatusReport
          (NewDeploymentStatus (readyStatus d)
             (String.eqb (State d) "Failed") (failedReason d)
             (appsv1.Spec object) (appsv1.Status object) (podStatuses d))).

(** Returns [(ready, err)]. *)
Definition handleDeploymentState (object : appsv1.Deployment)
  : T (bool * option error) :=
  match (if debug deps then ListEventsForObject deps object else None) with
  | Some err => ret (false, Some err)
  | None =>
      d <- get ;;
      let newStatus := appsv1.Status object in
      prevReady <-
        match lastObject d with
        | Some last =>
            modify (set_readyStatus (DeploymentReadyStatus deps last newStatus)) ;;;
            ret (CurrentReady d)
        | None =>
            modify (set_readyStatus (DeploymentReadyStatus deps object newStatus)) ;;;
            ret false
        end ;;
      modify (fun d => set_CurrentReady (tracker.IsReady (readyStatus d)) d) ;;;
      modify (set_lastObject (Some object)) ;;;
      sendStatusReport object ;;;
      d <- get ;;
      if negb prevReady && CurrentReady d then
        modify (set_FinalDeploymentStatus newStatus) ;;;
        ret (true, None)
      else ret (false, None)
  end.

Definition runDeploymentInformer : T unit := send GoDeploymentInformer.

Definition runReplicaSetsInformer : T unit :=
  d <- get ;;
  match lastObject d with
  | None => ret tt
  | Some last => send (GoReplicaSetsInformer last)
  end.

Definition runPodsInformer : T unit :=
  d <- get ;;
  match lastObject d with
  | None => ret tt
  | Some last => send (GoPodsInformer last)
  end.

Definition runEventsInformer (resource : appsv1.Deployment) : T unit :=
  send (GoEventsInformer resource).

Definition runPodTracker (podName rsName : string) : T (option error) :=
  d <- get ;;
  let podLogsFromTime :=
    match LogsFromTime d with
    | Some t => Some t
    | None => None
    end in
  modify (fun d => set_TrackedPods (TrackedPods d ++ [podName]) d) ;;;
  send (GoPodTracker podName rsName podLogsFromTime) ;;;
  ret None.

Definition Track_select (msg : Msg) : T Flow :=
  match msg with
  | resourceAdded object =>
      r <- handleDeploymentState object ;;
      match snd r with
      | Some err => ret (Return (Some err))
      | None =>
          d <- get ;;
          (if String.eqb (State d) ""
           then modify (set_State "Started") ;;; send (SendAdded (fst r))
           else ret tt) ;;;
          runReplicaSetsInformer ;;;
          runPodsInformer ;;;
          runEventsInformer object ;;;
          ret Continue
      end
  | resourceModified object =>
      r <- handleDeploymentState object ;;
      match snd r with
      | Some err => ret (Return (Some err))
      | None =>
          (if fst r then send SendReady else ret tt) ;;;
          ret Continue
      end
  | resourceDeleted _ =>
      modify (set_lastObject None) ;;;
      send (SendStatusReport zeroDeploymentStatus) ;;;
      modify (set_State "Deleted") ;;;
      send (SendFailed "resource deleted") ;;;
      ret Continue
  | resourceFailed reason =>
      modify (set_State "Failed") ;;;
      modify (set_failedReason reason) ;;;
      d <- get ;;
      match lastObject d with
      | Some last => sendStatusReport last
      | None => ret tt
      end ;;;
      send (SendFailed reason) ;;;
      ret Continue
  | replicaSetAdded rs =>
      modify (fun d => set_knownReplicaSets
                (<[appsv1.ReplicaSetName rs := rs]> (knownReplicaSets d)) d) ;;;
      d <- get ;;
      let r := IsReplicaSetNew deps (lastObject d) (knownReplicaSets d)
                 (appsv1.ReplicaSetName rs) in
      match snd r with
      | Some err => ret (Return (Some err))
      | None =>
          send (SendAddedReplicaSet
                  {| replicaset.Name := appsv1.ReplicaSetName rs;
                     replicaset.IsNew := fst r |}) ;;;
          ret Continue
      end
  | replicaSetModified rs =>
      modify (fun d => set_knownReplicaSets
                (<[appsv1.ReplicaSetName rs := rs]> (knownReplicaSets d)) d) ;;;
      ret Continue
  | replicaSetDeleted rs =>
      modify (fun d => set_knownReplicaSets
                (delete (appsv1.ReplicaSetName rs) (knownReplicaSets d)) d) ;;;
      ret Continue
  | podAdded pod =>
      d <- get ;;
      let rsName := GetPodReplicaSetName deps pod in
      let r := IsReplicaSetNew deps (lastObject d) (knownReplicaSets d) rsName in
      match snd r with
      | Some err => ret (Return (Some err))
      | None =>
          let rsPod :=
            {| replicaset.PodName := corev1.PodName pod;
               replicaset.PodReplicaSet :=
                 {| replicaset.Name := rsName; replicaset.IsNew := fst r |} |} in
          send (SendAddedPod rsPod) ;;;
          err <- runPodTracker (corev1.PodName pod) rsName ;;
          match err with
          | Some e => ret (Return (Some e))
          | None => ret Continue
          end
      end
  | podDone podName =>
      modify (fun d => set_TrackedPods
                (filter (fun name => name ≠ podName) (TrackedPods d)) d) ;;;
      ret Continue
  | podStatusesReport reported =>
      modify (fun d => set_podStatuses (reported ∪ podStatuses d) d) ;;;
      d <- get ;;
      match lastObject d with
      | Some last => sendStatusReport last
      | None => ret tt
      end ;;;
      ret Continue
  | replicaSetPodLogChunk rsChunk =>
      d <- get ;;
      let r := IsReplicaSetNew deps (lastObject d) (knownReplicaSets d)
                 (replicaset.Name (replicaset.LogReplicaSet rsChunk)) in
      match snd r with
      | Some err => ret (Return (Some err))
      | None =>
          send (SendPodLogChunk (replicaset.set_IsNew_chunk (fst r) rsChunk)) ;;;
          ret Continue
      end
  | replicaSetPodError rsPodError =>
      d <- get ;;
      let r := IsReplicaSetNew deps (lastObject d) (knownReplicaSets d)
                 (replicaset.Name (replicaset.ErrReplicaSet rsPodError)) in
      match snd r with
      | Some err => ret (Return (Some err))
      | None =>
          send (SendPodError (replicaset.set_IsNew_error (fst r) rsPodError)) ;;;
          ret Continue
      end
  | ContextDone => ret (Return (Some ErrTrackInterrupted))
  | errorsMsg err => ret (Return (Some err))
  end.

Definition Track (msgs : list Msg) : T Outcome :=
  runDeploymentInformer ;;;
  select_loop Track_select msgs.

End WithDeps.

(* ------------------------------------------------------------------- *)
(** ** The controller informer and the order of dispatch                 *)

(** The events the callback of [runDeploymentInformer] forwards. *)
Inductive WatchEvent : Type :=
| watchAdded (object : appsv1.Deployment)
| watchModified (object : appsv1.Deployment)
| watchDeleted (object : appsv1.Deployment).

(** The buffers of [resourceAdded], [resourceModified] and
    [resourceDeleted], each made with capacity 1. *)
Record Chans : Type := mkChans
  { chAdded : list appsv1.Deployment;
    chModified : list appsv1.Deployment;
    chDeleted : list appsv1.Deployment }.

Definition emptyChans : Chans := mkChans [] [] [].

(** [ch <- object] on a channel of capacity 1: [None] when the
    buffer is full and the sender has to wait. *)
Definition offer (buf : list appsv1.Deployment) (object : appsv1.Deployment)
  : option (list appsv1.Deployment) :=
  if Nat.ltb (length buf) 1 then Some (buf ++ [object]) else None.

(** The [switch e.Type] of the informer's callback. *)
Definition informer_send (e : WatchEvent) (c : Chans) : option Chans :=
  match e with
  | watchAdded o =>
      option_map (fun b => mkChans b (chModified c) (chDeleted c)) (offer (chAdded c) o)
  | watchModified o =>
      option_map (fun b => mkChans (chAdded c) b (chDeleted c)) (offer (chModified c) o)
  | watchDeleted o =>
      option_map (fun b => mkChans (chAdded c) (chModified c) b) (offer (chDeleted c) o)
  end.

(** The cases of [select] that can proceed, with the channels after
    the receive.  Go picks one of them at random. *)
Definition ready_cases (c : Chans) : list (Msg * Chans) :=
  match chAdded c with
  | o :: rest => [(resourceAdded o, mkChans rest (chModified c) (chDeleted c))]
  | [] => []
  end ++
  match chModified c with
  | o :: rest => [(resourceModified o, mkChans (chAdded c) rest (chDeleted c))]
  | [] => []
  end ++
  match chDeleted c with
  | o :: rest => [(resourceDeleted o, mkChans (chAdded c) (chModified c) rest)]
  | [] => []
  end.

(** [dispatches ws c msgs]: with the informer still to forward [ws]
    and the channels holding [c], the loop can dispatch [msgs] in
    this order. *)
Inductive dispatches : list WatchEvent -> Chans -> list Msg -> Prop :=
| dispatches_stop ws c : dispatches ws c []
| dispatches_send w ws c c' msgs :
    informer_send w c = Some c' ->
    dispatches ws c' msgs ->
    dispatches (w :: ws) c msgs
| dispatches_recv ws c m c' msgs :
    In (m, c') (ready_cases c) ->
    dispatches ws c' msgs ->
    dispatches ws c (m :: msgs).

End Deployment.

(* ===================================================================== *)
(** * Package daemonset: tracker.go                                       *)
(* ===================================================================== *)

Module DaemonSet.

Record DaemonSetStatus : Type := mkDaemonSetStatus
  { KubeStatus : appsv1.DaemonSetStatus;
    Pods : gmap string pod.PodStatus }.

Definition NewDaemonSetStatus (kubeStatus : appsv1.DaemonSetStatus)
    (podsStatuses : gmap string pod.PodStatus) : DaemonSetStatus :=
  {| KubeStatus := kubeStatus; Pods := podsStatuses |}.

(** [DaemonSetStatus{}]. *)
Definition zeroDaemonSetStatus : DaemonSetStatus :=
  {| KubeStatus := appsv1.zeroDaemonSetStatus; Pods := ∅ |}.

Record Tracker : Type := mkTracker
  { Namespace : string;
    ResourceName : string;
    LogsFromTime : option Z;
    State : string;
    lastObject : option appsv1.DaemonSet;
    podStatuses : gmap string pod.PodStatus;
    TrackedPods : list string }.

Definition NewTracker (name namespace : string) (logsFromTime : option Z)
  : Tracker :=
  {| Namespace := namespace;
     ResourceName := name;
     LogsFromTime := logsFromTime;
     State := "";
     lastObject := None;
     podStatuses := ∅;
     TrackedPods := [] |}.

Definition set_State (v : string) (d : Tracker) : Tracker :=
  mkTracker (Namespace d) (ResourceName d) (LogsFromTime d) v
    (lastObject d) (podStatuses d) (TrackedPods d).
Definition set_lastObject (v : option appsv1.DaemonSet) (d : Tracker)
  : Tracker :=
  mkTracker (Namespace d) (ResourceName d) (LogsFromTime d) (State d)
    v (podStatuses d) (TrackedPods d).
Definition set_podStatuses (v : gmap string pod.PodStatus) (d : Tracker)
  : Tracker :=
  mkTracker (Namespace d) (ResourceName d) (LogsFromTime d) (State d)
    (lastObject d) v (TrackedPods d).
Definition set_TrackedPods (v : list string) (d : Tracker) : Tracker :=
  mkTracker (Namespace d) (ResourceName d) (LogsFromTime d) (State d)
    (lastObject d) (podStatuses d) v.

Inductive Action : Type :=
| SendAdded (ready : bool)
| SendReady
| SendFailed (reason : string)
| SendAddedPod (rsPod : replicaset.ReplicaSetPod)
| SendStatusReport (status : DaemonSetStatus)
| GoDaemonSetInformer
| GoPodsInformer (owner : appsv1.DaemonSet)
| GoEventsInformer (resource : appsv1.DaemonSet)
| GoPodTracker (podName : string) (logsFromTime : option Z).

Definition T (A : Type) : Type := M Tracker Action A.

Inductive Msg : Type :=
| resourceAdded (object : appsv1.DaemonSet)
| resourceModified (object : appsv1.DaemonSet)
| resourceDeleted (object : appsv1.DaemonSet)
| resourceFailed (reason : string)
| podAdded (pod : corev1.Pod)
| podDone (podName : string)
| podStatusesReport (podStatuses : gmap string pod.PodStatus)
| ContextDone
| errorsMsg (err : error).

(** The collaborators outside the sources: the rollout-status
    calculator [DaemonSetRolloutStatus], which returns
    [(msg, ready, err)], the event lister of [utils] and the debug
    switch. *)
Record Deps : Type := mkDeps
  { debug : bool;
    ListEventsForObject : appsv1.DaemonSet -> option error;
    DaemonSetRolloutStatus :
      appsv1.DaemonSet -> string * bool * option error }.

Section WithDeps.

Variable deps : Deps.

(** [d.StatusReport <- NewDaemonSetStatus(d.lastObject.Status, d.podStatuses)]. *)
Definition sendStatusReport (object : appsv1.DaemonSet) : T unit :=
  d <- get ;;
  send (SendStatusReport
          (NewDaemonSetStatus (appsv1.DaemonSetStatusOf object) (podStatuses d))).

(** Returns [(ready, err)]. *)
Definition handleDaemonSetStatus (object : appsv1.DaemonSet)
  : T (bool * option error) :=
  let '(msg, ready, err) := DaemonSetRolloutStatus deps object in
  match (if debug deps then ListEventsForObject deps object else None) with
  | Some listErr => ret (false, Some listErr)
  | None => ret (ready, err)
  end.

Definition runDaemonSetInformer : T unit := send GoDaemonSetInformer.

Definition runPodsInformer : T unit :=
  d <- get ;;
  match lastObject d with
  | None => ret tt
  | Some last => send (GoPodsInformer last)
  end.

Definition runEventsInformer : T unit :=
  d <- get ;;
  match lastObject d with
  | None => ret tt
  | Some last => send (GoEventsInformer last)
  end.

Definition runPodTracker (podName : string) : T (option error) :=
  d <- get ;;
  let podLogsFromTime :=
    match LogsFromTime d with
    | Some t => Some t
    | None => None
    end in
  modify (fun d => set_TrackedPods (TrackedPods d ++ [podName]) d) ;;;
  send (GoPodTracker podName podLogsFromTime) ;;;
  ret None.

Definition Track_select (msg : Msg) : T Flow :=
  match msg with
  | resourceAdded object =>
      modify (set_lastObject (Some object)) ;;;
      sendStatusReport object ;;;
      r <- handleDaemonSetStatus object ;;
      match snd r with
      | Some err => ret (Return (Some err))
      | None =>
          d <- get ;;
          (if String.eqb (State d) ""
           then modify (set_State "Started") ;;; send (SendAdded (fst r))
           else ret tt) ;;;
          runPodsInformer ;;;
          runEventsInformer ;;;
          ret Continue
      end
  | resourceModified object =>
      r <- handleDaemonSetStatus object ;;
      match snd r with
      | Some err => ret (Return (Some err))
      | None =>
          modify (set_lastObject (Some object)) ;;;
          sendStatusReport object ;;;
          (if fst r then send SendReady else ret tt) ;;;
          ret Continue
      end
  | resourceDeleted _ =>
      modify (set_lastObject None) ;;;
      send (SendStatusReport zeroDaemonSetStatus) ;;;
      modify (set_State "Deleted") ;;;
      send (SendFailed "resource deleted") ;;;
      ret Continue
  | resourceFailed reason =>
      modify (set_State "Failed") ;;;
      send (SendFailed reason) ;;;
      ret Continue
  | podAdded pod =>
      let rsPod :=
        {| replicaset.PodName := corev1.PodName pod;
           replicaset.PodReplicaSet := replicaset.zeroReplicaSet |} in
      send (SendAddedPod rsPod) ;;;
      err <- runPodTracker (corev1.PodName pod) ;;
      match err with
      | Some e => ret (Return (Some e))
      | None => ret Continue
      end
  | podDone podName =>
      modify (fun d => set_TrackedPods
                (filter (fun name => name ≠ podName) (TrackedPods d)) d) ;;;
      ret Continue
  | podStatusesReport reported =>
      modify (fun d => set_podStatuses (reported ∪ podStatuses d) d) ;;;
      d <- get ;;
      match lastObject d with
      | Some last => sendStatusReport last
      | None => ret tt
      end ;;;
      ret Continue
  | ContextDone => ret (Return (Some ErrTrackInterrupted))
  | errorsMsg err => ret (Return (Some err))
  end.

Definition Track (msgs : list Msg) : T Outcome :=
  runDaemonSetInformer ;;;
  select_loop Track_select msgs.

End WithDeps.

End DaemonSet.

(* ===================================================================== *)
(** * Reference definitions for the log framing                           *)
(* ===================================================================== *)

Module LogFraming.

Definition space : byte := Byte.x20.

(** A byte stream cut at every newline: the complete lines, in order,
    and the unterminated rest. *)
Fixpoint split_lines (stream : list byte) : list (list byte) * list byte :=
  match stream with
  | [] => ([], [])
  | b :: stream' =>
      let '(ls, rest) := split_lines stream' in
      if Byte.eqb b Pod.newline then ([] :: ls, rest)
      else match ls with
           | [] => ([], b :: rest)
           | l :: ls' => ((b :: l) :: ls', rest)
           end
  end.

(** A line cut once, at its first space. *)
Fixpoint first_space (line : list byte) : option (list byte * list byte) :=
  match line with
  | [] => None
  | b :: line' =>
      if Byte.eqb b space then Some ([], line')
      else match first_space line' with
           | Some (ts, payload) => Some (b :: ts, payload)
           | None => None
           end
  end.

(** The log line of a complete line: timestamp before the first
    space, payload after it; nothing for a line without a space. *)
Definition line_LogLines (line : list byte) : list Pod.LogLine :=
  match first_space line with
  | Some (ts, payload) =>
      [Pod.mkLogLine (string_of_list_byte ts) (string_of_list_byte payload)]
  | None => []
  end.

Definition stream_LogLines (stream : list byte) : list Pod.LogLine :=
  flat_map line_LogLines (fst (split_lines stream)).

(** The lines [ls], each followed by a newline. *)
Definition join_lines (ls : list (list byte)) : list byte :=
  flat_map (fun l => l ++ [Pod.newline]) ls.

(** The reads the loop of [followContainerLogs] gets to: all up to
    and including the first that returns an error or finds the
    context done. *)
Fixpoint consumed (reads : list Pod.ReadStep) : list Pod.ReadStep :=
  match reads with
  | [] => []
  | r :: rest =>
      r :: match Pod.rd_err r with
           | Some _ => []
           | None => if Pod.ctx_done r then [] else consumed rest
           end
  end.

(** The bytes the follower has read when it stops or waits. *)
Definition stream_read (reads : list Pod.ReadStep) : list byte :=
  flat_map Pod.rd_data (consumed reads).

(** Every chunk of a list of delivered chunks has at least one line. *)
Definition every_chunk_has_a_line (chunks : list Pod.ContainerLogChunk) : Prop :=
  Forall (fun chunk => 1 <= length (Pod.LogLines chunk)) chunks.

(** Text as the bytes a read puts in [chunkBuf]. *)
Definition bytes (s : string) : list byte := list_byte_of_string s.

(** Two reads that cut a line in the middle, with a line without a
    space and an unterminated rest. *)
Definition sample_reads : list Pod.ReadStep :=
  [ Pod.mkReadStep (bytes "2019-06-01T10:00:00Z sta") None false;
    Pod.mkReadStep
      (bytes "rted" ++ [Pod.newline] ++ bytes "nospace" ++ [Pod.newline]
       ++ bytes "2019-06-01T10:00:01Z a b" ++ [Pod.newline] ++ bytes "part")
      (Some io_EOF) false ].

End LogFraming.

(* ===================================================================== *)
(** * Reference definitions for the pod tracker                           *)
(* ===================================================================== *)

Module PodRules.

(** The waiting reasons that are reported as container errors. *)
Definition reported_reasons : list string :=
  ["ImagePullBackOff"; "ErrImagePull"; "CrashLoopBackOff"].

(** The container error a status snapshot gives rise to: for a waiting
    container with a reported reason, the reason, a colon, a space and
    the detail message, under the container's name. *)
Definition waiting_errors (cs : corev1.ContainerStatus) : list Pod.Action :=
  match corev1.Waiting (corev1.State cs) with
  | Some w =>
      if decide (corev1.Reason w ∈ reported_reasons)
      then [Pod.SendContainerError
              {| Pod.CEContainerName := corev1.Name cs;
                 Pod.Message := corev1.Reason w +:+ ":" +:+ " " +:+ corev1.Message w |}]
      else []
  | None => []
  end.

(** The container statuses of a pod snapshot, init containers first. *)
Definition all_statuses (object : corev1.Pod) : list corev1.ContainerStatus :=
  corev1.InitContainerStatuses (corev1.Status object)
  ++ corev1.ContainerStatuses (corev1.Status object).

Definition is_completion (a : Pod.Action) : bool :=
  match a with
  | Pod.SendSucceeded | Pod.SendFailed => true
  | _ => false
  end.

(** The [Succeeded] and [Failed] signals among the actions of a run. *)
Definition completion_signals (acts : list Pod.Action) : list Pod.Action :=
  List.filter is_completion acts.

Definition manifest_names (m : corev1.Pod) : list string :=
  map corev1.ContainerName (corev1.InitContainers (corev1.Spec m))
  ++ map corev1.ContainerName (corev1.Containers (corev1.Spec m)).

(** The pod state snapshot a message makes the tracker handle, with
    [TrackedContainers] as it is when the snapshot is handled: a
    [containerDone] first removes the container and handles the last
    object; the first [Added] first tracks the containers of the
    manifest; messages that handle no snapshot give [None]. *)
Definition snapshot_handled (kubeGetPod : string -> string -> error + corev1.Pod)
    (msg : Pod.Msg) (p : Pod.PodTracker) : option (list string * corev1.Pod) :=
  match msg with
  | Pod.containerDone name =>
      match Pod.lastObject p with
      | Some object =>
          Some (filter (fun n => n ≠ name) (Pod.TrackedContainers p), object)
      | None => None
      end
  | Pod.objectAdded object =>
      match Pod.State p with
      | Pod.Initial =>
          match kubeGetPod (Pod.Namespace p) (Pod.ResourceName p) with
          | inr manifest =>
              Some (Pod.TrackedContainers p ++ manifest_names manifest, object)
          | inl _ => None
          end
      | _ => Some (Pod.TrackedContainers p, object)
      end
  | Pod.objectModified object => Some (Pod.TrackedContainers p, object)
  | _ => None
  end.

(** The completion rule, on the snapshot and the tracked containers
    [handlePodState] finds. *)
Definition completion_of (tracked : list string) (object : corev1.Pod)
  : list Pod.Action * bool :=
  match tracked with
  | [] =>
      if String.eqb (corev1.Phase (corev1.Status object)) corev1.PodSucceeded
      then ([Pod.SendSucceeded], true)
      else if String.eqb (corev1.Phase (corev1.Status object)) corev1.PodFailed
      then ([Pod.SendFailed], true)
      else ([], false)
  | _ :: _ => ([], false)
  end.

(** A feed whose five callbacks all ask to stop. *)
Definition stop_feed : Pod.PodFeed unit :=
  {| Pod.Added := fun f => (Some StopTrack, f);
     Pod.Succeeded := fun f => (Some StopTrack, f);
     Pod.Failed := fun f => (Some StopTrack, f);
     Pod.feedContainerLogChunk := fun _ f => (Some StopTrack, f);
     Pod.feedContainerError := fun _ f => (Some StopTrack, f) |}.

(** A pod manifest and snapshots for the examples. *)
Definition a_status (name : string) (st : corev1.ContainerState)
  : corev1.ContainerStatus :=
  corev1.mkContainerStatus name st.

Definition a_pod (phase : string) (statuses : list corev1.ContainerStatus)
  : corev1.Pod :=
  corev1.mkPod "p1"
    (corev1.mkPodSpec [] [corev1.mkContainer "c"])
    (corev1.mkPodStatus phase [] statuses).

Definition no_containers_pod (phase : string) : corev1.Pod :=
  corev1.mkPod "p1" (corev1.mkPodSpec [] []) (corev1.mkPodStatus phase [] []).

End PodRules.

(* ===================================================================== *)
(** * Reference definitions for the controller trackers                   *)
(* ===================================================================== *)

Module ControllerRules.

(** The lifecycle events of a controller feed. *)
Inductive Lifecycle : Type :=
| LAdded (ready : bool)
| LReady
| LFailed (reason : string).

Definition deployment_lifecycle (a : Deployment.Action) : option Lifecycle :=
  match a with
  | Deployment.SendAdded ready => Some (LAdded ready)
  | Deployment.SendReady => Some LReady
  | Deployment.SendFailed reason => Some (LFailed reason)
  | _ => None
  end.

Definition daemonset_lifecycle (a : DaemonSet.Action) : option Lifecycle :=
  match a with
  | DaemonSet.SendAdded ready => Some (LAdded ready)
  | DaemonSet.SendReady => Some LReady
  | DaemonSet.SendFailed reason => Some (LFailed reason)
  | _ => None
  end.

Definition is_added (e : Lifecycle) : bool :=
  match e with LAdded _ => true | _ => false end.

(** How many [Added] events a feed holds. *)
Definition added_count (feed : list Lifecycle) : nat :=
  length (List.filter is_added feed).

(** Every [Ready] and [Failed] of the feed comes after an [Added]. *)
Definition added_precedes (feed : list Lifecycle) : Prop :=
  ∀ (before : list Lifecycle) (e : Lifecycle) (after : list Lifecycle),
    feed = before ++ e :: after ->
    is_added e = false ->
    ∃ ready : bool, LAdded ready ∈ before.






(** The readiness the deployment tracker compares a new observation
    with: the stored one, or not ready when it holds no object. *)
Definition previous_ready (d : Deployment.Tracker) : bool :=
  match Deployment.lastObject d with
  | Some _ => Deployment.CurrentReady d
  | None => false
  end.

(** The object the readiness calculator is given as reference. *)
Definition reference_object (object : appsv1.Deployment) (d : Deployment.Tracker)
  : appsv1.Deployment :=
  match Deployment.lastObject d with
  | Some last => last
  | None => object
  end.

(** How many [Added] events a tracker in this state can still emit. *)
Definition added_budget (st : string) : nat :=
  if String.eqb st "" then 1 else 0.

Definition deployment_feed (acts : list Deployment.Action) : list Lifecycle :=
  omap deployment_lifecycle acts.

Definition daemonset_feed (acts : list DaemonSet.Action) : list Lifecycle :=
  omap daemonset_lifecycle acts.

(** What [handleDaemonSetStatus] returns for an object: the readiness
    and the error of the rollout-status calculator, or the error of the
    event lister in debug mode. *)
Definition rollout (deps : DaemonSet.Deps) (object : appsv1.DaemonSet)
  : bool * option error :=
  match (if DaemonSet.debug deps then DaemonSet.ListEventsForObject deps object
         else None) with
  | Some listErr => (false, Some listErr)
  | None =>
      (snd (fst (DaemonSet.DaemonSetRolloutStatus deps object)),
       snd (DaemonSet.DaemonSetRolloutStatus deps object))
  end.

(** The event lister does not fail on [object] (it is only called in
    debug mode). *)
Definition listing_ok (deps : Deployment.Deps) (object : appsv1.Deployment) : Prop :=
  (if Deployment.debug deps then Deployment.ListEventsForObject deps object else None)
  = None.

(** The readiness edge the deployment tracker computes for a new
    observation: not ready before, ready now. *)
Definition deployment_ready_edge (deps : Deployment.Deps)
    (object : appsv1.Deployment) (d : Deployment.Tracker) : bool :=
  negb (previous_ready d)
  && tracker.IsReady
       (Deployment.DeploymentReadyStatus deps (reference_object object d)
          (appsv1.Status object)).

(** The lifecycle events one iteration of the deployment tracker's
    loop puts on the feed. *)
Definition deployment_step_feed (deps : Deployment.Deps) (msg : Deployment.Msg)
    (d : Deployment.Tracker) : list Lifecycle :=
  match msg with
  | Deployment.resourceAdded object =>
      match (if Deployment.debug deps
             then Deployment.ListEventsForObject deps object else None) with
      | Some _ => []
      | None =>
          if String.eqb (Deployment.State d) ""
          then [LAdded (deployment_ready_edge deps object d)] else []
      end
  | Deployment.resourceModified object =>
      match (if Deployment.debug deps
             then Deployment.ListEventsForObject deps object else None) with
      | Some _ => []
      | None => if deployment_ready_edge deps object d then [LReady] else []
      end
  | Deployment.resourceDeleted _ => [LFailed "resource deleted"]
  | Deployment.resourceFailed reason => [LFailed reason]
  | _ => []
  end.

(** The same for the daemonset tracker. *)
Definition daemonset_step_feed (deps : DaemonSet.Deps) (msg : DaemonSet.Msg)
    (d : DaemonSet.Tracker) : list Lifecycle :=
  match msg with
  | DaemonSet.resourceAdded object =>
      match snd (rollout deps object) with
      | Some _ => []
      | None =>
          if String.eqb (DaemonSet.State d) ""
          then [LAdded (fst (rollout deps object))] else []
      end
  | DaemonSet.resourceModified object =>
      match snd (rollout deps object) with
      | Some _ => []
      | None => if fst (rollout deps object) then [LReady] else []
      end
  | DaemonSet.resourceDeleted _ => [LFailed "resource deleted"]
  | DaemonSet.resourceFailed reason => [LFailed reason]
  | _ => []
  end.

(* ------------------------------------------------------------------- *)
(** ** Stand-ins for the collaborators, and objects, for the examples    *)

(** Ready when the ready replicas reach the desired count. *)
Definition sample_deps : Deployment.Deps :=
  {| Deployment.debug := false;
     Deployment.ListEventsForObject := fun _ => None;
     Deployment.DeploymentReadyStatus := fun last status =>
       tracker.mkReadyStatus
         (Z.leb (appsv1.Replicas (appsv1.Spec last)) (appsv1.ReadyReplicas status)) "";
     Deployment.IsReplicaSetNew := fun _ _ _ => (true, None);
     Deployment.GetPodReplicaSetName := fun _ => "rs-new" |}.

Definition a_deployment (readyReplicas : Z) : appsv1.Deployment :=
  appsv1.mkDeployment "web" (appsv1.mkDeploymentSpec 2)
    (appsv1.mkDeploymentStatus 1 2 2 readyReplicas readyReplicas (2 - readyReplicas)).

(** Ready when the available pods reach the desired number. *)
Definition sample_ds_deps : DaemonSet.Deps :=
  {| DaemonSet.debug := false;
     DaemonSet.ListEventsForObject := fun _ => None;
     DaemonSet.DaemonSetRolloutStatus := fun object =>
       ("",
        Z.leb (appsv1.DesiredNumberScheduled (appsv1.DaemonSetStatusOf object))
              (appsv1.NumberAvailable (appsv1.DaemonSetStatusOf object)),
        None) |}.

Definition a_daemonset (available : Z) : appsv1.DaemonSet :=
  appsv1.mkDaemonSet "agent" (appsv1.mkDaemonSetStatus 3 3 available 3 available (3 - available)).

Definition a_tracked_pod (name : string) : corev1.Pod :=
  corev1.mkPod name (corev1.mkPodSpec [] [corev1.mkContainer "c"])
    (corev1.mkPodStatus "Running" [] []).

(** The deployment tracker after the controller's first [Added]. *)
Definition started_tracker : Deployment.Tracker :=
  state (Deployment.Track sample_deps [Deployment.resourceAdded (a_deployment 0)]
           (Deployment.NewTracker "web" "default" None)).

(** The daemonset tracker after the controller's first [Added]. *)
Definition started_ds_tracker : DaemonSet.Tracker :=
  state (DaemonSet.Track sample_ds_deps [DaemonSet.resourceAdded (a_daemonset 0)]
           (DaemonSet.NewTracker "agent" "default" None)).

(** The deployment tracker once it tracks the pod [p1]. *)
Definition tracker_with_p1 : Deployment.Tracker :=
  state (Deployment.Track sample_deps
           [Deployment.resourceAdded (a_deployment 0);
            Deployment.podAdded (a_tracked_pod "p1")]
           (Deployment.NewTracker "web" "default" None)).

End ControllerRules.

(* ===================================================================== *)
(** * The informers' callbacks                                            *)
(* ===================================================================== *)

Module watch.

(** [type EventType string] and its constants. *)
Definition EventType : Type := string.
Definition Added : EventType := "ADDED".
Definition Modified : EventType := "MODIFIED".
Definition Deleted : EventType := "DELETED".
Definition Error : EventType := "ERROR".

(** [runtime.Object]: the dynamic types an event can carry.  The
    watch delivers decoded objects; a nil interface or a typed nil
    pointer is not represented. *)
Inductive Object : Type :=
| PodObject (p : corev1.Pod)
| DeploymentObject (d : appsv1.Deployment)
| DaemonSetObject (ds : appsv1.DaemonSet)
| StatusObject (message : string).

Record Event : Type := mkEvent
  { Type_ : EventType; Object_ : Object }.

End watch.

Module Informers.

Section WithFormat.

(** The [%T] and [%v] renderings of an object by [fmt]. *)
Variable Sprintf_T : watch.Object -> string.
Variable Sprintf_v : watch.Object -> string.

(** What a callback of [UntilWithSync] does: the channel sends, and
    the [(bool, error)] it returns. *)
Definition Callback (Msg : Type) : Type := list Msg * (bool * option error).

(** The [if] chain of the pod informer's callback.  [object] is [nil]
    ([None]) only for an [Error] event, whose type matches no branch. *)
Definition pod_forward (ty : watch.EventType) (object : option corev1.Pod)
  : list Pod.Msg :=
  if String.eqb ty watch.Added then
    match object with Some o => [Pod.objectAdded o] | None => [] end
  else if String.eqb ty watch.Modified then
    match object with Some o => [Pod.objectModified o] | None => [] end
  else if String.eqb ty watch.Deleted then
    match object with Some o => [Pod.objectDeleted o] | None => [] end
  else [].

(** The callback of [PodTracker.runInformer]. *)
Definition podCallback (resourceName : string) (e : watch.Event)
  : Callback Pod.Msg :=
  if negb (String.eqb (watch.Type_ e) watch.Error) then
    match watch.Object_ e with
    | watch.PodObject object =>
        (pod_forward (watch.Type_ e) (Some object), (false, None))
    | _ =>
        ([], (true, Some (Errorf ("expected " +:+ resourceName
                                  +:+ " to be a *corev1.Pod, got "
                                  +:+ Sprintf_T (watch.Object_ e)))))
    end
  else (pod_forward (watch.Type_ e) None, (false, None)).

(** The [switch e.Type] of the deployment informer's callback. *)
Definition deployment_switch (e : watch.Event) (object : option appsv1.Deployment)
  : Callback Deployment.Msg :=
  if String.eqb (watch.Type_ e) watch.Added then
    (match object with Some o => [Deployment.resourceAdded o] | None => [] end,
     (false, None))
  else if String.eqb (watch.Type_ e) watch.Modified then
    (match object with Some o => [Deployment.resourceModified o] | None => [] end,
     (false, None))
  else if String.eqb (watch.Type_ e) watch.Deleted then
    (match object with Some o => [Deployment.resourceDeleted o] | None => [] end,
     (false, None))
  else if String.eqb (watch.Type_ e) watch.Error then
    ([], (true, Some (Errorf ("deployment error: " +:+ Sprintf_v (watch.Object_ e)))))
  else ([], (false, None)).

(** The callback of [runDeploymentInformer]. *)
Definition deploymentCallback (resourceName : string) (e : watch.Event)
  : Callback Deployment.Msg :=
  if negb (String.eqb (watch.Type_ e) watch.Error) then
    match watch.Object_ e with
    | watch.DeploymentObject object => deployment_switch e (Some object)
    | _ =>
        ([], (true, Some (Errorf ("expected " +:+ resourceName
                                  +:+ " to be a *extension.Deployment, got "
                                  +:+ Sprintf_T (watch.Object_ e)))))
    end
  else deployment_switch e None.

(** The [switch e.Type] of the daemonset informer's callback. *)
Definition daemonset_switch (e : watch.Event) (object : option appsv1.DaemonSet)
  : Callback DaemonSet.Msg :=
  if String.eqb (watch.Type_ e) watch.Added then
    (match object with Some o => [DaemonSet.resourceAdded o] | None => [] end,
     (false, None))
  else if String.eqb (watch.Type_ e) watch.Modified then
    (match object with Some o => [DaemonSet.resourceModified o] | None => [] end,
     (false, None))
  else if String.eqb (watch.Type_ e) watch.Deleted then
    (match object with Some o => [DaemonSet.resourceDeleted o] | None => [] end,
     (false, None))
  else if String.eqb (watch.Type_ e) watch.Error then
    ([], (true, Some (Errorf ("DaemonSet error: " +:+ Sprintf_v (watch.Object_ e)))))
  else ([], (false, None)).

(** The callback of [runDaemonSetInformer]. *)
Definition daemonsetCallback (resourceName : string) (e : watch.Event)
  : Callback DaemonSet.Msg :=
  if negb (String.eqb (watch.Type_ e) watch.Error) then
    match watch.Object_ e with
    | watch.DaemonSetObject object => daemonset_switch e (Some object)
    | _ =>
        ([], (true, Some (Errorf ("expected " +:+ resourceName
                                  +:+ " to be a *appsv1.DaemonSet, got "
                                  +:+ Sprintf_T (watch.Object_ e)))))
    end
  else daemonset_switch e None.

End WithFormat.

End Informers.

(* ===================================================================== *)
(** * The container trackers of a pod                                     *)
(* ===================================================================== *)

Module ContainerTracker.

(** What the [select] of [trackContainer] receives: a tick of the
    200 ms ticker, with the state [pod.ContainerTrackerStates] holds
    for the container when it is read, or the end of the context. *)
Inductive Tick : Type :=
| tick (state : Pod.TrackerState)
| ContextDone.

Section WithText.

(** The [%s] rendering of a tracker state. *)
Variable state_text : Pod.TrackerState -> string.

Definition unknown_state (resourceName containerName : string)
    (state : Pod.TrackerState) : error :=
  Errorf ("unknown Pod's `" +:+ resourceName +:+ "` Container `" +:+ containerName
          +:+ "` tracker state `" +:+ state_text state +:+ "`").

(** [trackContainer]: [stream] is what the log request will return
    when the container is found running or terminated. *)
Fixpoint trackContainer (resourceName containerName : string)
    (stream : error + list Pod.ReadStep) (ticks : list Tick)
  : Run (list byte) Pod.ContainerLogChunk Outcome :=
  match ticks with
  | [] => mkRun Blocked [] []
  | tick state :: rest =>
      match state with
      | Pod.ContainerRunning | Pod.ContainerTerminated =>
          Pod.followContainerLogs containerName stream
      | Pod.Initial | Pod.ContainerWaiting =>
          trackContainer resourceName containerName stream rest
      | _ =>
          mkRun (Returned (Some (unknown_state resourceName containerName state))) [] []
      end
  | ContextDone :: _ => mkRun (Returned (Some ErrTrackTimeout)) [] []
  end.

(** The goroutine [runContainersTrackers] starts for a container: the
    sends it makes on the tracker's [errors] and [containerDone]
    channels once [trackContainer] has returned. *)
Definition containerGoroutine (resourceName containerName : string)
    (stream : error + list Pod.ReadStep) (ticks : list Tick) : list Pod.Msg :=
  match value (trackContainer resourceName containerName stream ticks) with
  | Returned err =>
      match err with
      | Some e => [Pod.errorsMsg e]
      | None => []
      end ++ [Pod.containerDone containerName]
  | Blocked => []
  | Panicked => []
  end.

End WithText.

End ContainerTracker.

(* ===================================================================== *)
(** * The pod tracker adapters of the controller trackers                 *)
(* ===================================================================== *)

Module PodAdapter.

(** What the [select] of the second goroutine of [runPodTracker] can
    receive: the channels of the pod tracker, and the two channels fed
    by the goroutine that runs [podTracker.Start()]. *)
Inductive From : Type :=
| ContainerLogChunk (chunk : Pod.ContainerLogChunk)
| ContainerError (containerError : Pod.ContainerError)
| EventMsg (msg : string)
| Added
| Succeeded
| Failed
| Ready
| StatusReport (podStatus : pod.PodStatus)
| errorChan (err : error)
| doneChan.

(** [fmt.Sprintf("po/%s %s", name, msg)]. *)
Definition po_message (name msg : string) : string :=
  "po/" +:+ name +:+ " " +:+ msg.

(** Where the deployment's adapter sends: the private channels read
    by [Track], or the public [EventMsg] channel. *)
Inductive DeploymentSend : Type :=
| toTrack (msg : Deployment.Msg)
| toEventMsg (text : string).

Definition deployment_select (podName rsName : string) (m : From)
  : M unit DeploymentSend Flow :=
  match m with
  | ContainerLogChunk chunk =>
      send (toTrack (Deployment.replicaSetPodLogChunk
              {| replicaset.PodLogChunk :=
                   {| pod.ContainerLogChunk := chunk; pod.LogPodName := podName |};
                 replicaset.LogReplicaSet := replicaset.mkReplicaSet rsName false |})) ;;;
      ret Continue
  | ContainerError containerError =>
      send (toTrack (Deployment.replicaSetPodError
              {| replicaset.PodError :=
                   {| pod.ContainerError := containerError; pod.ErrPodName := podName |};
                 replicaset.ErrReplicaSet := replicaset.mkReplicaSet rsName false |})) ;;;
      ret Continue
  | EventMsg msg => send (toEventMsg (po_message podName msg)) ;;; ret Continue
  | Added => ret Continue
  | Succeeded => ret Continue
  | Failed => ret Continue
  | Ready => ret Continue
  | StatusReport podStatus =>
      send (toTrack (Deployment.podStatusesReport {[ podName := podStatus ]})) ;;;
      ret Continue
  | errorChan err => send (toTrack (Deployment.errorsMsg err)) ;;; ret (Return None)
  | doneChan => send (toTrack (Deployment.podDone podName)) ;;; ret (Return None)
  end.

(** The adapter goroutine of [deployment.Tracker.runPodTracker]. *)
Definition deployment_adapter (podName rsName : string) (msgs : list From)
  : Run unit DeploymentSend Outcome :=
  select_loop (deployment_select podName rsName) msgs tt.

(** Where the daemonset's adapter sends: the private channels read by
    [Track], or the public [PodLogChunk], [PodError] and [EventMsg]. *)
Inductive DaemonSetSend : Type :=
| dsToTrack (msg : DaemonSet.Msg)
| dsToPodLogChunk (rsChunk : replicaset.ReplicaSetPodLogChunk)
| dsToPodError (rsPodError : replicaset.ReplicaSetPodError)
| dsToEventMsg (text : string).

Definition daemonset_select (podName : string) (m : From)
  : M unit DaemonSetSend Flow :=
  match m with
  | ContainerLogChunk chunk =>
      send (dsToPodLogChunk
              {| replicaset.PodLogChunk :=
                   {| pod.ContainerLogChunk := chunk; pod.LogPodName := podName |};
                 replicaset.LogReplicaSet := replicaset.zeroReplicaSet |}) ;;;
      ret Continue
  | ContainerError containerError =>
      send (dsToPodError
              {| replicaset.PodError :=
                   {| pod.ContainerError := containerError; pod.ErrPodName := podName |};
                 replicaset.ErrReplicaSet := replicaset.zeroReplicaSet |}) ;;;
      ret Continue
  | EventMsg msg => send (dsToEventMsg (po_message podName msg)) ;;; ret Continue
  | Added => ret Continue
  | Succeeded => ret Continue
  | Failed => ret Continue
  | Ready => ret Continue
  | StatusReport podStatus =>
      send (dsToTrack (DaemonSet.podStatusesReport {[ podName := podStatus ]})) ;;;
      ret Continue
  | errorChan err => send (dsToTrack (DaemonSet.errorsMsg err)) ;;; ret (Return None)
  | doneChan => send (dsToTrack (DaemonSet.podDone podName)) ;;; ret (Return None)
  end.

(** The adapter goroutine of [daemonset.Tracker.runPodTracker]. *)
Definition daemonset_adapter (podName : string) (msgs : list From)
  : Run unit DaemonSetSend Outcome :=
  select_loop (daemonset_select podName) msgs tt.

End PodAdapter.

(* ===================================================================== *)
(** * Reference definitions for the further properties                    *)
(* ===================================================================== *)

Module MoreRules.

Import LogFraming.

(** The complete lines of a byte stream. *)
Definition complete_lines (stream : list byte) : list (list byte) :=
  fst (split_lines stream).

(** A log line written back as text: timestamp, a space, payload. *)
Definition LogLine_text (l : Pod.LogLine) : string :=
  Pod.Timestamp l +:+ " " +:+ Pod.Data l.

(** All log lines of a list of chunks, in order. *)
Definition delivered_lines (chunks : list Pod.ContainerLogChunk) : list Pod.LogLine :=
  flat_map Pod.LogLines chunks.

(** What the follower has done after a last read [r], if any. *)
Definition follow_outcome (r : option Pod.ReadStep) : Outcome :=
  match r with
  | None => Blocked
  | Some r =>
      match Pod.rd_err r with
      | Some e => if decide (e = io_EOF) then Returned None else Returned (Some e)
      | None => if Pod.ctx_done r then Returned (Some ErrTrackTimeout) else Blocked
      end
  end.

(** The tracker state the statuses of a container give it: terminated
    over running over waiting; [None] when the status sets none. *)
Definition status_state (cs : corev1.ContainerStatus) : option Pod.TrackerState :=
  match corev1.Terminated (corev1.State cs) with
  | Some _ => Some Pod.ContainerTerminated
  | None =>
      match corev1.Running (corev1.State cs) with
      | Some _ => Some Pod.ContainerRunning
      | None =>
          match corev1.Waiting (corev1.State cs) with
          | Some _ => Some Pod.ContainerWaiting
          | None => None
          end
      end
  end.

Definition is_pod_added (a : Pod.Action) : bool :=
  match a with Pod.SendAdded => true | _ => false end.

Definition is_container_start (a : Pod.Action) : bool :=
  match a with Pod.GoTrackContainer _ => true | _ => false end.

(** A tracker waits on a tick when the container is not started yet. *)
Definition waiting_tick (t : ContainerTracker.Tick) : bool :=
  match t with
  | ContainerTracker.tick Pod.Initial => true
  | ContainerTracker.tick Pod.ContainerWaiting => true
  | _ => false
  end.

(** A message that ends the adapter goroutine. *)
Definition adapter_stop (m : PodAdapter.From) : bool :=
  match m with
  | PodAdapter.errorChan _ | PodAdapter.doneChan => true
  | _ => false
  end.

(** The messages the adapter gets to: all up to and including the
    first that ends it. *)
Fixpoint adapter_dispatched (msgs : list PodAdapter.From) : list PodAdapter.From :=
  match msgs with
  | [] => []
  | m :: rest => m :: if adapter_stop m then [] else adapter_dispatched rest
  end.

(** What the deployment's adapter sends for one message. *)
Definition deployment_forward (podName rsName : string) (m : PodAdapter.From)
  : list PodAdapter.DeploymentSend :=
  emitted (PodAdapter.deployment_select podName rsName m tt).

Definition daemonset_forward (podName : string) (m : PodAdapter.From)
  : list PodAdapter.DaemonSetSend :=
  emitted (PodAdapter.daemonset_select podName m tt).

(** The log chunks among what the deployment's adapter sent. *)
Definition forwarded_chunks (sends : list PodAdapter.DeploymentSend)
  : list replicaset.ReplicaSetPodLogChunk :=
  omap (fun s => match s with
                 | PodAdapter.toTrack (Deployment.replicaSetPodLogChunk c) => Some c
                 | _ => None
                 end) sends.

(** The log chunks among the messages of the pod tracker. *)
Definition received_chunks (msgs : list PodAdapter.From) : list Pod.ContainerLogChunk :=
  omap (fun m => match m with
                 | PodAdapter.ContainerLogChunk c => Some c
                 | _ => None
                 end) msgs.

(** The states a controller tracker's [State] field takes. *)
Definition controller_states : list string := [""; "Started"; "Deleted"; "Failed"].

(** The status reports among the actions of a deployment tracker. *)
Definition status_reports (acts : list Deployment.Action)
  : list Deployment.DeploymentStatus :=
  omap (fun a => match a with
                 | Deployment.SendStatusReport st => Some st
                 | _ => None
                 end) acts.

(** The status report that shows the tracker [d] as it is. *)
Definition report_of (d : Deployment.Tracker) (object : appsv1.Deployment)
  : Deployment.DeploymentStatus :=
  Deployment.NewDeploymentStatus (Deployment.readyStatus d)
    (String.eqb (Deployment.State d) "Failed") (Deployment.failedReason d)
    (appsv1.Spec object) (appsv1.Status object) (Deployment.podStatuses d).

(** A feed whose callbacks all return [nil], counting its calls. *)
Definition counting_feed : Pod.PodFeed nat :=
  {| Pod.Added := fun n => (None, S n);
     Pod.Succeeded := fun n => (None, S n);
     Pod.Failed := fun n => (None, S n);
     Pod.feedContainerLogChunk := fun _ n => (None, S n);
     Pod.feedContainerError := fun _ n => (None, S n) |}.

(** The messages of [TrackPod] that end it without a callback. *)
Definition feed_stop (m : Pod.FeedMsg) : bool :=
  match m with
  | Pod.errorChan _ | Pod.doneChan => true
  | _ => false
  end.

(** What a callback of [feed] returns for message [m] in state [f];
    [None] for the two messages that have no callback. *)
Definition callback_result {F} (feed : Pod.PodFeed F) (m : Pod.FeedMsg) (f : F)
  : option (option error * F) :=
  match m with
  | Pod.recvContainerLogChunk chunk => Some (Pod.feedContainerLogChunk feed chunk f)
  | Pod.recvContainerError ce => Some (Pod.feedContainerError feed ce f)
  | Pod.recvAdded => Some (Pod.Added feed f)
  | Pod.recvSucceeded => Some (Pod.Succeeded feed f)
  | Pod.recvFailed => Some (Pod.Failed feed f)
  | Pod.errorChan _ => None
  | Pod.doneChan => None
  end.

(** Stand-ins for the renderings of [fmt], for the examples. *)
Definition sample_T (o : watch.Object) : string :=
  match o with
  | watch.PodObject _ => "*v1.Pod"
  | watch.DeploymentObject _ => "*v1.Deployment"
  | watch.DaemonSetObject _ => "*v1.DaemonSet"
  | watch.StatusObject _ => "*v1.Status"
  end.

Definition sample_v (o : watch.Object) : string :=
  match o with
  | watch.StatusObject m => m
  | _ => "object"
  end.

Definition sample_state_text (st : Pod.TrackerState) : string :=
  match st with
  | Pod.Initial => ""
  | Pod.ResourceAdded => "ResourceAdded"
  | Pod.ContainerWaiting => "ContainerWaiting"
  | Pod.ContainerRunning => "ContainerRunning"
  | Pod.ContainerTerminated => "ContainerTerminated"
  end.

(** The shape of the actions of a run with respect to the completion
    signals: none, or one that is last and with which it returns nil. *)
Definition completes_last {V} (acts : list Pod.Action) (v nil : V) : Prop :=
  PodRules.completion_signals acts = []
  ∨ ∃ sig before, acts = before ++ [sig] ∧ PodRules.is_completion sig = true
                  ∧ PodRules.completion_signals before = [] ∧ v = nil.

(** The signals with which the deployment's adapter ends. *)
Definition is_terminal (s : PodAdapter.DeploymentSend) : bool :=
  match s with
  | PodAdapter.toTrack (Deployment.podDone _) => true
  | PodAdapter.toTrack (Deployment.errorsMsg _) => true
  | _ => false
  end.

(** The terminal signal for the message that ends the adapter. *)
Definition terminal_signal (podName : string) (m : PodAdapter.From)
  : list PodAdapter.DeploymentSend :=
  match m with
  | PodAdapter.errorChan err => [PodAdapter.toTrack (Deployment.errorsMsg err)]
  | PodAdapter.doneChan => [PodAdapter.toTrack (Deployment.podDone podName)]
  | _ => []
  end.

(** A log chunk as the deployment's adapter hands it to [Track]. *)
Definition wrap_chunk (podName rsName : string) (chunk : Pod.ContainerLogChunk)
  : replicaset.ReplicaSetPodLogChunk :=
  {| replicaset.PodLogChunk :=
       {| pod.ContainerLogChunk := chunk; pod.LogPodName := podName |};
     replicaset.LogReplicaSet := replicaset.mkReplicaSet rsName false |}.

(** The log chunks among what the daemonset's adapter sent. *)
Definition ds_forwarded_chunks (sends : list PodAdapter.DaemonSetSend)
  : list replicaset.ReplicaSetPodLogChunk :=
  omap (fun s => match s with
                 | PodAdapter.dsToPodLogChunk c => Some c
                 | _ => None
                 end) sends.

(** The same two for the daemonset's adapter. *)
Definition ds_is_terminal (s : PodAdapter.DaemonSetSend) : bool :=
  match s with
  | PodAdapter.dsToTrack (DaemonSet.podDone _) => true
  | PodAdapter.dsToTrack (DaemonSet.errorsMsg _) => true
  | _ => false
  end.

Definition ds_terminal_signal (podName : string) (m : PodAdapter.From)
  : list PodAdapter.DaemonSetSend :=
  match m with
  | PodAdapter.errorChan err => [PodAdapter.dsToTrack (DaemonSet.errorsMsg err)]
  | PodAdapter.doneChan => [PodAdapter.dsToTrack (DaemonSet.podDone podName)]
  | _ => []
  end.

(** The message that ends the adapter, if one of [msgs] does. *)
Definition adapter_end (msgs : list PodAdapter.From) : option PodAdapter.From :=
  List.find adapter_stop msgs.

(** What the adapter has put on the channels [Track] reads. *)
Definition track_inbox (sends : list PodAdapter.DeploymentSend) : list Deployment.Msg :=
  omap (fun s => match s with
                 | PodAdapter.toTrack m => Some m
                 | _ => None
                 end) sends.

(** The log chunks [Track] has sent on [PodLogChunk]. *)
Definition pod_log_chunks (acts : list Deployment.Action)
  : list replicaset.ReplicaSetPodLogChunk :=
  omap (fun a => match a with
                 | Deployment.SendPodLogChunk c => Some c
                 | _ => None
                 end) acts.

(** The last status the pod tracker has reported, if any. *)
Definition last_status (msgs : list PodAdapter.From) : option pod.PodStatus :=
  last (omap (fun m => match m with
                       | PodAdapter.StatusReport st => Some st
                       | _ => None
                       end) msgs).

(** How far a controller tracker's [State] has moved: not started,
    started, or deleted or failed. *)
Definition state_rank (st : string) : nat :=
  if String.eqb st "" then 0 else if String.eqb st "Started" then 1 else 2.



(** What a replica-set event does to the known replica sets. *)
Definition rs_event (known : gmap string appsv1.ReplicaSet) (msg : Deployment.Msg)
  : gmap string appsv1.ReplicaSet :=
  match msg with
  | Deployment.replicaSetAdded rs => <[appsv1.ReplicaSetName rs := rs]> known
  | Deployment.replicaSetModified rs => <[appsv1.ReplicaSetName rs := rs]> known
  | Deployment.replicaSetDeleted rs => delete (appsv1.ReplicaSetName rs) known
  | _ => known
  end.

Definition is_resourceFailed (msg : Deployment.Msg) : bool :=
  match msg with Deployment.resourceFailed _ => true | _ => false end.

(** A rollout-status calculator that fails, for the examples. *)
Definition failing_ds_deps : DaemonSet.Deps :=
  {| DaemonSet.debug := false;
     DaemonSet.ListEventsForObject := fun _ => None;
     DaemonSet.DaemonSetRolloutStatus := fun _ =>
       ("", false, Some (Errorf "rollout status")) |}.

(** A run in which the controller is reported failed, and the status
    report the tracker then publishes. *)
Definition failed_msgs : list Deployment.Msg :=
  [Deployment.resourceAdded (ControllerRules.a_deployment 0);
   Deployment.resourceFailed "progress deadline exceeded"].

Definition failed_tracker : Deployment.Tracker :=
  state (Deployment.Track ControllerRules.sample_deps failed_msgs
           (Deployment.NewTracker "web" "default" None)).

(** Replica-set events for the examples. *)
Definition replica_set_msgs : list Deployment.Msg :=
  [Deployment.replicaSetAdded (appsv1.mkReplicaSet "rs-1" 1);
   Deployment.replicaSetAdded (appsv1.mkReplicaSet "rs-2" 2);
   Deployment.replicaSetModified (appsv1.mkReplicaSet "rs-2" 3);
   Deployment.replicaSetDeleted (appsv1.mkReplicaSet "rs-1" 1)].

(** The messages of [TrackPod] that come before the one that ends it. *)
Fixpoint until_stop (msgs : list Pod.FeedMsg) : list Pod.FeedMsg :=
  match msgs with
  | [] => []
  | m :: rest => if feed_stop m then [] else m :: until_stop rest
  end.

(** The feed after its callbacks for [msgs] have run in order. *)
Definition feed_state {F} (feed : Pod.PodFeed F) (f : F) (msgs : list Pod.FeedMsg) : F :=
  foldl (fun f m => match callback_result feed m f with
                    | Some r => snd r
                    | None => f
                    end) f msgs.

Definition sample_feed_msgs : list Pod.FeedMsg :=
  [Pod.recvAdded;
   Pod.recvContainerLogChunk (Pod.mkContainerLogChunk "c" [Pod.mkLogLine "t1" "one"]);
   Pod.recvSucceeded;
   Pod.doneChan;
   Pod.recvFailed].

(** An event lister that fails, in debug mode, for the examples. *)
Definition failing_deps : Deployment.Deps :=
  {| Deployment.debug := true;
     Deployment.ListEventsForObject := fun _ => Some (Errorf "list events");
     Deployment.DeploymentReadyStatus := fun _ _ => tracker.zeroReadyStatus;
     Deployment.IsReplicaSetNew := fun _ _ _ => (true, None);
     Deployment.GetPodReplicaSetName := fun _ => "rs-new" |}.

(** What a message does to the daemonset tracker's list of tracked
    pods and to its map of pod statuses. *)
Definition pod_event (tracked : list string) (msg : DaemonSet.Msg) : list string :=
  match msg with
  | DaemonSet.podAdded pod => tracked ++ [corev1.PodName pod]
  | DaemonSet.podDone podName => filter (fun name => name ≠ podName) tracked
  | _ => tracked
  end.

Definition status_event (statuses : gmap string pod.PodStatus) (msg : DaemonSet.Msg)
  : gmap string pod.PodStatus :=
  match msg with
  | DaemonSet.podStatusesReport reported => reported ∪ statuses
  | _ => statuses
  end.

(** The pod trackers a daemonset tracker has started, each with the
    time its logs start from, and the pods it was told of. *)
Definition ds_started_trackers (acts : list DaemonSet.Action)
  : list (string * option Z) :=
  omap (fun a => match a with
                 | DaemonSet.GoPodTracker podName t => Some (podName, t)
                 | _ => None
                 end) acts.

Definition ds_added_pods (msgs : list DaemonSet.Msg) : list corev1.Pod :=
  omap (fun m => match m with
                 | DaemonSet.podAdded pod => Some pod
                 | _ => None
                 end) msgs.

Definition ds_pod_msgs : list DaemonSet.Msg :=
  [DaemonSet.podAdded (ControllerRules.a_tracked_pod "p1");
   DaemonSet.podAdded (ControllerRules.a_tracked_pod "p2");
   DaemonSet.podStatusesReport {[ "p1" := pod.mkPodStatus "Running" true 0 ]};
   DaemonSet.podDone "p1"].

(** The channel of the deployment tracker a message of [Track]
    arrives on, by number. *)
Definition channel (m : Deployment.Msg) : nat :=
  match m with
  | Deployment.resourceAdded _ => 0
  | Deployment.resourceModified _ => 1
  | Deployment.resourceDeleted _ => 2
  | Deployment.resourceFailed _ => 3
  | Deployment.replicaSetAdded _ => 4
  | Deployment.replicaSetModified _ => 5
  | Deployment.replicaSetDeleted _ => 6
  | Deployment.podAdded _ => 7
  | Deployment.podDone _ => 8
  | Deployment.podStatusesReport _ => 9
  | Deployment.replicaSetPodLogChunk _ => 10
  | Deployment.replicaSetPodError _ => 11
  | Deployment.ContextDone => 12
  | Deployment.errorsMsg _ => 13
  end.

(** The messages of a list that arrive on channel [c], in order. *)
Definition on_channel (c : nat) (msgs : list Deployment.Msg) : list Deployment.Msg :=
  List.filter (fun m => Nat.eqb (channel m) c) msgs.

(** What the messages on four of the channels carry. *)
Definition chunk_payload (m : Deployment.Msg) : option replicaset.ReplicaSetPodLogChunk :=
  match m with Deployment.replicaSetPodLogChunk c => Some c | _ => None end.

Definition status_payload (m : Deployment.Msg) : option (gmap string pod.PodStatus) :=
  match m with Deployment.podStatusesReport r => Some r | _ => None end.

Definition done_payload (m : Deployment.Msg) : option string :=
  match m with Deployment.podDone n => Some n | _ => None end.

Definition error_payload (m : Deployment.Msg) : option error :=
  match m with Deployment.errorsMsg e => Some e | _ => None end.

(** The messages [Track] gets to when it dispatches [msgs] and none
    but an error makes it return: those before the first error. *)
Fixpoint until_error (msgs : list Deployment.Msg) : list Deployment.Msg :=
  match msgs with
  | [] => []
  | Deployment.errorsMsg _ :: _ => []
  | m :: rest => m :: until_error rest
  end.

(** The messages an adapter for replica set [rsName] sends to [Track]. *)
Definition adapter_kind (rsName : string) (m : Deployment.Msg) : Prop :=
  match m with
  | Deployment.replicaSetPodLogChunk c =>
      replicaset.Name (replicaset.LogReplicaSet c) = rsName
  | Deployment.replicaSetPodError e =>
      replicaset.Name (replicaset.ErrReplicaSet e) = rsName
  | Deployment.podStatusesReport _ => True
  | Deployment.podDone _ => True
  | Deployment.errorsMsg _ => True
  | _ => False
  end.

(** The statuses among the messages of the pod tracker. *)
Definition reported_statuses (msgs : list PodAdapter.From) : list pod.PodStatus :=
  omap (fun m => match m with
                 | PodAdapter.StatusReport st => Some st
                 | _ => None
                 end) msgs.

(** An order in which [Track] can dispatch what the adapter sends for
    [sample_adapter_msgs]: the status and the end of the pod tracker
    overtake the log chunks, which wait in their buffer. *)
Definition sample_inbox : list Deployment.Msg :=
  [Deployment.podStatusesReport {[ "p1" := pod.mkPodStatus "Running" true 0 ]};
   Deployment.replicaSetPodLogChunk
     (wrap_chunk "p1" "rs-new" (Pod.mkContainerLogChunk "c" [Pod.mkLogLine "t1" "one"]));
   Deployment.podDone "p1";
   Deployment.replicaSetPodLogChunk
     (wrap_chunk "p1" "rs-new" (Pod.mkContainerLogChunk "c" [Pod.mkLogLine "t2" "two"]))].

(** Ticks, reads and messages for the examples. *)
Definition sample_ticks : list ContainerTracker.Tick :=
  [ContainerTracker.tick Pod.Initial; ContainerTracker.tick Pod.ContainerWaiting].

Definition failing_stream : error + list Pod.ReadStep :=
  inr [Pod.mkReadStep [] (Some (Errorf "connection reset")) false].

Definition sample_adapter_msgs : list PodAdapter.From :=
  [PodAdapter.Added;
   PodAdapter.ContainerLogChunk (Pod.mkContainerLogChunk "c" [Pod.mkLogLine "t1" "one"]);
   PodAdapter.StatusReport (pod.mkPodStatus "Running" true 0);
   PodAdapter.ContainerLogChunk (Pod.mkContainerLogChunk "c" [Pod.mkLogLine "t2" "two"]);
   PodAdapter.doneChan;
   PodAdapter.ContainerLogChunk (Pod.mkContainerLogChunk "c" [Pod.mkLogLine "t3" "late"])].

(** How many actions of a list satisfy [w]. *)
Definition tally {O} (w : O -> bool) (acts : list O) : nat :=
  length (List.filter w acts).

(** How many [Added] signals a pod tracker in this state can still send. *)
Definition pod_budget (st : Pod.TrackerState) : nat :=
  match st with Pod.Initial => 1 | _ => 0 end.

(** A pod snapshot with one container status, for the examples. *)
Definition status_pod (cs : corev1.ContainerStatus) : corev1.Pod :=
  corev1.mkPod "p1" (corev1.mkPodSpec [] [corev1.mkContainer (corev1.Name cs)])
    (corev1.mkPodStatus "Running" [] [cs]).

Definition restarted_status : corev1.ContainerStatus :=
  corev1.mkContainerStatus "c"
    (corev1.mkContainerState (Some (corev1.mkWaiting "CrashLoopBackOff" "back-off"))
       None (Some (corev1.mkTerminated 1))).

End MoreRules.

(* ===================================================================== *)
(** * Properties: the monad                                               *)
(* ===================================================================== *)

Section MonadFacts.

Context {S O : Type}.

Lemma bind_value {A B} (m : M S O A) (k : A -> M S O B) s :
  value (bind m k s) = value (k (value (m s)) (state (m s))).
Proof. reflexivity. Qed.

Lemma bind_state {A B} (m : M S O A) (k : A -> M S O B) s :
  state (bind m k s) = state (k (value (m s)) (state (m s))).
Proof. reflexivity. Qed.

Lemma bind_emitted {A B} (m : M S O A) (k : A -> M S O B) s :
  emitted (bind m k s) = emitted (m s) ++ emitted (k (value (m s)) (state (m s))).
Proof. reflexivity. Qed.

End MonadFacts.

(* ===================================================================== *)
(** * Properties: log framing ([followContainerLogs])                     *)
(* ===================================================================== *)

Module LogFacts.

Import LogFraming.

Lemma ascii_space_eqb (b : byte) :
  Ascii.eqb (ascii_of_byte b) " "%char = Byte.eqb b space.
Proof. destruct b; reflexivity. Qed.

Lemma string_of_list_byte_cons b l :
  string_of_list_byte (b :: l) = String (ascii_of_byte b) (string_of_list_byte l).
Proof. reflexivity. Qed.

(** [strings.Cut] on the text of a line finds the first space byte. *)
Lemma Cut_first_space (line : list byte) :
  strings.Cut (string_of_list_byte line) " "%char =
  match first_space line with
  | Some (ts, payload) => Some (string_of_list_byte ts, string_of_list_byte payload)
  | None => None
  end.
Proof.
  induction line as [|b line IH]; [reflexivity|].
  rewrite string_of_list_byte_cons. cbn [strings.Cut first_space].
  rewrite ascii_space_eqb. destruct (Byte.eqb b space); [reflexivity|].
  rewrite IH. destruct (first_space line) as [[ts payload]|]; reflexivity.
Qed.

(** What the newline case of the scan appends to [chunkLines]. *)
Lemma scan_byte_newline lineBuf chunkLines :
  Pod.scan_byte (lineBuf, chunkLines) Pod.newline =
  ([], chunkLines ++ line_LogLines lineBuf).
Proof.
  unfold Pod.scan_byte, line_LogLines.
  replace (Byte.eqb Pod.newline Pod.newline) with true by reflexivity.
  cbn [strings.SplitN]. rewrite Cut_first_space.
  destruct (first_space lineBuf) as [[ts payload]|]; cbn.
  - reflexivity.
  - by rewrite app_nil_r.
Qed.

Lemma scan_byte_other lineBuf chunkLines b :
  b ≠ Pod.newline ->
  Pod.scan_byte (lineBuf, chunkLines) b = (lineBuf ++ [b], chunkLines).
Proof.
  intros Hb. unfold Pod.scan_byte.
  destruct (Byte.eqb b Pod.newline) eqn:E; [|reflexivity].
  apply Byte.byte_dec_bl in E. contradiction.
Qed.

Lemma split_lines_no_newline (l : list byte) :
  Pod.newline ∉ l -> split_lines l = ([], l).
Proof.
  induction l as [|b l IH]; intros Hl; [reflexivity|].
  apply not_elem_of_cons in Hl as [Hb Hl].
  cbn [split_lines]. rewrite (IH Hl).
  destruct (Byte.eqb b Pod.newline) eqn:E; [|reflexivity].
  apply Byte.byte_dec_bl in E. congruence.
Qed.

Lemma split_lines_line (l rest : list byte) :
  Pod.newline ∉ l ->
  split_lines (l ++ Pod.newline :: rest) =
  (l :: fst (split_lines rest), snd (split_lines rest)).
Proof.
  induction l as [|b l IH]; intros Hl.
  - cbn. destruct (split_lines rest); reflexivity.
  - apply not_elem_of_cons in Hl as [Hb Hl].
    cbn [app split_lines]. rewrite (IH Hl).
    destruct (Byte.eqb b Pod.newline) eqn:E; [|reflexivity].
    apply Byte.byte_dec_bl in E. congruence.
Qed.

(** The decomposition of a stream into complete lines and a rest is
    the one [split_lines] computes. *)
Lemma split_lines_join (ls : list (list byte)) (rest : list byte) :
  Forall (fun l => Pod.newline ∉ l) ls -> Pod.newline ∉ rest ->
  split_lines (join_lines ls ++ rest) = (ls, rest).
Proof.
  intros Hls Hrest. induction Hls as [|l ls Hl _ IH].
  - by apply split_lines_no_newline.
  - cbn [join_lines flat_map]. rewrite <- !app_assoc. cbn [app].
    rewrite split_lines_line by done.
    fold (join_lines ls). by rewrite IH.
Qed.

Lemma split_lines_rest_no_newline (stream : list byte) :
  Pod.newline ∉ snd (split_lines stream).
Proof.
  induction stream as [|b stream IH]; [cbn; apply not_elem_of_nil|].
  cbn [split_lines]. destruct (split_lines stream) as [ls rest]. cbn in IH.
  destruct (Byte.eqb b Pod.newline) eqn:E; [done|].
  destruct ls; cbn; [|done].
  apply not_elem_of_cons. split; [|done].
  intros Heq. subst b. vm_compute in E. discriminate E.
Qed.

Lemma split_lines_lines_no_newline (stream : list byte) :
  Forall (fun l => Pod.newline ∉ l) (fst (split_lines stream)).
Proof.
  induction stream as [|b stream IH]; [constructor|].
  cbn [split_lines]. destruct (split_lines stream) as [ls rest]. cbn in IH.
  destruct (Byte.eqb b Pod.newline) eqn:E.
  - constructor; [apply not_elem_of_nil | done].
  - destruct ls as [|l ls]; [constructor|].
    inversion IH; subst. constructor; [|done].
    apply not_elem_of_cons. split; [|done].
    intros Heq. subst b. vm_compute in E. discriminate E.
Qed.

(** Every stream is its complete lines followed by its rest. *)
Lemma split_lines_spec (stream : list byte) :
  stream = join_lines (fst (split_lines stream)) ++ snd (split_lines stream).
Proof.
  induction stream as [|b stream IH]; [reflexivity|].
  cbn [split_lines]. destruct (split_lines stream) as [ls rest]. cbn in IH.
  destruct (Byte.eqb b Pod.newline) eqn:E.
  - apply Byte.byte_dec_bl in E. subst b. cbn. by f_equal.
  - destruct ls as [|l ls]; cbn in *; by f_equal.
Qed.

(** The scan of the bytes of one read, started with a partial line
    [lineBuf]: it leaves the unterminated rest in [lineBuf] and has
    appended the log lines of the lines it completed. *)
Lemma scan_bytes (data lineBuf : list byte) (chunkLines : list Pod.LogLine) :
  Pod.newline ∉ lineBuf ->
  fold_left Pod.scan_byte data (lineBuf, chunkLines) =
  (snd (split_lines (lineBuf ++ data)),
   chunkLines ++ stream_LogLines (lineBuf ++ data)).
Proof.
  revert lineBuf chunkLines.
  induction data as [|b data IH]; intros lineBuf chunkLines Hbuf.
  - rewrite app_nil_r. unfold stream_LogLines.
    rewrite split_lines_no_newline by done. cbn. by rewrite app_nil_r.
  - cbn [fold_left]. destruct (Byte.byte_eq_dec b Pod.newline) as [->|Hb].
    + rewrite scan_byte_newline, IH by apply not_elem_of_nil.
      unfold stream_LogLines. rewrite split_lines_line by done.
      cbn [fst snd flat_map app]. by rewrite app_assoc.
    + rewrite scan_byte_other by done.
      rewrite IH.
      * by rewrite <- app_assoc.
      * apply not_elem_of_app. split; [done|].
        apply not_elem_of_cons. split; [done | apply not_elem_of_nil].
Qed.

Lemma split_lines_app (a b : list byte) :
  split_lines (a ++ b) =
  (fst (split_lines a) ++ fst (split_lines (snd (split_lines a) ++ b)),
   snd (split_lines (snd (split_lines a) ++ b))).
Proof.
  rewrite (split_lines_spec a) at 1.
  rewrite <- app_assoc.
  rewrite (split_lines_spec (snd (split_lines a) ++ b)) at 1.
  rewrite app_assoc. unfold join_lines. rewrite <- flat_map_app.
  apply split_lines_join.
  - apply Forall_app. split; apply split_lines_lines_no_newline.
  - apply split_lines_rest_no_newline.
Qed.

Lemma stream_LogLines_app (a b : list byte) :
  stream_LogLines (a ++ b) =
  stream_LogLines a ++ stream_LogLines (snd (split_lines a) ++ b).
Proof.
  unfold stream_LogLines. rewrite split_lines_app. cbn [fst].
  apply flat_map_app.
Qed.

(** One iteration's [if n > 0] block. *)
Lemma read_chunk_run name (data lineBuf : list byte) :
  Pod.newline ∉ lineBuf ->
  state (Pod.read_chunk name data lineBuf) = snd (split_lines (lineBuf ++ data)) ∧
  emitted (Pod.read_chunk name data lineBuf) =
    match data with
    | [] => []
    | _ => [Pod.mkContainerLogChunk name (stream_LogLines (lineBuf ++ data))]
    end.
Proof.
  intros Hbuf. destruct data as [|b data].
  - cbn. rewrite app_nil_r, split_lines_no_newline by done. done.
  - unfold Pod.read_chunk.
    rewrite bind_state, bind_emitted. cbn [get value state emitted app].
    rewrite scan_bytes by done. cbn. done.
Qed.

(** The loop: its chunks hold the log lines of the complete lines of
    the partial line it started with followed by the bytes read, and
    the partial-line buffer ends up holding the unterminated rest. *)
Lemma follow_loop_run name (reads : list Pod.ReadStep) (lineBuf : list byte) :
  Pod.newline ∉ lineBuf ->
  flat_map Pod.LogLines (emitted (Pod.follow_loop name reads lineBuf)) =
    stream_LogLines (lineBuf ++ stream_read reads) ∧
  state (Pod.follow_loop name reads lineBuf) =
    snd (split_lines (lineBuf ++ stream_read reads)).
Proof.
  revert lineBuf. induction reads as [|r reads IH]; intros lineBuf Hbuf.
  - cbn. rewrite app_nil_r. unfold stream_LogLines.
    rewrite split_lines_no_newline by done. done.
  - cbn [Pod.follow_loop]. rewrite bind_emitted, bind_state.
    destruct (read_chunk_run name (Pod.rd_data r) lineBuf Hbuf) as [Hst Hem].
    unfold stream_read. cbn [consumed flat_map].
    rewrite app_assoc, (stream_LogLines_app (lineBuf ++ Pod.rd_data r)),
      (split_lines_app (lineBuf ++ Pod.rd_data r)).
    cbn [snd]. rewrite flat_map_app, Hst, Hem.
    assert (Hchunk : flat_map Pod.LogLines
              match Pod.rd_data r with
              | [] => []
              | _ => [Pod.mkContainerLogChunk name
                        (stream_LogLines (lineBuf ++ Pod.rd_data r))]
              end = stream_LogLines (lineBuf ++ Pod.rd_data r)).
    { destruct (Pod.rd_data r) as [|b data]; cbn.
      - rewrite app_nil_r. unfold stream_LogLines.
        by rewrite split_lines_no_newline.
      - by rewrite app_nil_r. }
    rewrite Hchunk.
    set (buf' := snd (split_lines (lineBuf ++ Pod.rd_data r))).
    assert (Hbuf' : Pod.newline ∉ buf') by apply split_lines_rest_no_newline.
    assert (Hstop : ∀ o : Outcome,
               stream_LogLines (lineBuf ++ Pod.rd_data r)
               ++ flat_map Pod.LogLines (emitted (ret (S:=list byte) (O:=Pod.ContainerLogChunk) o buf')) =
               stream_LogLines (lineBuf ++ Pod.rd_data r) ++ stream_LogLines (buf' ++ [])
               ∧ state (ret (S:=list byte) (O:=Pod.ContainerLogChunk) o buf') = snd (split_lines (buf' ++ []))).
    { intros o. cbn. rewrite !app_nil_r. unfold stream_LogLines.
      rewrite (split_lines_no_newline buf') by done. cbn. by rewrite app_nil_r. }
    destruct (Pod.rd_err r) as [e|].
    + destruct (decide (e = io_EOF)); apply Hstop.
    + destruct (Pod.ctx_done r); [apply Hstop|].
      destruct (IH buf' Hbuf') as [IH1 IH2]. fold (stream_read reads).
      by rewrite IH1, IH2.
Qed.

(** [line_LogLines] read off a line written as timestamp, space,
    payload, and off a line without a space. *)
Lemma first_space_cut (ts payload : list byte) :
  space ∉ ts -> first_space (ts ++ space :: payload) = Some (ts, payload).
Proof.
  induction ts as [|b ts IH]; intros Hts; [reflexivity|].
  apply not_elem_of_cons in Hts as [Hb Hts].
  cbn [app first_space]. rewrite (IH Hts).
  destruct (Byte.eqb b space) eqn:E; [|reflexivity].
  apply Byte.byte_dec_bl in E. congruence.
Qed.

Lemma first_space_none (line : list byte) :
  first_space line = None <-> space ∉ line.
Proof.
  induction line as [|b line IH]; cbn [first_space].
  - split; [intros _; apply not_elem_of_nil | done].
  - destruct (Byte.eqb b space) eqn:E.
    + apply Byte.byte_dec_bl in E. subst b. split; [done|].
      intros H. exfalso. apply H. apply elem_of_cons. by left.
    + rewrite not_elem_of_cons. destruct (first_space line) as [[ts p]|].
      * split; [done|]. intros [_ H]. by apply IH in H.
      * split; [|done]. intros _. split; [|by apply IH].
        intros Heq. subst b. vm_compute in E. discriminate E.
Qed.

Lemma line_LogLines_cut (ts payload : list byte) :
  space ∉ ts ->
  line_LogLines (ts ++ space :: payload) =
  [Pod.mkLogLine (string_of_list_byte ts) (string_of_list_byte payload)].
Proof. intros H. unfold line_LogLines. by rewrite first_space_cut. Qed.

Lemma line_LogLines_no_space (line : list byte) :
  space ∉ line -> line_LogLines line = [].
Proof.
  intros H. unfold line_LogLines.
  by rewrite (proj2 (first_space_none line) H).
Qed.

Lemma line_LogLines_nonempty (line : list byte) :
  line_LogLines line ≠ [] <-> space ∈ line.
Proof.
  unfold line_LogLines. pose proof (first_space_none line) as H.
  destruct (first_space line) as [[ts p]|].
  - split; [|done]. intros _.
    destruct (decide (space ∈ line)) as [|Hn]; [done|].
    apply H in Hn. discriminate Hn.
  - split; [done|]. intros Hin. by apply H in Hin.
Qed.

End LogFacts.

Module FollowContainerLogs.

Import LogFraming LogFacts.

Lemma flat_map_line_LogLines_length (ls : list (list byte)) :
  1 <= length (flat_map line_LogLines ls) <-> Exists (fun l => space ∈ l) ls.
Proof.
  induction ls as [|l ls IH]; cbn [flat_map].
  - cbn. split; [lia | intros H; inversion H].
  - rewrite length_app, Exists_cons, <- IH, <- line_LogLines_nonempty.
    destruct (line_LogLines l); cbn; split; intros H.
    + right. exact H.
    + destruct H as [H|H]; [by destruct H | exact H].
    + left. discriminate.
    + lia.
Qed.

(** C6: the bytes read, taken as one stream across the reads, are cut
    into lines at every newline, the unterminated rest staying in the
    partial-line buffer; the log lines delivered are, in order, those
    of the complete lines, where a line cut at its first space gives
    the timestamp before it and the payload after it, and a complete
    line without a space gives no log line. *)
Theorem followContainerLogs_framing (name : string) (reads : list Pod.ReadStep)
    (ls : list (list byte)) (rest : list byte) :
  Forall (fun l => Pod.newline ∉ l) ls ->
  Pod.newline ∉ rest ->
  stream_read reads = join_lines ls ++ rest ->
  let run := Pod.followContainerLogs name (inr reads) in
  flat_map Pod.LogLines (emitted run) = flat_map line_LogLines ls
  ∧ state run = rest
  ∧ (∀ ts payload : list byte, space ∉ ts ->
       line_LogLines (ts ++ space :: payload) =
       [{| Pod.Timestamp := string_of_list_byte ts;
           Pod.Data := string_of_list_byte payload |}])
  ∧ (∀ line : list byte, space ∉ line -> line_LogLines line = []).
Proof.
  intros Hls Hrest Hstream run.
  destruct (follow_loop_run name reads [] (not_elem_of_nil _)) as [Hlines Hbuf].
  cbn [app] in Hlines, Hbuf. subst run. cbn [Pod.followContainerLogs].
  rewrite Hlines, Hbuf. unfold stream_LogLines.
  rewrite Hstream, split_lines_join by done.
  repeat split.
  - apply line_LogLines_cut.
  - apply line_LogLines_no_space.
Qed.

Lemma followContainerLogs_framing_witness :
  flat_map Pod.LogLines
    (emitted (Pod.followContainerLogs "app" (inr sample_reads))) =
  [ Pod.mkLogLine "2019-06-01T10:00:00Z" "started";
    Pod.mkLogLine "2019-06-01T10:00:01Z" "a b" ]
  ∧ state (Pod.followContainerLogs "app" (inr sample_reads)) = bytes "part".
Proof.
  destruct (followContainerLogs_framing "app" sample_reads
              [bytes "2019-06-01T10:00:00Z started"; bytes "nospace";
               bytes "2019-06-01T10:00:01Z a b"]
              (bytes "part")) as (Hlines & Hrest & _).
  - apply (bool_decide_unpack _). vm_compute. exact I.
  - apply (bool_decide_unpack _). vm_compute. exact I.
  - vm_compute. reflexivity.
  - split; [rewrite Hlines; vm_compute; reflexivity | exact Hrest].
Defined.

(** C4, as the code has it: a read that returns at least one byte
    delivers exactly one chunk, named after the container, whose log
    lines are those of the lines the read completes; the chunk has at
    least one line exactly when one of these lines has a space, and is
    delivered with zero lines otherwise; the unterminated rest stays in
    the partial-line buffer; a read of no byte delivers nothing. *)
Theorem read_chunk_delivery (name : string) (lineBuf data : list byte)
    (ls : list (list byte)) (rest : list byte) :
  Pod.newline ∉ lineBuf ->
  data ≠ [] ->
  Forall (fun l => Pod.newline ∉ l) ls ->
  Pod.newline ∉ rest ->
  lineBuf ++ data = join_lines ls ++ rest ->
  (∃ chunk : Pod.ContainerLogChunk,
      emitted (Pod.read_chunk name data lineBuf) = [chunk]
      ∧ Pod.ContainerName chunk = name
      ∧ Pod.LogLines chunk = flat_map line_LogLines ls
      ∧ (1 <= length (Pod.LogLines chunk) <-> Exists (fun l => space ∈ l) ls))
  ∧ state (Pod.read_chunk name data lineBuf) = rest
  ∧ emitted (Pod.read_chunk name [] lineBuf) = [].
Proof.
  intros Hbuf Hdata Hls Hrest Hsplit.
  destruct (read_chunk_run name data lineBuf Hbuf) as [Hst Hem].
  split; [|split; [|reflexivity]];
    [|by rewrite Hst, Hsplit, split_lines_join].
  destruct data as [|b data]; [done|].
  eexists. split; [exact Hem|]. cbn [Pod.ContainerName Pod.LogLines].
  unfold stream_LogLines. rewrite Hsplit, split_lines_join by done.
  cbn [fst]. repeat split; apply flat_map_line_LogLines_length.
Qed.

Lemma read_chunk_delivery_witness :
  ∃ chunk : Pod.ContainerLogChunk,
    emitted (Pod.read_chunk "app" (bytes "b c" ++ [Pod.newline] ++ bytes "d")
               (bytes "a")) = [chunk]
    ∧ Pod.LogLines chunk = [Pod.mkLogLine "ab" "c"].
Proof.
  destruct (read_chunk_delivery "app" (bytes "a")
              (bytes "b c" ++ [Pod.newline] ++ bytes "d")
              [bytes "ab c"] (bytes "d")) as [(chunk & Hem & _ & Hlines & _) _].
  - apply (bool_decide_unpack _). vm_compute. exact I.
  - discriminate.
  - apply (bool_decide_unpack _). vm_compute. exact I.
  - apply (bool_decide_unpack _). vm_compute. exact I.
  - vm_compute. reflexivity.
  - exists chunk. split; [exact Hem|]. rewrite Hlines. vm_compute. reflexivity.
Defined.

(** C4 fails as stated: a read whose bytes hold no newline, and a read
    that completes only a line without a space, each deliver a chunk
    with zero lines. *)
Lemma followContainerLogs_delivers_empty_chunk :
  ¬ every_chunk_has_a_line
      (emitted (Pod.followContainerLogs "app"
                  (inr [Pod.mkReadStep (bytes "no newline yet") None false])))
  ∧ ¬ every_chunk_has_a_line
      (emitted (Pod.followContainerLogs "app"
                  (inr [Pod.mkReadStep (bytes "nospace" ++ [Pod.newline])
                          None false]))).
Proof.
  split; intros H; vm_compute in H; inversion H as [|c cs Hlen _];
    subst; inversion Hlen.
Qed.

End FollowContainerLogs.

(* ===================================================================== *)
(** * Properties: the pod tracker                                         *)
(* ===================================================================== *)

Module PodFacts.

Import PodRules.

(** Unfolds the monad operations of a run on a given state. *)
Ltac run_monad :=
  unfold bind, ret, get, modify, send; cbn [value state emitted].

Section Range.

Context {S O A : Type}.

Lemma range_emitted (f : A -> list O) (body : A -> M S O unit) :
  (∀ x s, emitted (body x s) = f x) ->
  ∀ xs s, emitted (Pod.range xs body s) = flat_map f xs.
Proof.
  intros Hbody xs. induction xs as [|x xs IH]; intros s; [reflexivity|].
  cbn [Pod.range flat_map]. rewrite bind_emitted, Hbody, IH. reflexivity.
Qed.

Lemma range_preserves {B} (proj : S -> B) (body : A -> M S O unit) :
  (∀ x s, proj (state (body x s)) = proj s) ->
  ∀ xs s, proj (state (Pod.range xs body s)) = proj s.
Proof.
  intros Hbody xs. induction xs as [|x xs IH]; intros s; [reflexivity|].
  cbn [Pod.range]. rewrite bind_state, IH, Hbody. reflexivity.
Qed.

End Range.

Lemma error_reason_reported (reason : string) :
  Pod.error_reason reason = true <-> reason ∈ reported_reasons.
Proof.
  unfold Pod.error_reason, reported_reasons.
  rewrite !orb_true_iff, !String.eqb_eq, !elem_of_cons, elem_of_nil.
  tauto.
Qed.

Lemma handleContainerStatus_emitted cs p :
  emitted (Pod.handleContainerStatus cs p) = waiting_errors cs.
Proof.
  unfold Pod.handleContainerStatus, waiting_errors.
  pose proof (error_reason_reported) as Hr.
  destruct (corev1.Waiting (corev1.State cs)) as [w|];
    destruct (corev1.Running (corev1.State cs));
    destruct (corev1.Terminated (corev1.State cs));
    try (run_monad; reflexivity);
    specialize (Hr (corev1.Reason w));
    destruct (Pod.error_reason (corev1.Reason w));
    destruct (decide (corev1.Reason w ∈ reported_reasons)) as [Hin|Hout];
    try (run_monad; reflexivity);
    try (exfalso; apply Hout, Hr; reflexivity);
    try (apply Hr in Hin; discriminate Hin).
Qed.

Lemma handleContainerStatus_tracked cs p :
  Pod.TrackedContainers (state (Pod.handleContainerStatus cs p)) =
  Pod.TrackedContainers p.
Proof.
  unfold Pod.handleContainerStatus.
  destruct (corev1.Waiting (corev1.State cs)) as [w|];
    destruct (corev1.Running (corev1.State cs));
    destruct (corev1.Terminated (corev1.State cs));
    try destruct (Pod.error_reason (corev1.Reason w));
    run_monad; reflexivity.
Qed.

Lemma handleContainersState_run object p :
  value (Pod.handleContainersState object p) = None
  ∧ emitted (Pod.handleContainersState object p) =
      flat_map waiting_errors (all_statuses object)
  ∧ Pod.TrackedContainers (state (Pod.handleContainersState object p)) =
      Pod.TrackedContainers p.
Proof.
  unfold Pod.handleContainersState. fold (all_statuses object).
  rewrite bind_value, bind_emitted, bind_state. cbn [ret value state emitted].
  rewrite app_nil_r. repeat split.
  - apply range_emitted. apply handleContainerStatus_emitted.
  - apply (range_preserves Pod.TrackedContainers).
    apply handleContainerStatus_tracked.
Qed.

Lemma completion_signals_app a b :
  completion_signals (a ++ b) = completion_signals a ++ completion_signals b.
Proof. apply List.filter_app. Qed.

Lemma completion_signals_waiting_errors statuses :
  completion_signals (flat_map waiting_errors statuses) = [].
Proof.
  induction statuses as [|cs statuses IH]; [reflexivity|].
  cbn [flat_map]. rewrite completion_signals_app, IH, app_nil_r.
  unfold waiting_errors. destruct (corev1.Waiting (corev1.State cs)); [|reflexivity].
  destruct (decide _); reflexivity.
Qed.

Lemma completion_signals_GoTrackContainer names :
  completion_signals (map Pod.GoTrackContainer names) = [].
Proof. induction names as [|n names IH]; [reflexivity | exact IH]. Qed.

Lemma handlePodState_run object p :
  value (Pod.handlePodState object p) =
    (snd (completion_of (Pod.TrackedContainers p) object), None)
  ∧ completion_signals (emitted (Pod.handlePodState object p)) =
    fst (completion_of (Pod.TrackedContainers p) object).
Proof.
  unfold Pod.handlePodState.
  destruct (handleContainersState_run object p) as (Hv & He & Ht).
  rewrite bind_value, bind_emitted, Hv, He, completion_signals_app,
    completion_signals_waiting_errors.
  cbn [app]. rewrite bind_value, bind_emitted. cbn [get value state emitted app].
  rewrite Ht. unfold completion_of.
  destruct (Pod.TrackedContainers p) as [|c tracked]; cbn [length Nat.eqb].
  - destruct (String.eqb _ corev1.PodSucceeded); [split; reflexivity|].
    destruct (String.eqb _ corev1.PodFailed); split; reflexivity.
  - split; reflexivity.
Qed.

Lemma handleAndCheck_run object p :
  value (Pod.handleAndCheck object p) =
    (if snd (completion_of (Pod.TrackedContainers p) object)
     then Return None else Continue)
  ∧ completion_signals (emitted (Pod.handleAndCheck object p)) =
    fst (completion_of (Pod.TrackedContainers p) object).
Proof.
  unfold Pod.handleAndCheck.
  destruct (handlePodState_run object p) as [Hv He].
  rewrite bind_value, bind_emitted, completion_signals_app, Hv, He.
  cbn [fst snd].
  destruct (snd (completion_of (Pod.TrackedContainers p) object));
    cbn; by rewrite app_nil_r.
Qed.

Lemma track_names_run (names : list string) p :
  let r := Pod.range names (fun containerName =>
             modify (Pod.set_ContainerTrackerState containerName Pod.Initial) ;;;
             modify (fun p => Pod.set_TrackedContainers
                                (Pod.TrackedContainers p ++ [containerName]) p) ;;;
             send (Pod.GoTrackContainer containerName)) p in
  Pod.TrackedContainers (state r) = Pod.TrackedContainers p ++ names
  ∧ emitted r = map Pod.GoTrackContainer names.
Proof.
  revert p. induction names as [|n names IH]; intros p.
  - cbn. by rewrite app_nil_r.
  - cbn [Pod.range]. cbv zeta. rewrite bind_state, bind_emitted.
    destruct (IH (state ((modify (Pod.set_ContainerTrackerState n Pod.Initial) ;;;
                   modify (fun p => Pod.set_TrackedContainers
                                      (Pod.TrackedContainers p ++ [n]) p) ;;;
                   send (Pod.GoTrackContainer n)) p))) as [IHt IHe].
    cbv zeta in IHt, IHe. rewrite IHt, IHe. run_monad. cbn.
    by rewrite <- app_assoc.
Qed.

Lemma runContainersTrackers_run kubeGetPod p manifest :
  kubeGetPod (Pod.Namespace p) (Pod.ResourceName p) = inr manifest ->
  let r := Pod.runContainersTrackers kubeGetPod p in
  value r = None
  ∧ Pod.TrackedContainers (state r) = Pod.TrackedContainers p ++ manifest_names manifest
  ∧ completion_signals (emitted r) = [].
Proof.
  intros Hget. unfold Pod.runContainersTrackers.
  cbv zeta. rewrite bind_value, bind_state, bind_emitted.
  cbn [get value state emitted app]. rewrite Hget.
  rewrite bind_value, bind_state, bind_emitted. cbn [ret value state emitted].
  fold (manifest_names manifest).
  destruct (track_names_run (manifest_names manifest) p) as [Ht He].
  cbv zeta in Ht, He. rewrite Ht, He, app_nil_r.
  repeat split. apply completion_signals_GoTrackContainer.
Qed.

End PodFacts.

Module PodTrackerClaims.

Import PodRules PodFacts.

(** C9: handling a pod snapshot emits, for its container statuses taken
    in order (init containers first), one container error for each
    status that is waiting with reason ImagePullBackOff, ErrImagePull or
    CrashLoopBackOff, carrying the container's name and the message
    made of the reason, a colon, a space and the waiting detail; a
    waiting status with another reason emits none. *)
Theorem handleContainersState_reports_waiting
    (object : corev1.Pod) (p : Pod.PodTracker) :
  emitted (Pod.handleContainersState object p) =
    flat_map waiting_errors (all_statuses object)
  ∧ (∀ (cs : corev1.ContainerStatus) (w : corev1.ContainerStateWaiting),
       corev1.Waiting (corev1.State cs) = Some w ->
       (corev1.Reason w ∈ ["ImagePullBackOff"; "ErrImagePull"; "CrashLoopBackOff"] ->
        emitted (Pod.handleContainerStatus cs p) =
        [Pod.SendContainerError
           {| Pod.CEContainerName := corev1.Name cs;
              Pod.Message := corev1.Reason w +:+ ": " +:+ corev1.Message w |}])
       ∧ (corev1.Reason w ∉ ["ImagePullBackOff"; "ErrImagePull"; "CrashLoopBackOff"] ->
          emitted (Pod.handleContainerStatus cs p) = [])).
Proof.
  split.
  - apply handleContainersState_run.
  - intros cs w Hw. rewrite handleContainerStatus_emitted.
    unfold waiting_errors. rewrite Hw. fold reported_reasons.
    split; intros Hr; destruct (decide _) as [Hin|Hout]; try done.
Qed.

Lemma handleContainersState_reports_waiting_witness :
  emitted (Pod.handleContainersState
             (a_pod "Pending"
                [a_status "c" (corev1.mkContainerState
                                 (Some (corev1.mkWaiting "ImagePullBackOff" "back-off"))
                                 None None);
                 a_status "d" (corev1.mkContainerState
                                 (Some (corev1.mkWaiting "ContainerCreating" ""))
                                 None None)])
             (Pod.NewPodTracker "p1" "default")) =
  [Pod.SendContainerError
     {| Pod.CEContainerName := "c"; Pod.Message := "ImagePullBackOff: back-off" |}].
Proof.
  destruct (handleContainersState_reports_waiting
              (a_pod "Pending"
                [a_status "c" (corev1.mkContainerState
                                 (Some (corev1.mkWaiting "ImagePullBackOff" "back-off"))
                                 None None);
                 a_status "d" (corev1.mkContainerState
                                 (Some (corev1.mkWaiting "ContainerCreating" ""))
                                 None None)])
              (Pod.NewPodTracker "p1" "default")) as [Hall _].
  rewrite Hall. vm_compute. reflexivity.
Defined.

Lemma Track_select_handled kubeGetPod msg p tracked object :
  snapshot_handled kubeGetPod msg p = Some (tracked, object) ->
  value (Pod.Track_select kubeGetPod msg p) =
    (if snd (completion_of tracked object) then Return None else Continue)
  ∧ completion_signals (emitted (Pod.Track_select kubeGetPod msg p)) =
    fst (completion_of tracked object).
Proof.
  destruct msg as [name|added|modified| | |]; cbn [snapshot_handled]; try discriminate.
  - destruct (Pod.lastObject p) as [last|] eqn:Hlast; [|discriminate].
    intros [= <- <-]. cbn [Pod.Track_select].
    rewrite !bind_value, !bind_emitted.
    cbn [modify get value state emitted app Pod.set_TrackedContainers Pod.lastObject].
    rewrite Hlast. apply handleAndCheck_run.
  - cbn [Pod.Track_select].
    rewrite !bind_value, !bind_emitted.
    cbn [modify get value state emitted app Pod.set_lastObject Pod.State].
    destruct (Pod.State p) eqn:Hstate.
    + destruct (kubeGetPod (Pod.Namespace p) (Pod.ResourceName p))
        as [err|manifest] eqn:Hget; [discriminate|].
      intros [= <- <-].
      rewrite !bind_value, !bind_state, !bind_emitted.
      cbn [modify send value state emitted app].
      set (p1 := Pod.set_State Pod.ResourceAdded _).
      destruct (runContainersTrackers_run kubeGetPod p1 manifest Hget) as (Hv & Ht & He).
      cbv zeta in Hv, Ht, He. rewrite Hv.
      destruct (handleAndCheck_run added (state (Pod.runContainersTrackers kubeGetPod p1)))
        as [Hv' He'].
      rewrite Hv'. change (Pod.SendAdded :: ?l) with ([Pod.SendAdded] ++ l).
      rewrite !completion_signals_app, He, He', Ht. cbn. done.
    + intros [= <- <-]. cbn [ret value state emitted app].
      exact (handleAndCheck_run added (Pod.set_lastObject (Some added) p)).
    + intros [= <- <-]. cbn [ret value state emitted app].
      exact (handleAndCheck_run added (Pod.set_lastObject (Some added) p)).
    + intros [= <- <-]. cbn [ret value state emitted app].
      exact (handleAndCheck_run added (Pod.set_lastObject (Some added) p)).
    + intros [= <- <-]. cbn [ret value state emitted app].
      exact (handleAndCheck_run added (Pod.set_lastObject (Some added) p)).
  - intros [= <- <-]. cbn [Pod.Track_select].
    rewrite !bind_value, !bind_emitted.
    cbn [modify value state emitted app].
    exact (handleAndCheck_run modified (Pod.set_lastObject (Some modified) p)).
Qed.

(** C7: whenever a [containerDone], [Added] or [Modified] message makes
    the tracker handle a pod snapshot: with no tracked container and
    phase Succeeded it emits Succeeded and Track returns nil; with no
    tracked container and phase Failed it emits Failed and Track
    returns nil; with a tracked container left, or another phase, it
    emits neither and the loop goes on with the next message. *)
Theorem Track_completion_rule
    (kubeGetPod : string -> string -> error + corev1.Pod)
    (msg : Pod.Msg) (p : Pod.PodTracker)
    (tracked : list string) (object : corev1.Pod) (rest : list Pod.Msg) :
  snapshot_handled kubeGetPod msg p = Some (tracked, object) ->
  let body := Pod.Track_select kubeGetPod in
  let step := body msg p in
  let loop := select_loop body (msg :: rest) p in
  (tracked = [] ->
   corev1.Phase (corev1.Status object) = corev1.PodSucceeded ->
   completion_signals (emitted step) = [Pod.SendSucceeded]
   ∧ value loop = Returned None ∧ emitted loop = emitted step)
  ∧ (tracked = [] ->
     corev1.Phase (corev1.Status object) = corev1.PodFailed ->
     completion_signals (emitted step) = [Pod.SendFailed]
     ∧ value loop = Returned None ∧ emitted loop = emitted step)
  ∧ (tracked ≠ []
     ∨ (corev1.Phase (corev1.Status object) ≠ corev1.PodSucceeded
        ∧ corev1.Phase (corev1.Status object) ≠ corev1.PodFailed) ->
     completion_signals (emitted step) = []
     ∧ value loop = value (select_loop body rest (state step))
     ∧ emitted loop = emitted step ++ emitted (select_loop body rest (state step))).
Proof.
  intros Hsnap body step loop.
  destruct (Track_select_handled kubeGetPod msg p tracked object Hsnap) as [Hv He].
  fold body in Hv, He. fold step in Hv, He.
  assert (Hloop : ∀ f, value step = f ->
            value loop = value (match f with
                                | Continue => select_loop body rest
                                | Return e => ret (Returned e)
                                | Panic => ret Panicked
                                end (state step))
            ∧ emitted loop = emitted step ++ emitted (match f with
                                | Continue => select_loop body rest
                                | Return e => ret (Returned e)
                                | Panic => ret Panicked
                                end (state step))).
  { intros f <-. subst loop. cbn [select_loop].
    rewrite bind_value, bind_emitted. done. }
  assert (Hdone : snd (completion_of tracked object) = true ->
            value loop = Returned None ∧ emitted loop = emitted step).
  { intros Hc. destruct (Hloop (Return None)) as [Hlv Hle].
    - rewrite Hv, Hc. reflexivity.
    - split; [exact Hlv|]. rewrite Hle. cbn. apply app_nil_r. }
  split; [|split].
  - intros -> Hphase.
    assert (Hc : completion_of [] object = ([Pod.SendSucceeded], true)).
    { unfold completion_of. by rewrite Hphase. }
    rewrite He, Hc. split; [reflexivity|]. apply Hdone. by rewrite Hc.
  - intros -> Hphase.
    assert (Hc : completion_of [] object = ([Pod.SendFailed], true)).
    { unfold completion_of. by rewrite Hphase. }
    rewrite He, Hc. split; [reflexivity|]. apply Hdone. by rewrite Hc.
  - intros Hnot.
    assert (Hc : completion_of tracked object = ([], false)).
    { unfold completion_of. destruct tracked as [|c tracked]; [|reflexivity].
      destruct Hnot as [Ht|[Hs Hf]]; [done|].
      apply String.eqb_neq in Hs, Hf. by rewrite Hs, Hf. }
    rewrite He, Hc. split; [reflexivity|].
    apply (Hloop Continue). by rewrite Hv, Hc.
Qed.

(** A pod whose manifest has no container and whose phase is already
    Succeeded when it is first seen. *)
Lemma Track_completion_rule_witness :
  completion_signals
    (emitted (Pod.Track_select (fun _ _ => inr (no_containers_pod "Succeeded"))
                (Pod.objectAdded (no_containers_pod "Succeeded"))
                (Pod.NewPodTracker "p1" "default"))) = [Pod.SendSucceeded]
  ∧ value (select_loop (Pod.Track_select (fun _ _ => inr (no_containers_pod "Succeeded")))
             [Pod.objectAdded (no_containers_pod "Succeeded"); Pod.ContextDone]
             (Pod.NewPodTracker "p1" "default")) = Returned None.
Proof.
  destruct (Track_completion_rule
              (fun _ _ => inr (no_containers_pod "Succeeded"))
              (Pod.objectAdded (no_containers_pod "Succeeded"))
              (Pod.NewPodTracker "p1" "default")
              [] (no_containers_pod "Succeeded") [Pod.ContextDone])
    as [Hsucc _].
  - vm_compute. reflexivity.
  - destruct (Hsucc eq_refl eq_refl) as (Hsig & Hret & _).
    split; [exact Hsig | exact Hret].
Defined.

(** C1, evaluated on a feed whose callbacks all return [StopTrack]:
    for [Added] and [ContainerLogChunk] TrackPod returns nil; for
    [Succeeded], [Failed] and [ContainerError], whose nil test comes
    first, it returns the [StopTrack] error itself. *)
Theorem TrackPod_StopTrack :
  value (Pod.TrackPod stop_feed [Pod.recvAdded] tt) = Returned None
  ∧ value (Pod.TrackPod stop_feed
             [Pod.recvContainerLogChunk (Pod.mkContainerLogChunk "c" [])] tt)
    = Returned None
  ∧ value (Pod.TrackPod stop_feed [Pod.recvSucceeded] tt) = Returned (Some StopTrack)
  ∧ value (Pod.TrackPod stop_feed [Pod.recvFailed] tt) = Returned (Some StopTrack)
  ∧ value (Pod.TrackPod stop_feed
             [Pod.recvContainerError (Pod.mkContainerError "ErrImagePull: x" "c")] tt)
    = Returned (Some StopTrack).
Proof.
  repeat split; vm_compute; reflexivity.
Qed.

(** The part of C1 that holds on every path: an error other than
    [StopTrack] returned by a callback is what TrackPod returns. *)
Lemma TrackPod_callback_error {F} (feed : Pod.PodFeed F) (f : F)
    (msg : Pod.FeedMsg) (rest : list Pod.FeedMsg) (e : error) :
  e ≠ StopTrack ->
  match msg with
  | Pod.recvContainerLogChunk chunk => fst (Pod.feedContainerLogChunk feed chunk f) = Some e
  | Pod.recvContainerError ce => fst (Pod.feedContainerError feed ce f) = Some e
  | Pod.recvAdded => fst (Pod.Added feed f) = Some e
  | Pod.recvSucceeded => fst (Pod.Succeeded feed f) = Some e
  | Pod.recvFailed => fst (Pod.Failed feed f) = Some e
  | Pod.errorChan err => err = e
  | Pod.doneChan => False
  end ->
  value (Pod.TrackPod feed (msg :: rest) f) = Returned (Some e).
Proof.
  intros Hne Hcb. unfold Pod.TrackPod. cbn [select_loop].
  rewrite bind_value.
  assert (Hstep : value (Pod.TrackPod_select feed msg f) = Return (Some e)).
  { destruct msg; cbn [Pod.TrackPod_select]; try done;
      try (rewrite !bind_value; cbn [send value state Pod.call]; rewrite Hcb;
           repeat (case_decide; try congruence); reflexivity).
    by subst. }
  rewrite Hstep. reflexivity.
Qed.

End PodTrackerClaims.

(* ===================================================================== *)
(** * Properties: the deployment tracker                                  *)
(* ===================================================================== *)

Module DeploymentFacts.

Import ControllerRules.
Import PodFacts.

(** Evaluates the monad operations and the tracker's setters and
    fields on a tracker given by its fields. *)
Ltac eval_tracker :=
  cbv [bind ret get modify send value state emitted fst snd
       Deployment.sendStatusReport Deployment.runReplicaSetsInformer
       Deployment.runPodsInformer Deployment.runEventsInformer
       Deployment.runPodTracker Deployment.runDeploymentInformer
       Deployment.set_CurrentReady Deployment.set_State
       Deployment.set_FinalDeploymentStatus Deployment.set_knownReplicaSets
       Deployment.set_lastObject Deployment.set_readyStatus
       Deployment.set_failedReason Deployment.set_podStatuses
       Deployment.set_TrackedPods
       Deployment.Namespace Deployment.ResourceName Deployment.LogsFromTime
       Deployment.CurrentReady Deployment.State Deployment.FinalDeploymentStatus
       Deployment.knownReplicaSets Deployment.lastObject Deployment.readyStatus
       Deployment.failedReason Deployment.podStatuses Deployment.TrackedPods
       previous_ready reference_object];
  cbn [app fst snd].

Ltac eval_tracker_in H :=
  cbv [fst snd
       Deployment.Namespace Deployment.ResourceName Deployment.LogsFromTime
       Deployment.CurrentReady Deployment.State Deployment.FinalDeploymentStatus
       Deployment.knownReplicaSets Deployment.lastObject Deployment.readyStatus
       Deployment.failedReason Deployment.podStatuses Deployment.TrackedPods] in H.

Lemma handleDeploymentState_run deps object d :
  listing_ok deps object ->
  let r := Deployment.handleDeploymentState deps object d in
  let rs := Deployment.DeploymentReadyStatus deps (reference_object object d)
              (appsv1.Status object) in
  value r = (negb (previous_ready d) && tracker.IsReady rs, None)
  ∧ emitted r =
      [Deployment.SendStatusReport
         (Deployment.NewDeploymentStatus rs
            (String.eqb (Deployment.State d) "Failed") (Deployment.failedReason d)
            (appsv1.Spec object) (appsv1.Status object) (Deployment.podStatuses d))]
  ∧ Deployment.State (state r) = Deployment.State d
  ∧ Deployment.lastObject (state r) = Some object
  ∧ Deployment.CurrentReady (state r) = tracker.IsReady rs
  ∧ Deployment.TrackedPods (state r) = Deployment.TrackedPods d.
Proof.
  intros Hdebug. unfold listing_ok in Hdebug.
  unfold Deployment.handleDeploymentState. rewrite Hdebug.
  destruct d as [ns name logs cur st fin known [last|] rs fr ps tp]; eval_tracker.
  - destruct (negb cur && _); eval_tracker; done.
  - destruct (negb false && _); eval_tracker; done.
Qed.

Lemma Track_select_resourceAdded deps object d :
  listing_ok deps object ->
  let r := Deployment.Track_select deps (Deployment.resourceAdded object) d in
  let h := Deployment.handleDeploymentState deps object d in
  value r = Continue
  ∧ emitted r =
      emitted h
      ++ (if String.eqb (Deployment.State d) "" then [Deployment.SendAdded (fst (value h))]
          else [])
      ++ [Deployment.GoReplicaSetsInformer object; Deployment.GoPodsInformer object;
          Deployment.GoEventsInformer object]
  ∧ Deployment.State (state r) =
      (if String.eqb (Deployment.State d) "" then "Started" else Deployment.State d)
  ∧ Deployment.TrackedPods (state r) = Deployment.TrackedPods d.
Proof.
  intros Hdebug r h. subst r h. unfold listing_ok in Hdebug.
  cbn [Deployment.Track_select]. unfold Deployment.handleDeploymentState.
  rewrite Hdebug.
  destruct d as [ns name logs cur st fin known [last|] rs fr ps tp]; eval_tracker.
  - destruct (negb cur && _); eval_tracker;
      destruct (String.eqb st ""); eval_tracker; done.
  - destruct (negb false && _); eval_tracker;
      destruct (String.eqb st ""); eval_tracker; done.
Qed.

Lemma Track_select_resourceModified deps object d :
  listing_ok deps object ->
  let r := Deployment.Track_select deps (Deployment.resourceModified object) d in
  let h := Deployment.handleDeploymentState deps object d in
  value r = Continue
  ∧ emitted r = emitted h ++ (if fst (value h) then [Deployment.SendReady] else [])
  ∧ state r = state h.
Proof.
  intros Hdebug r h. subst r h. unfold listing_ok in Hdebug.
  cbn [Deployment.Track_select]. unfold Deployment.handleDeploymentState.
  rewrite Hdebug.
  destruct d as [ns name logs cur st fin known [last|] rs fr ps tp]; eval_tracker.
  - destruct (negb cur && _); eval_tracker; done.
  - destruct (negb false && _); eval_tracker; done.
Qed.

Lemma Track_select_listing_error deps object d err :
  (if Deployment.debug deps then Deployment.ListEventsForObject deps object else None)
  = Some err ->
  Deployment.Track_select deps (Deployment.resourceAdded object) d
    = mkRun (Return (Some err)) d []
  ∧ Deployment.Track_select deps (Deployment.resourceModified object) d
    = mkRun (Return (Some err)) d [].
Proof.
  intros Hdebug. cbn [Deployment.Track_select].
  unfold Deployment.handleDeploymentState. rewrite Hdebug.
  destruct d; eval_tracker. done.
Qed.

(** One iteration never gives back the budget of [Added] events: what
    it emits and what it leaves available is within what it found. *)
Lemma Track_select_added_budget deps msg d :
  let r := Deployment.Track_select deps msg d in
  added_count (deployment_feed (emitted r))
  + added_budget (Deployment.State (state r))
  <= added_budget (Deployment.State d).
Proof.
  intros r. subst r.
  destruct msg as [object|object|object|reason|rs|rs|rs|pod|podName|reported|
                   rsChunk|rsPodError| |err].
  - destruct (if Deployment.debug deps then Deployment.ListEventsForObject deps object
              else None) as [err|] eqn:Hdebug.
    + rewrite (proj1 (Track_select_listing_error _ _ d _ Hdebug)). cbn. lia.
    + destruct (Track_select_resourceAdded deps object d Hdebug) as (_ & He & Hst & _).
      destruct (handleDeploymentState_run deps object d Hdebug) as (_ & Hhe & _).
      rewrite He, Hst, Hhe. unfold added_budget.
      destruct (String.eqb (Deployment.State d) "") eqn:E; cbn; rewrite ?E; lia.
  - destruct (if Deployment.debug deps then Deployment.ListEventsForObject deps object
              else None) as [err|] eqn:Hdebug.
    + rewrite (proj2 (Track_select_listing_error _ _ d _ Hdebug)). cbn. lia.
    + destruct (Track_select_resourceModified deps object d Hdebug) as (_ & He & Hst).
      destruct (handleDeploymentState_run deps object d Hdebug) as (_ & Hhe & Hhst & _).
      rewrite He, Hst, Hhe, Hhst.
      destruct (fst _); cbn; lia.
  - destruct d; cbn [Deployment.Track_select]; eval_tracker. cbn. lia.
  - destruct d as [ns name logs cur st fin known [last|] rs fr ps tp];
      cbn [Deployment.Track_select]; eval_tracker; cbn; lia.
  - destruct d; cbn [Deployment.Track_select]; eval_tracker.
    destruct (Deployment.IsReplicaSetNew _ _ _ _) as [isNew [e|]]; cbn; lia.
  - destruct d; cbn [Deployment.Track_select]; eval_tracker. cbn. lia.
  - destruct d; cbn [Deployment.Track_select]; eval_tracker. cbn. lia.
  - destruct d; cbn [Deployment.Track_select]; eval_tracker.
    destruct (Deployment.IsReplicaSetNew _ _ _ _) as [isNew [e|]]; cbn; lia.
  - destruct d; cbn [Deployment.Track_select]; eval_tracker. cbn. lia.
  - destruct d as [ns name logs cur st fin known [last|] rs fr ps tp];
      cbn [Deployment.Track_select]; eval_tracker; cbn; lia.
  - destruct d; cbn [Deployment.Track_select]; eval_tracker.
    destruct (Deployment.IsReplicaSetNew _ _ _ _) as [isNew [e|]]; cbn; lia.
  - destruct d; cbn [Deployment.Track_select]; eval_tracker.
    destruct (Deployment.IsReplicaSetNew _ _ _ _) as [isNew [e|]]; cbn; lia.
  - cbn. lia.
  - cbn. lia.
Qed.

(** The lifecycle events of one iteration. *)
Lemma Track_select_feed deps msg d :
  deployment_feed (emitted (Deployment.Track_select deps msg d)) =
  deployment_step_feed deps msg d.
Proof.
  destruct msg as [object|object|object|reason|rs|rs|rs|pod|podName|reported|
                   rsChunk|rsPodError| |err]; cbn [deployment_step_feed].
  - destruct (if Deployment.debug deps then Deployment.ListEventsForObject deps object
              else None) as [err|] eqn:Hdebug.
    + by rewrite (proj1 (Track_select_listing_error _ _ d _ Hdebug)).
    + destruct (Track_select_resourceAdded deps object d Hdebug) as (_ & He & _).
      destruct (handleDeploymentState_run deps object d Hdebug) as (Hhv & Hhe & _).
      rewrite He, Hhe, Hhv. unfold deployment_ready_edge.
      destruct (String.eqb (Deployment.State d) ""); reflexivity.
  - destruct (if Deployment.debug deps then Deployment.ListEventsForObject deps object
              else None) as [err|] eqn:Hdebug.
    + by rewrite (proj2 (Track_select_listing_error _ _ d _ Hdebug)).
    + destruct (Track_select_resourceModified deps object d Hdebug) as (_ & He & _).
      destruct (handleDeploymentState_run deps object d Hdebug) as (Hhv & Hhe & _).
      rewrite He, Hhe, Hhv. unfold deployment_ready_edge. cbn [fst].
      destruct (negb _ && _); reflexivity.
  - destruct d; cbn [Deployment.Track_select]; eval_tracker. reflexivity.
  - destruct d as [ns name logs cur st fin known [last|] rs fr ps tp];
      cbn [Deployment.Track_select]; eval_tracker; reflexivity.
  - destruct d; cbn [Deployment.Track_select]; eval_tracker.
    destruct (Deployment.IsReplicaSetNew _ _ _ _) as [isNew [e|]]; reflexivity.
  - destruct d; cbn [Deployment.Track_select]; eval_tracker. reflexivity.
  - destruct d; cbn [Deployment.Track_select]; eval_tracker. reflexivity.
  - destruct d; cbn [Deployment.Track_select]; eval_tracker.
    destruct (Deployment.IsReplicaSetNew _ _ _ _) as [isNew [e|]]; reflexivity.
  - destruct d; cbn [Deployment.Track_select]; eval_tracker. reflexivity.
  - destruct d as [ns name logs cur st fin known [last|] rs fr ps tp];
      cbn [Deployment.Track_select]; eval_tracker; reflexivity.
  - destruct d; cbn [Deployment.Track_select]; eval_tracker.
    destruct (Deployment.IsReplicaSetNew _ _ _ _) as [isNew [e|]]; reflexivity.
  - destruct d; cbn [Deployment.Track_select]; eval_tracker.
    destruct (Deployment.IsReplicaSetNew _ _ _ _) as [isNew [e|]]; reflexivity.
  - reflexivity.
  - reflexivity.
Qed.

Lemma Track_feed deps msgs d :
  deployment_feed (emitted (Deployment.Track deps msgs d)) =
  deployment_feed (emitted (select_loop (Deployment.Track_select deps) msgs d)).
Proof. reflexivity. Qed.



End DeploymentFacts.

(* ===================================================================== *)
(** * Properties: feeds of a select loop                                  *)
(* ===================================================================== *)

Module FeedFacts.

Import ControllerRules.

Lemma added_count_app (a b : list Lifecycle) :
  added_count (a ++ b) = added_count a + added_count b.
Proof. unfold added_count. by rewrite List.filter_app, length_app. Qed.

(** A feed that starts with [Added] has it before everything else. *)
Lemma added_precedes_first (ready : bool) (feed : list Lifecycle) :
  added_precedes (LAdded ready :: feed).
Proof.
  intros before e after Hfeed He. destruct before as [|b before].
  - cbn in Hfeed. injection Hfeed as <- _. discriminate He.
  - cbn in Hfeed. injection Hfeed as <- _. exists ready. apply elem_of_cons. by left.
Qed.

Lemma added_precedes_nil : added_precedes [].
Proof. intros before e after Hfeed _. by destruct before. Qed.

Section Loop.

Context {S O Msg : Type}.
Variable body : Msg -> M S O Flow.
Variable lifecycle : O -> option Lifecycle.
Variable budget : S -> nat.

Hypothesis body_budget : ∀ m s,
  added_count (omap lifecycle (emitted (body m s))) + budget (state (body m s))
  <= budget s.

Lemma select_loop_cons m msgs s :
  emitted (select_loop body (m :: msgs) s) =
    emitted (body m s)
    ++ match value (body m s) with
       | Continue => emitted (select_loop body msgs (state (body m s)))
       | _ => []
       end
  ∧ state (select_loop body (m :: msgs) s) =
    match value (body m s) with
    | Continue => state (select_loop body msgs (state (body m s)))
    | _ => state (body m s)
    end
  ∧ value (select_loop body (m :: msgs) s) =
    match value (body m s) with
    | Continue => value (select_loop body msgs (state (body m s)))
    | Return e => Returned e
    | Panic => Panicked
    end.
Proof.
  cbn [select_loop]. rewrite bind_emitted, bind_state, bind_value.
  destruct (value (body m s)); done.
Qed.

(** Along the loop the [Added] events emitted stay within the budget
    of the state it started from. *)
Lemma select_loop_budget msgs s :
  added_count (omap lifecycle (emitted (select_loop body msgs s)))
  + budget (state (select_loop body msgs s))
  <= budget s.
Proof using body_budget.
  revert s. induction msgs as [|m msgs IH]; intros s; [cbn; lia|].
  destruct (select_loop_cons m msgs s) as (He & Hs & _). rewrite He, Hs.
  rewrite omap_app, added_count_app.
  pose proof (body_budget m s) as Hstep.
  destruct (value (body m s)).
  - pose proof (IH (state (body m s))). lia.
  - cbn. lia.
  - cbn. lia.
Qed.

End Loop.

End FeedFacts.

(* ===================================================================== *)
(** * Properties: the daemonset tracker                                   *)
(* ===================================================================== *)

Module DaemonSetFacts.

Import ControllerRules.
Import PodFacts.

Lemma handleDaemonSetStatus_run deps object d :
  DaemonSet.handleDaemonSetStatus deps object d = mkRun (rollout deps object) d [].
Proof.
  unfold DaemonSet.handleDaemonSetStatus, rollout.
  destruct (DaemonSet.DaemonSetRolloutStatus deps object) as [[msg ready] err].
  destruct (if DaemonSet.debug deps then _ else _); reflexivity.
Qed.

(** Evaluates the monad operations and the tracker's setters and
    fields on a tracker given by its fields. *)
Ltac eval_tracker :=
  cbv [bind ret get modify send value state emitted fst snd
       DaemonSet.Track_select DaemonSet.sendStatusReport
       DaemonSet.handleDaemonSetStatus
       DaemonSet.runPodsInformer DaemonSet.runEventsInformer
       DaemonSet.runPodTracker DaemonSet.runDaemonSetInformer
       DaemonSet.set_State DaemonSet.set_lastObject DaemonSet.set_podStatuses
       DaemonSet.set_TrackedPods
       DaemonSet.Namespace DaemonSet.ResourceName DaemonSet.LogsFromTime
       DaemonSet.State DaemonSet.lastObject DaemonSet.podStatuses
       DaemonSet.TrackedPods];
  cbn [app fst snd].

(** Case analysis on what the calculator and the event lister return
    for [object], with the tracker given by its fields. *)
Ltac rollout_cases deps object d Hroll :=
  unfold DaemonSet.Track_select, DaemonSet.handleDaemonSetStatus;
  unfold rollout in Hroll;
  destruct (DaemonSet.DaemonSetRolloutStatus deps object) as [[?msg ?rdy] ?err];
  destruct (if DaemonSet.debug deps then DaemonSet.ListEventsForObject deps object
            else None);
  cbn [fst snd] in Hroll;
  destruct d as [?ns ?name ?logs ?st ?last ?ps ?tp].

Lemma ds_Track_select_resourceAdded deps object d ready :
  rollout deps object = (ready, None) ->
  let r := DaemonSet.Track_select deps (DaemonSet.resourceAdded object) d in
  value r = Continue
  ∧ emitted r =
      [DaemonSet.SendStatusReport
         (DaemonSet.NewDaemonSetStatus (appsv1.DaemonSetStatusOf object)
            (DaemonSet.podStatuses d))]
      ++ (if String.eqb (DaemonSet.State d) "" then [DaemonSet.SendAdded ready] else [])
      ++ [DaemonSet.GoPodsInformer object; DaemonSet.GoEventsInformer object]
  ∧ DaemonSet.State (state r) =
      (if String.eqb (DaemonSet.State d) "" then "Started" else DaemonSet.State d).
Proof.
  intros Hroll r. subst r. rollout_cases deps object d Hroll; [discriminate Hroll|].
  injection Hroll as -> ->. eval_tracker.
  destruct (String.eqb st ""); eval_tracker; done.
Qed.

Lemma ds_Track_select_resourceModified deps object d ready :
  rollout deps object = (ready, None) ->
  let r := DaemonSet.Track_select deps (DaemonSet.resourceModified object) d in
  value r = Continue
  ∧ emitted r =
      [DaemonSet.SendStatusReport
         (DaemonSet.NewDaemonSetStatus (appsv1.DaemonSetStatusOf object)
            (DaemonSet.podStatuses d))]
      ++ (if ready then [DaemonSet.SendReady] else [])
  ∧ state r = DaemonSet.set_lastObject (Some object) d.
Proof.
  intros Hroll r. subst r. rollout_cases deps object d Hroll; [discriminate Hroll|].
  injection Hroll as -> ->. eval_tracker.
  destruct ready; eval_tracker; done.
Qed.

Lemma ds_Track_select_error deps object d e :
  snd (rollout deps object) = Some e ->
  daemonset_feed (emitted (DaemonSet.Track_select deps (DaemonSet.resourceAdded object) d)) = []
  ∧ DaemonSet.State (state (DaemonSet.Track_select deps (DaemonSet.resourceAdded object) d))
    = DaemonSet.State d
  ∧ value (DaemonSet.Track_select deps (DaemonSet.resourceAdded object) d)
    = Return (Some e)
  ∧ DaemonSet.Track_select deps (DaemonSet.resourceModified object) d
    = mkRun (Return (Some e)) d [].
Proof.
  intros Hroll. rollout_cases deps object d Hroll;
    [injection Hroll as -> | subst err]; eval_tracker; done.
Qed.

Lemma ds_Track_select_added_budget deps msg d :
  let r := DaemonSet.Track_select deps msg d in
  added_count (daemonset_feed (emitted r))
  + added_budget (DaemonSet.State (state r))
  <= added_budget (DaemonSet.State d).
Proof.
  intros r. subst r.
  destruct msg as [object|object|object|reason|pod|podName|reported| |err].
  - destruct (rollout deps object) as [ready [e|]] eqn:Hroll.
    + destruct (ds_Track_select_error deps object d e) as (He & Hst & _);
        [by rewrite Hroll|].
      rewrite He, Hst. cbn. lia.
    + destruct (ds_Track_select_resourceAdded deps object d ready Hroll) as (_ & He & Hst).
      rewrite He, Hst. unfold added_budget.
      destruct (String.eqb (DaemonSet.State d) "") eqn:E; cbn; rewrite ?E; lia.
  - destruct (rollout deps object) as [ready [e|]] eqn:Hroll.
    + destruct (ds_Track_select_error deps object d e) as (_ & _ & _ & He);
        [by rewrite Hroll|].
      rewrite He. cbn. lia.
    + destruct (ds_Track_select_resourceModified deps object d ready Hroll) as (_ & He & Hst).
      rewrite He, Hst. destruct d; destruct ready; cbn; lia.
  - destruct d; eval_tracker. cbn. lia.
  - destruct d; eval_tracker. cbn. lia.
  - destruct d; eval_tracker. cbn. lia.
  - destruct d; eval_tracker. cbn. lia.
  - destruct d as [ns name logs st [last|] ps tp]; eval_tracker; cbn; lia.
  - cbn. lia.
  - cbn. lia.
Qed.

(** The lifecycle events of one iteration. *)
Lemma ds_Track_select_feed deps msg d :
  daemonset_feed (emitted (DaemonSet.Track_select deps msg d)) =
  daemonset_step_feed deps msg d.
Proof.
  destruct msg as [object|object|object|reason|pod|podName|reported| |err];
    cbn [daemonset_step_feed].
  - destruct (rollout deps object) as [ready [e|]] eqn:Hroll; cbn [fst snd].
    + by destruct (ds_Track_select_error deps object d e) as (He & _); [by rewrite Hroll|].
    + destruct (ds_Track_select_resourceAdded deps object d ready Hroll) as (_ & He & _).
      rewrite He. destruct (String.eqb (DaemonSet.State d) ""); reflexivity.
  - destruct (rollout deps object) as [ready [e|]] eqn:Hroll; cbn [fst snd].
    + destruct (ds_Track_select_error deps object d e) as (_ & _ & _ & He); [by rewrite Hroll|].
      by rewrite He.
    + destruct (ds_Track_select_resourceModified deps object d ready Hroll) as (_ & He & _).
      rewrite He. destruct ready; reflexivity.
  - destruct d; eval_tracker. reflexivity.
  - destruct d; eval_tracker. reflexivity.
  - destruct d; eval_tracker. reflexivity.
  - destruct d; eval_tracker. reflexivity.
  - destruct d as [ns name logs st [last|] ps tp]; eval_tracker; reflexivity.
  - reflexivity.
  - reflexivity.
Qed.

Lemma ds_Track_feed deps msgs d :
  daemonset_feed (emitted (DaemonSet.Track deps msgs d)) =
  daemonset_feed (emitted (select_loop (DaemonSet.Track_select deps) msgs d)).
Proof. reflexivity. Qed.

End DaemonSetFacts.

(* ===================================================================== *)
(** * Properties: the controller trackers' feeds                          *)
(* ===================================================================== *)

Module ControllerClaims.

Import ControllerRules FeedFacts.

(** C5, as the code has it: on a failure reason the deployment tracker
    sets its state to Failed, records the reason, emits a StatusReport
    (marked failed, with the reason) when it holds a last object, and
    then emits Failed(reason); the daemonset tracker sets its state to
    Failed and emits Failed(reason), and nothing else. *)
Theorem resourceFailed_handling (deps : Deployment.Deps) (ddeps : DaemonSet.Deps)
    (reason : string) (d : Deployment.Tracker) (s : DaemonSet.Tracker) :
  let r := Deployment.Track_select deps (Deployment.resourceFailed reason) d in
  let r' := DaemonSet.Track_select ddeps (DaemonSet.resourceFailed reason) s in
  (value r = Continue
   ∧ Deployment.State (state r) = "Failed"
   ∧ Deployment.failedReason (state r) = reason
   ∧ emitted r =
       match Deployment.lastObject d with
       | Some last =>
           [Deployment.SendStatusReport
              (Deployment.NewDeploymentStatus (Deployment.readyStatus d) true reason
                 (appsv1.Spec last) (appsv1.Status last) (Deployment.podStatuses d));
            Deployment.SendFailed reason]
       | None => [Deployment.SendFailed reason]
       end)
  ∧ (value r' = Continue
     ∧ state r' = DaemonSet.set_State "Failed" s
     ∧ emitted r' = [DaemonSet.SendFailed reason]).
Proof.
  intros r r'. subst r r'. split.
  - destruct d as [ns name logs cur st fin known [last|] rs fr ps tp];
      cbn [Deployment.Track_select]; DeploymentFacts.eval_tracker; done.
  - destruct s as [ns name logs st last ps tp]. DaemonSetFacts.eval_tracker. done.
Qed.

(** C5 fails as stated: the daemonset tracker, holding the object it
    was started on, emits no StatusReport on a failure reason; neither
    does the deployment tracker once its object has been deleted. *)
Lemma resourceFailed_without_StatusReport :
  emitted (DaemonSet.Track_select sample_ds_deps (DaemonSet.resourceFailed "boom")
             started_ds_tracker) = [DaemonSet.SendFailed "boom"]
  ∧ DaemonSet.lastObject started_ds_tracker = Some (a_daemonset 0)
  ∧ emitted (Deployment.Track_select sample_deps (Deployment.resourceFailed "boom")
               (state (Deployment.Track_select sample_deps
                         (Deployment.resourceDeleted (a_deployment 0)) started_tracker)))
    = [Deployment.SendFailed "boom"].
Proof.
  split; [|split]; vm_compute; reflexivity.
Qed.



Lemma added_budget_le (st : string) : added_budget st <= 1.
Proof. unfold added_budget. destruct (String.eqb st ""); lia. Qed.

(** Closes a goal whose hypothesis puts an [Added] in a feed that is
    given and holds none. *)
Ltac no_added H :=
  repeat (apply elem_of_cons in H as [H|H]; [discriminate H|]);
  by apply elem_of_nil in H.

Lemma deployment_Added_only deps msg d ready :
  LAdded ready ∈ deployment_feed (emitted (Deployment.Track_select deps msg d)) ->
  (∃ object, msg = Deployment.resourceAdded object)
  ∧ Deployment.State d = ""
  ∧ Deployment.State (state (Deployment.Track_select deps msg d)) = "Started".
Proof.
  rewrite DeploymentFacts.Track_select_feed.
  destruct msg as [object|object|object|reason|rs|rs|rs|pod|podName|reported|
                   rsChunk|rsPodError| |err]; cbn [deployment_step_feed]; intros Hin;
    try no_added Hin.
  - destruct (if Deployment.debug deps then _ else _) eqn:Hok; [no_added Hin|].
    destruct (String.eqb (Deployment.State d) "") eqn:Hst; [|no_added Hin].
    destruct (DeploymentFacts.Track_select_resourceAdded deps object d Hok)
      as (_ & _ & Hstate & _).
    rewrite Hst in Hstate. apply String.eqb_eq in Hst. eauto.
  - destruct (if Deployment.debug deps then _ else _); [no_added Hin|].
    destruct (deployment_ready_edge deps object d); no_added Hin.
Qed.

Lemma daemonset_Added_only deps msg d ready :
  LAdded ready ∈ daemonset_feed (emitted (DaemonSet.Track_select deps msg d)) ->
  (∃ object, msg = DaemonSet.resourceAdded object)
  ∧ DaemonSet.State d = ""
  ∧ DaemonSet.State (state (DaemonSet.Track_select deps msg d)) = "Started".
Proof.
  rewrite DaemonSetFacts.ds_Track_select_feed.
  destruct msg as [object|object|object|reason|pod|podName|reported| |err];
    cbn [daemonset_step_feed]; intros Hin; try no_added Hin.
  - destruct (rollout deps object) as [rdy [e|]] eqn:Hroll; cbn [fst snd] in Hin;
      [no_added Hin|].
    destruct (String.eqb (DaemonSet.State d) "") eqn:Hst; [|no_added Hin].
    destruct (DaemonSetFacts.ds_Track_select_resourceAdded deps object d rdy Hroll)
      as (_ & _ & Hstate).
    rewrite Hst in Hstate. apply String.eqb_eq in Hst. eauto.
  - destruct (snd (rollout deps object)); [no_added Hin|].
    destruct (fst (rollout deps object)); no_added Hin.
Qed.

(** C8, as the code has it: a run of either controller tracker emits
    [Added] at most once, and only on a controller [Added] message that
    finds the state empty, which it moves to Started; when that message
    is the first the loop of a new tracker dispatches, the [Added]
    precedes every [Ready] and [Failed] of the run. *)
Theorem Added_once_and_first (deps : Deployment.Deps) (ddeps : DaemonSet.Deps) :
  ((∀ msgs d,
      added_count (deployment_feed (emitted (Deployment.Track deps msgs d))) <= 1)
   ∧ (∀ msg d ready,
        LAdded ready ∈ deployment_feed (emitted (Deployment.Track_select deps msg d)) ->
        (∃ object, msg = Deployment.resourceAdded object)
        ∧ Deployment.State d = ""
        ∧ Deployment.State (state (Deployment.Track_select deps msg d)) = "Started")
   ∧ (∀ object rest name namespace logsFromTime,
        added_precedes
          (deployment_feed
             (emitted (Deployment.Track deps (Deployment.resourceAdded object :: rest)
                         (Deployment.NewTracker name namespace logsFromTime))))))
  ∧ ((∀ msgs d,
        added_count (daemonset_feed (emitted (DaemonSet.Track ddeps msgs d))) <= 1)
     ∧ (∀ msg d ready,
          LAdded ready ∈ daemonset_feed (emitted (DaemonSet.Track_select ddeps msg d)) ->
          (∃ object, msg = DaemonSet.resourceAdded object)
          ∧ DaemonSet.State d = ""
          ∧ DaemonSet.State (state (DaemonSet.Track_select ddeps msg d)) = "Started")
     ∧ (∀ object rest name namespace logsFromTime,
          added_precedes
            (daemonset_feed
               (emitted (DaemonSet.Track ddeps (DaemonSet.resourceAdded object :: rest)
                           (DaemonSet.NewTracker name namespace logsFromTime)))))).
Proof.
  split; (split; [|split]).
  - intros msgs d. rewrite DeploymentFacts.Track_feed.
    pose proof (select_loop_budget (Deployment.Track_select deps) deployment_lifecycle
                  (fun d => added_budget (Deployment.State d))
                  (DeploymentFacts.Track_select_added_budget deps) msgs d) as Hb.
    pose proof (added_budget_le (Deployment.State d)).
    cbv beta in Hb. unfold deployment_feed. lia.
  - apply deployment_Added_only.
  - intros object rest name namespace logsFromTime.
    set (d := Deployment.NewTracker name namespace logsFromTime).
    rewrite DeploymentFacts.Track_feed.
    destruct (select_loop_cons (Deployment.Track_select deps)
                (Deployment.resourceAdded object) rest d) as (He & _).
    rewrite He. unfold deployment_feed. rewrite omap_app.
    fold (deployment_feed (emitted (Deployment.Track_select deps
                                      (Deployment.resourceAdded object) d))).
    rewrite DeploymentFacts.Track_select_feed. cbn [deployment_step_feed].
    destruct (if Deployment.debug deps then _ else _) as [err|] eqn:Hok.
    + rewrite (proj1 (DeploymentFacts.Track_select_listing_error _ _ d _ Hok)).
      apply added_precedes_nil.
    + apply added_precedes_first.
  - intros msgs d. rewrite DaemonSetFacts.ds_Track_feed.
    pose proof (select_loop_budget (DaemonSet.Track_select ddeps) daemonset_lifecycle
                  (fun d => added_budget (DaemonSet.State d))
                  (DaemonSetFacts.ds_Track_select_added_budget ddeps) msgs d) as Hb.
    pose proof (added_budget_le (DaemonSet.State d)).
    cbv beta in Hb. unfold daemonset_feed. lia.
  - apply daemonset_Added_only.
  - intros object rest name namespace logsFromTime.
    set (d := DaemonSet.NewTracker name namespace logsFromTime).
    rewrite DaemonSetFacts.ds_Track_feed.
    destruct (select_loop_cons (DaemonSet.Track_select ddeps)
                (DaemonSet.resourceAdded object) rest d) as (He & _).
    rewrite He. unfold daemonset_feed. rewrite omap_app.
    fold (daemonset_feed (emitted (DaemonSet.Track_select ddeps
                                     (DaemonSet.resourceAdded object) d))).
    rewrite DaemonSetFacts.ds_Track_select_feed. cbn [daemonset_step_feed].
    destruct (snd (rollout ddeps object)) as [err|] eqn:Hroll.
    + destruct (DaemonSetFacts.ds_Track_select_error ddeps object d err Hroll)
        as (_ & _ & Hv & _).
      rewrite Hv. apply added_precedes_nil.
    + apply added_precedes_first.
Qed.

Lemma Added_once_and_first_witness :
  added_precedes
    (deployment_feed
       (emitted (Deployment.Track sample_deps
                   [Deployment.resourceAdded (a_deployment 0);
                    Deployment.resourceModified (a_deployment 2);
                    Deployment.resourceFailed "boom"]
                   (Deployment.NewTracker "web" "default" None))))
  ∧ added_precedes
      (daemonset_feed
         (emitted (DaemonSet.Track sample_ds_deps
                     [DaemonSet.resourceAdded (a_daemonset 0);
                      DaemonSet.resourceModified (a_daemonset 3)]
                     (DaemonSet.NewTracker "agent" "default" None)))).
Proof.
  destruct (Added_once_and_first sample_deps sample_ds_deps)
    as [(_ & _ & Hdep) (_ & _ & Hds)].
  split.
  - apply Hdep.
  - apply Hds.
Defined.

(** C8 fails as stated.  The informer forwards [Added] and then
    [Modified] on two channels of capacity 1; with both buffered, the
    loop's [select] may take [Modified] first.  The feed then has
    [Ready] before [Added]. *)
Lemma Ready_before_Added :
  Deployment.dispatches
    [Deployment.watchAdded (a_deployment 0); Deployment.watchModified (a_deployment 2)]
    Deployment.emptyChans
    [Deployment.resourceModified (a_deployment 2);
     Deployment.resourceAdded (a_deployment 0)]
  ∧ deployment_feed
      (emitted (Deployment.Track sample_deps
                  [Deployment.resourceModified (a_deployment 2);
                   Deployment.resourceAdded (a_deployment 0)]
                  (Deployment.NewTracker "web" "default" None)))
    = [LReady; LAdded false]
  ∧ ¬ added_precedes
        (deployment_feed
           (emitted (Deployment.Track sample_deps
                       [Deployment.resourceModified (a_deployment 2);
                        Deployment.resourceAdded (a_deployment 0)]
                       (Deployment.NewTracker "web" "default" None)))).
Proof.
  assert (Hfeed : deployment_feed
      (emitted (Deployment.Track sample_deps
                  [Deployment.resourceModified (a_deployment 2);
                   Deployment.resourceAdded (a_deployment 0)]
                  (Deployment.NewTracker "web" "default" None)))
    = [LReady; LAdded false]) by (vm_compute; reflexivity).
  split; [|split].
  - eapply Deployment.dispatches_send; [reflexivity|].
    eapply Deployment.dispatches_send; [reflexivity|].
    eapply Deployment.dispatches_recv; [right; left; reflexivity|].
    eapply Deployment.dispatches_recv; [left; reflexivity|].
    apply Deployment.dispatches_stop.
  - exact Hfeed.
  - rewrite Hfeed. intros Hprec.
    destruct (Hprec [] LReady [LAdded false] eq_refl eq_refl) as [ready Hin].
    by apply elem_of_nil in Hin.
Qed.








End ControllerClaims.

(* ===================================================================== *)
(** * Further properties: the log follower                                *)
(* ===================================================================== *)

Module FollowerProperties.

Import LogFraming LogFacts MoreRules.

Lemma first_space_Some (line ts payload : list byte) :
  first_space line = Some (ts, payload) ->
  line = ts ++ space :: payload ∧ space ∉ ts.
Proof.
  revert ts. induction line as [|b line IH]; intros ts; cbn [first_space]; [done|].
  destruct (Byte.eqb b space) eqn:E.
  - intros [= <- <-]. apply Byte.byte_dec_bl in E. subst b.
    split; [reflexivity | apply not_elem_of_nil].
  - destruct (first_space line) as [[ts' p]|]; [|done].
    intros [= <- <-]. destruct (IH ts' eq_refl) as [-> Hts]. split; [reflexivity|].
    apply not_elem_of_cons. split; [|exact Hts].
    intros Heq. subst b. vm_compute in E. discriminate E.
Qed.

Lemma string_of_list_byte_app (a b : list byte) :
  string_of_list_byte (a ++ b) = string_of_list_byte a +:+ string_of_list_byte b.
Proof.
  induction a as [|x a IH]; [reflexivity|].
  cbn [app]. rewrite !string_of_list_byte_cons, IH. reflexivity.
Qed.

Lemma LogLine_text_of_line (line : list byte) :
  map LogLine_text (line_LogLines line) =
  if decide (space ∈ line) then [string_of_list_byte line] else [].
Proof.
  unfold line_LogLines.
  destruct (first_space line) as [[ts payload]|] eqn:Hfs.
  - destruct (first_space_Some _ _ _ Hfs) as [-> Hts].
    rewrite decide_True.
    + cbn [map]. unfold LogLine_text. cbn [Pod.Timestamp Pod.Data].
      rewrite string_of_list_byte_app, string_of_list_byte_cons. reflexivity.
    + apply elem_of_app. right. apply elem_of_cons. by left.
  - apply first_space_none in Hfs. by rewrite decide_False.
Qed.

Lemma LogLine_text_of_lines (ls : list (list byte)) :
  map LogLine_text (flat_map line_LogLines ls) =
  map string_of_list_byte (filter (fun l => space ∈ l) ls).
Proof.
  induction ls as [|l ls IH]; [reflexivity|].
  cbn [flat_map]. rewrite map_app, IH, LogLine_text_of_line, filter_cons.
  destruct (decide (space ∈ l)); reflexivity.
Qed.

Lemma followContainerLogs_lines name reads :
  delivered_lines (emitted (Pod.followContainerLogs name (inr reads))) =
  flat_map line_LogLines (complete_lines (stream_read reads)).
Proof.
  destruct (follow_loop_run name reads [] (not_elem_of_nil _)) as [Hlines _].
  exact Hlines.
Qed.

(** X1: the log lines the follower delivers, each written back as
    timestamp, space, payload, are exactly the complete lines of the
    bytes read that contain a space, in stream order: no such line is
    lost, altered, duplicated or reordered. *)
Theorem followContainerLogs_round_trip (name : string) (reads : list Pod.ReadStep) :
  map LogLine_text
    (delivered_lines (emitted (Pod.followContainerLogs name (inr reads)))) =
  map string_of_list_byte
    (filter (fun l => space ∈ l) (complete_lines (stream_read reads))).
Proof.
  rewrite followContainerLogs_lines. apply LogLine_text_of_lines.
Qed.

Lemma elem_of_line_LogLines (l : Pod.LogLine) (line : list byte) :
  l ∈ line_LogLines line ->
  ∃ ts payload, line = ts ++ space :: payload ∧ (space ∉ ts)
                ∧ l = Pod.mkLogLine (string_of_list_byte ts) (string_of_list_byte payload).
Proof.
  unfold line_LogLines. destruct (first_space line) as [[ts payload]|] eqn:Hfs.
  - intros Hin. apply list_elem_of_singleton in Hin. subst l.
    destruct (first_space_Some _ _ _ Hfs) as [Hline Hts]. eauto.
  - intros Hin. by apply elem_of_nil in Hin.
Qed.

(** X2: in every log line the follower delivers, the timestamp holds
    no space and no newline, and the payload holds no newline. *)
Theorem delivered_LogLine_fields (name : string) (reads : list Pod.ReadStep)
    (l : Pod.LogLine) :
  l ∈ delivered_lines (emitted (Pod.followContainerLogs name (inr reads))) ->
  (space ∉ list_byte_of_string (Pod.Timestamp l))
  ∧ (Pod.newline ∉ list_byte_of_string (Pod.Timestamp l))
  ∧ (Pod.newline ∉ list_byte_of_string (Pod.Data l)).
Proof.
  rewrite followContainerLogs_lines. intros Hin.
  apply list_elem_of_In, in_flat_map in Hin. destruct Hin as (line & Hline & Hl).
  apply list_elem_of_In in Hline, Hl.
  pose proof (split_lines_lines_no_newline (stream_read reads)) as Hnl.
  rewrite Forall_forall in Hnl. specialize (Hnl line Hline).
  destruct (elem_of_line_LogLines l line Hl) as (ts & payload & -> & Hts & ->).
  cbn [Pod.Timestamp Pod.Data]. rewrite !list_byte_of_string_of_list_byte.
  apply not_elem_of_app in Hnl as [Hnts Hnp].
  apply not_elem_of_cons in Hnp as [_ Hnp]. done.
Qed.

Lemma delivered_LogLine_fields_witness :
  (space ∉ list_byte_of_string "2019-06-01T10:00:00Z")
  ∧ (Pod.newline ∉ list_byte_of_string "2019-06-01T10:00:00Z")
  ∧ (Pod.newline ∉ list_byte_of_string "started").
Proof.
  apply (delivered_LogLine_fields "app" sample_reads
           (Pod.mkLogLine "2019-06-01T10:00:00Z" "started")).
  assert (Hlines : delivered_lines
                     (emitted (Pod.followContainerLogs "app" (inr sample_reads))) =
                   [Pod.mkLogLine "2019-06-01T10:00:00Z" "started";
                    Pod.mkLogLine "2019-06-01T10:00:01Z" "a b"])
    by (vm_compute; reflexivity).
  rewrite Hlines. apply elem_of_cons. left. reflexivity.
Defined.

Lemma follow_loop_outcome name reads lineBuf :
  value (Pod.follow_loop name reads lineBuf) = follow_outcome (last (consumed reads)).
Proof.
  revert lineBuf. induction reads as [|r reads IH]; intros lineBuf; [reflexivity|].
  cbn [Pod.follow_loop consumed]. rewrite bind_value.
  destruct (Pod.rd_err r) as [e|] eqn:He.
  - cbn [last follow_outcome]. rewrite He. by destruct (decide (e = io_EOF)).
  - destruct (Pod.ctx_done r) eqn:Hc.
    + cbn [last follow_outcome]. by rewrite He, Hc.
    + rewrite IH. destruct (consumed reads) as [|r' rs] eqn:Hcons.
      * cbn [last follow_outcome]. by rewrite He, Hc.
      * reflexivity.
Qed.

(** X3: how the follower ends.  A failed log request is returned at
    once with nothing delivered.  Otherwise the last read made decides:
    [io.EOF] gives nil, another read error is returned as it is, a
    finished context gives [ErrTrackTimeout], and else the follower
    waits for the next read; so it returns nil only at end of stream. *)
Theorem followContainerLogs_outcome (name : string) (reads : list Pod.ReadStep)
    (e : error) :
  Pod.followContainerLogs name (inl e) = mkRun (Returned (Some e)) [] []
  ∧ value (Pod.followContainerLogs name (inr reads)) =
      follow_outcome (last (consumed reads))
  ∧ (value (Pod.followContainerLogs name (inr reads)) = Returned None <->
     ∃ r, last (consumed reads) = Some r ∧ Pod.rd_err r = Some io_EOF).
Proof.
  split; [reflexivity|]. split; [apply follow_loop_outcome|].
  cbn [Pod.followContainerLogs]. rewrite follow_loop_outcome.
  destruct (last (consumed reads)) as [r|]; cbn [follow_outcome].
  - destruct (Pod.rd_err r) as [e'|] eqn:He.
    + destruct (decide (e' = io_EOF)) as [->|Hne].
      * split; [eauto | done].
      * split; [done|]. intros (r' & [= <-] & Hr'). congruence.
    + split.
      * by destruct (Pod.ctx_done r).
      * intros (r' & [= <-] & Hr'). congruence.
  - split; [done|]. by intros (r' & Hr' & _).
Qed.

Lemma follow_loop_consumed name reads lineBuf :
  emitted (Pod.follow_loop name reads lineBuf) =
  emitted (Pod.follow_loop name (consumed reads) lineBuf)
  ∧ length (emitted (Pod.follow_loop name reads lineBuf)) =
    length (filter (fun r => Pod.rd_data r ≠ []) (consumed reads))
  ∧ Forall (fun c => Pod.ContainerName c = name)
      (emitted (Pod.follow_loop name reads lineBuf)).
Proof.
  revert lineBuf. induction reads as [|r reads IH]; intros lineBuf.
  - cbn. split; [done|]. split; [done | constructor].
  - cbn [Pod.follow_loop consumed]. rewrite !bind_emitted.
    assert (Hchunk : length (emitted (Pod.read_chunk name (Pod.rd_data r) lineBuf)) =
                     (if decide (Pod.rd_data r ≠ []) then 1 else 0)
                     ∧ Forall (fun c => Pod.ContainerName c = name)
                         (emitted (Pod.read_chunk name (Pod.rd_data r) lineBuf))).
    { unfold Pod.read_chunk. destruct (Pod.rd_data r) as [|b data].
      - split; [done | constructor].
      - rewrite bind_emitted. cbn [get value state emitted app].
        destruct (fold_left _ _ _) as [buf' lines]. cbn.
        split; [done|]. by repeat constructor. }
    destruct Hchunk as [Hlen Hname].
    rewrite filter_cons, !length_app, Hlen.
    destruct (Pod.rd_err r) as [e|] eqn:He.
    + destruct (decide (e = io_EOF)); cbn [ret emitted]; rewrite ?app_nil_r;
        (split; [done|]);
        (split; [by destruct (decide (Pod.rd_data r ≠ [])) | exact Hname]).
    + destruct (Pod.ctx_done r) eqn:Hc.
      * cbn [ret emitted]. rewrite ?app_nil_r. split; [done|].
        split; [by destruct (decide (Pod.rd_data r ≠ [])) | exact Hname].
      * destruct (IH (state (Pod.read_chunk name (Pod.rd_data r) lineBuf)))
          as (IH1 & IH2 & IH3).
        split; [by rewrite <- IH1|]. rewrite IH2.
        split; [|by apply Forall_app].
        destruct (decide (Pod.rd_data r ≠ [])); cbn [length]; lia.
Qed.

(** X4: the follower delivers one chunk, under the container's name,
    for each read that returned bytes, up to and including the read
    that ends it (the bytes of a read that also returns an error are
    still delivered); reads after that one are never made. *)
Theorem followContainerLogs_chunks (name : string) (reads : list Pod.ReadStep) :
  emitted (Pod.followContainerLogs name (inr reads)) =
    emitted (Pod.followContainerLogs name (inr (consumed reads)))
  ∧ length (emitted (Pod.followContainerLogs name (inr reads))) =
    length (filter (fun r => Pod.rd_data r ≠ []) (consumed reads))
  ∧ Forall (fun c => Pod.ContainerName c = name)
      (emitted (Pod.followContainerLogs name (inr reads))).
Proof.
  cbn [Pod.followContainerLogs]. apply follow_loop_consumed.
Qed.

End FollowerProperties.

(* ===================================================================== *)
(** * Further properties: select loops                                    *)
(* ===================================================================== *)

Module LoopFacts.

Import MoreRules FeedFacts.

Lemma tally_app {O} (w : O -> bool) (a b : list O) :
  tally w (a ++ b) = tally w a + tally w b.
Proof. unfold tally. by rewrite List.filter_app, length_app. Qed.

Section Loop.

Context {S O Msg : Type}.
Variable body : Msg -> M S O Flow.

(** A count of actions that each iteration pays for out of a budget
    held by the state stays within the budget along the loop. *)
Lemma select_loop_tally (w : O -> bool) (budget : S -> nat) :
  (∀ m s, tally w (emitted (body m s)) + budget (state (body m s)) <= budget s) ->
  ∀ msgs s,
    tally w (emitted (select_loop body msgs s))
    + budget (state (select_loop body msgs s)) <= budget s.
Proof.
  intros Hstep msgs. induction msgs as [|m msgs IH]; intros s; [cbn; lia|].
  destruct (select_loop_cons body m msgs s) as (He & Hs & _). rewrite He, Hs.
  rewrite tally_app. pose proof (Hstep m s).
  destruct (value (body m s)).
  - pose proof (IH (state (body m s))). lia.
  - cbn. lia.
  - cbn. lia.
Qed.

(** A property of the state that every iteration keeps, and a
    property of the actions that holds under it, hold along the loop. *)
Lemma select_loop_invariant (I : S -> Prop) (Q : O -> Prop) :
  (∀ m s, I s -> I (state (body m s)) ∧ Forall Q (emitted (body m s))) ->
  ∀ msgs s, I s ->
    I (state (select_loop body msgs s)) ∧ Forall Q (emitted (select_loop body msgs s)).
Proof.
  intros Hstep msgs. induction msgs as [|m msgs IH]; intros s Hs.
  - split; [exact Hs | constructor].
  - destruct (select_loop_cons body m msgs s) as (He & Hst & _). rewrite He, Hst.
    destruct (Hstep m s Hs) as [HI HQ].
    destruct (value (body m s)).
    + destruct (IH _ HI) as [HI' HQ']. split; [exact HI' | by apply Forall_app].
    + rewrite app_nil_r. done.
    + rewrite app_nil_r. done.
Qed.

(** The outcomes a loop can have when no iteration has flow [f]. *)
Lemma select_loop_value (P : Outcome -> Prop) :
  P Blocked ->
  (∀ m s, match value (body m s) with
          | Continue => True
          | Return e => P (Returned e)
          | Panic => P Panicked
          end) ->
  ∀ msgs s, P (value (select_loop body msgs s)).
Proof.
  intros Hb Hstep msgs. induction msgs as [|m msgs IH]; intros s; [exact Hb|].
  destruct (select_loop_cons body m msgs s) as (_ & _ & Hv). rewrite Hv.
  specialize (Hstep m s). destruct (value (body m s)); [apply IH | done | done].
Qed.

End Loop.

End LoopFacts.

(* ===================================================================== *)
(** * Further properties: the pod tracker                                 *)
(* ===================================================================== *)

Module PodProperties.

Import PodRules PodFacts MoreRules FeedFacts LoopFacts.

Lemma handleContainerStatus_states cs p (name : string) :
  Pod.ContainerTrackerStates (state (Pod.handleContainerStatus cs p)) !! name =
  if decide (name = corev1.Name cs)
  then match status_state cs with
       | Some st => Some st
       | None => Pod.ContainerTrackerStates p !! name
       end
  else Pod.ContainerTrackerStates p !! name.
Proof.
  unfold Pod.handleContainerStatus, status_state.
  destruct (corev1.Waiting (corev1.State cs)) as [w|];
    destruct (corev1.Running (corev1.State cs));
    destruct (corev1.Terminated (corev1.State cs));
    try destruct (Pod.error_reason (corev1.Reason w));
    run_monad; cbn [Pod.ContainerTrackerStates Pod.set_ContainerTrackerState];
    destruct (decide (name = corev1.Name cs)) as [->|Hne];
    rewrite ?lookup_insert_eq; try reflexivity;
    rewrite ?lookup_insert_ne by done; reflexivity.
Qed.

Lemma handleContainerStatus_frame cs p :
  Pod.State (state (Pod.handleContainerStatus cs p)) = Pod.State p
  ∧ Pod.lastObject (state (Pod.handleContainerStatus cs p)) = Pod.lastObject p.
Proof.
  unfold Pod.handleContainerStatus.
  destruct (corev1.Waiting (corev1.State cs)) as [w|];
    destruct (corev1.Running (corev1.State cs));
    destruct (corev1.Terminated (corev1.State cs));
    try destruct (Pod.error_reason (corev1.Reason w));
    run_monad; done.
Qed.

Lemma range_states_other (statuses : list corev1.ContainerStatus) p (name : string) :
  name ∉ map corev1.Name statuses ->
  Pod.ContainerTrackerStates (state (Pod.range statuses Pod.handleContainerStatus p))
    !! name = Pod.ContainerTrackerStates p !! name.
Proof.
  revert p. induction statuses as [|c statuses IH]; intros p Hname; [reflexivity|].
  cbn [map] in Hname. apply not_elem_of_cons in Hname as [Hc Hrest].
  cbn [Pod.range]. rewrite bind_state, IH by done.
  rewrite handleContainerStatus_states. by rewrite decide_False.
Qed.

Lemma range_states_status (statuses : list corev1.ContainerStatus) p cs :
  NoDup (map corev1.Name statuses) ->
  cs ∈ statuses ->
  Pod.ContainerTrackerStates (state (Pod.range statuses Pod.handleContainerStatus p))
    !! corev1.Name cs =
  match status_state cs with
  | Some st => Some st
  | None => Pod.ContainerTrackerStates p !! corev1.Name cs
  end.
Proof.
  revert p. induction statuses as [|c statuses IH]; intros p Hnodup Hin.
  - by apply elem_of_nil in Hin.
  - cbn [map] in Hnodup. apply NoDup_cons in Hnodup as [Hc Hnodup].
    cbn [Pod.range]. rewrite bind_state.
    apply elem_of_cons in Hin as [->|Hin].
    + rewrite range_states_other by done.
      rewrite handleContainerStatus_states. by rewrite decide_True.
    + rewrite IH by done. destruct (status_state cs); [reflexivity|].
      rewrite handleContainerStatus_states. rewrite decide_False; [reflexivity|].
      intros Heq. apply Hc. rewrite <- Heq. apply list_elem_of_fmap. eauto.
Qed.

(** X5: after a pod snapshot whose container statuses have distinct
    names is handled, the tracker state recorded for each container of
    the snapshot is terminated if its status has a terminated state,
    else running if it has a running state, else waiting if it has a
    waiting state, and is left as it was if the status sets none; the
    containers the snapshot does not name keep their state. *)
Theorem handleContainersState_states (object : corev1.Pod) (p : Pod.PodTracker) :
  NoDup (map corev1.Name (all_statuses object)) ->
  let states := Pod.ContainerTrackerStates (state (Pod.handleContainersState object p)) in
  (∀ cs, cs ∈ all_statuses object ->
     states !! corev1.Name cs =
     match status_state cs with
     | Some st => Some st
     | None => Pod.ContainerTrackerStates p !! corev1.Name cs
     end)
  ∧ (∀ name : string, name ∉ map corev1.Name (all_statuses object) ->
       states !! name = Pod.ContainerTrackerStates p !! name).
Proof.
  intros Hnodup states. subst states.
  unfold Pod.handleContainersState. fold (all_statuses object).
  rewrite bind_state. cbn [ret state]. split.
  - intros cs Hcs. by apply range_states_status.
  - intros name Hname. by apply range_states_other.
Qed.

(** A container that waits in a crash loop with its last run
    terminated is recorded as terminated. *)
Lemma handleContainersState_states_witness :
  Pod.ContainerTrackerStates
    (state (Pod.handleContainersState (status_pod restarted_status)
              (Pod.NewPodTracker "p1" "default"))) !! "c"
  = Some Pod.ContainerTerminated.
Proof.
  destruct (handleContainersState_states (status_pod restarted_status)
              (Pod.NewPodTracker "p1" "default")) as [Hin _].
  - apply (bool_decide_unpack _). vm_compute. exact I.
  - apply (Hin restarted_status). apply elem_of_cons. left. reflexivity.
Defined.

Lemma handlePodState_emitted object p :
  emitted (Pod.handlePodState object p) =
    flat_map waiting_errors (all_statuses object)
    ++ fst (completion_of (Pod.TrackedContainers p) object)
  ∧ Pod.State (state (Pod.handlePodState object p)) = Pod.State p.
Proof.
  unfold Pod.handlePodState.
  destruct (handleContainersState_run object p) as (Hv & He & Ht).
  assert (Hst : Pod.State (state (Pod.handleContainersState object p)) = Pod.State p).
  { unfold Pod.handleContainersState. rewrite bind_state. cbn [ret state].
    apply (range_preserves Pod.State). intros c q.
    apply handleContainerStatus_frame. }
  rewrite bind_emitted, bind_state, Hv, He.
  rewrite bind_emitted, bind_state. cbn [get value state emitted app].
  rewrite Ht. unfold completion_of.
  destruct (Pod.TrackedContainers p) as [|c tracked]; cbn [length Nat.eqb].
  - destruct (String.eqb _ corev1.PodSucceeded); [by run_monad|].
    destruct (String.eqb _ corev1.PodFailed); by run_monad.
  - by run_monad.
Qed.

Lemma handleAndCheck_emitted object p :
  emitted (Pod.handleAndCheck object p) =
    flat_map waiting_errors (all_statuses object)
    ++ fst (completion_of (Pod.TrackedContainers p) object)
  ∧ Pod.State (state (Pod.handleAndCheck object p)) = Pod.State p
  ∧ value (Pod.handleAndCheck object p) =
    (if snd (completion_of (Pod.TrackedContainers p) object)
     then Return None else Continue).
Proof.
  destruct (handlePodState_emitted object p) as [He Hst].
  destruct (handlePodState_run object p) as [Hv _].
  destruct (handleAndCheck_run object p) as [Hv' _].
  split; [|split; [|exact Hv']]; unfold Pod.handleAndCheck;
    rewrite ?bind_emitted, ?bind_state, ?He, Hv; cbn [fst snd];
    destruct (snd (completion_of (Pod.TrackedContainers p) object));
    cbn [ret emitted state]; rewrite ?app_nil_r, ?Hst; reflexivity.
Qed.

Lemma tally_waiting_errors (w : Pod.Action -> bool) statuses :
  (∀ e, w (Pod.SendContainerError e) = false) ->
  tally w (flat_map waiting_errors statuses) = 0.
Proof.
  intros Hw. induction statuses as [|cs statuses IH]; [reflexivity|].
  cbn [flat_map]. rewrite tally_app, IH. unfold waiting_errors.
  destruct (corev1.Waiting (corev1.State cs)); [|reflexivity].
  destruct (decide _); [|reflexivity]. unfold tally. cbn. by rewrite Hw.
Qed.

Lemma tally_completion (w : Pod.Action -> bool) tracked object :
  w Pod.SendSucceeded = false -> w Pod.SendFailed = false ->
  tally w (fst (completion_of tracked object)) = 0.
Proof.
  intros Hs Hf. unfold completion_of. destruct tracked; [|reflexivity].
  destruct (String.eqb _ corev1.PodSucceeded); [unfold tally; cbn; by rewrite Hs|].
  destruct (String.eqb _ corev1.PodFailed); [unfold tally; cbn; by rewrite Hf|].
  reflexivity.
Qed.

Lemma tally_handleAndCheck (w : Pod.Action -> bool) object p :
  (∀ e, w (Pod.SendContainerError e) = false) ->
  w Pod.SendSucceeded = false -> w Pod.SendFailed = false ->
  tally w (emitted (Pod.handleAndCheck object p)) = 0.
Proof.
  intros He Hs Hf. destruct (handleAndCheck_emitted object p) as [-> _].
  by rewrite tally_app, tally_waiting_errors, tally_completion.
Qed.

(** Pushes [value], [state] and [emitted] through the binds. *)
Ltac unbind :=
  repeat (rewrite bind_emitted || rewrite bind_state || rewrite bind_value).

Lemma runContainersTrackers_full kubeGetPod p :
  let r := Pod.runContainersTrackers kubeGetPod p in
  Pod.State (state r) = Pod.State p
  ∧ emitted r =
      match kubeGetPod (Pod.Namespace p) (Pod.ResourceName p) with
      | inl _ => []
      | inr manifest => map Pod.GoTrackContainer (manifest_names manifest)
      end
  ∧ value r =
      match kubeGetPod (Pod.Namespace p) (Pod.ResourceName p) with
      | inl e => Some e
      | inr _ => None
      end.
Proof.
  unfold Pod.runContainersTrackers. cbv zeta.
  rewrite bind_value, bind_state, bind_emitted. cbn [get value state emitted app].
  destruct (kubeGetPod (Pod.Namespace p) (Pod.ResourceName p)) as [e|manifest];
    [done|].
  rewrite bind_value, bind_state, bind_emitted. cbn [ret value state emitted].
  fold (manifest_names manifest).
  destruct (track_names_run (manifest_names manifest) p) as [_ He].
  cbv zeta in He. rewrite He, app_nil_r. split; [|done].
  apply (range_preserves Pod.State). intros n q. by run_monad.
Qed.

Lemma tally_GoTrackContainer names :
  tally is_pod_added (map Pod.GoTrackContainer names) = 0
  ∧ tally is_container_start (map Pod.GoTrackContainer names) = length names.
Proof.
  unfold tally. induction names as [|n names [IH1 IH2]]; [done|].
  cbn. rewrite IH2. done.
Qed.

(** What one iteration of the pod tracker's loop does to the [Added]
    signal, the container trackers and the tracker's [State]. *)
Lemma Track_select_starts kubeGetPod msg p :
  let r := Pod.Track_select kubeGetPod msg p in
  tally is_pod_added (emitted r) + pod_budget (Pod.State (state r))
    <= pod_budget (Pod.State p)
  ∧ (Pod.State p ≠ Pod.Initial ->
     Pod.State (state r) ≠ Pod.Initial ∧ tally is_container_start (emitted r) = 0)
  ∧ (tally is_pod_added (emitted r) = 0 -> tally is_container_start (emitted r) = 0).
Proof.
  intros r. subst r.
  assert (Hquiet : ∀ o q, tally is_pod_added (emitted (Pod.handleAndCheck o q)) = 0
                          ∧ tally is_container_start (emitted (Pod.handleAndCheck o q)) = 0).
  { intros o q. split; by apply tally_handleAndCheck. }
  destruct msg as [name|added|modified|deleted| |err]; cbn [Pod.Track_select].
  - unbind.
    cbn [modify get value state emitted app Pod.set_TrackedContainers Pod.lastObject].
    destruct (Pod.lastObject p) as [last|].
    + destruct (Hquiet last (Pod.set_TrackedContainers
                   (filter (fun n => n ≠ name) (Pod.TrackedContainers p)) p)) as [Ha Hc].
      destruct (handleAndCheck_emitted last (Pod.set_TrackedContainers
                   (filter (fun n => n ≠ name) (Pod.TrackedContainers p)) p))
        as (_ & Hst & _).
      rewrite Ha, Hc, Hst. cbn [Pod.State Pod.set_TrackedContainers].
      split; [lia|]. done.
    + cbn. split; [lia|]. done.
  - unbind.
    cbn [modify get value state emitted app Pod.set_lastObject Pod.State].
    destruct (Pod.State p) eqn:Hstate.
    + unbind.
      cbn [modify send value state emitted app].
      set (p1 := Pod.set_State Pod.ResourceAdded _).
      destruct (runContainersTrackers_full kubeGetPod p1) as (Hst & He & Hv).
      cbv zeta in Hst, He, Hv. rewrite Hv, He.
      change (Pod.SendAdded :: ?l) with ([Pod.SendAdded] ++ l).
      rewrite !tally_app.
      destruct (kubeGetPod (Pod.Namespace p1) (Pod.ResourceName p1)) as [e|manifest].
      * cbn [ret state emitted]. rewrite Hst. cbn. split; [lia|]. done.
      * destruct (Hquiet added (state (Pod.runContainersTrackers kubeGetPod p1)))
          as [Ha Hc].
        destruct (handleAndCheck_emitted added
                    (state (Pod.runContainersTrackers kubeGetPod p1))) as (_ & Hst' & _).
        rewrite Ha, Hc, Hst', Hst.
        destruct (tally_GoTrackContainer (manifest_names manifest)) as [-> ->].
        cbn. split; [lia|]. split; [done | lia].
    + cbn [ret value state emitted app].
      destruct (Hquiet added (Pod.set_lastObject (Some added) p)) as [Ha Hc].
      destruct (handleAndCheck_emitted added (Pod.set_lastObject (Some added) p))
        as (_ & Hst & _).
      rewrite Ha, Hc, Hst. cbn [Pod.State Pod.set_lastObject]. rewrite Hstate.
      cbn. split; [lia|]. done.
    + cbn [ret value state emitted app].
      destruct (Hquiet added (Pod.set_lastObject (Some added) p)) as [Ha Hc].
      destruct (handleAndCheck_emitted added (Pod.set_lastObject (Some added) p))
        as (_ & Hst & _).
      rewrite Ha, Hc, Hst. cbn [Pod.State Pod.set_lastObject]. rewrite Hstate.
      cbn. split; [lia|]. done.
    + cbn [ret value state emitted app].
      destruct (Hquiet added (Pod.set_lastObject (Some added) p)) as [Ha Hc].
      destruct (handleAndCheck_emitted added (Pod.set_lastObject (Some added) p))
        as (_ & Hst & _).
      rewrite Ha, Hc, Hst. cbn [Pod.State Pod.set_lastObject]. rewrite Hstate.
      cbn. split; [lia|]. done.
    + cbn [ret value state emitted app].
      destruct (Hquiet added (Pod.set_lastObject (Some added) p)) as [Ha Hc].
      destruct (handleAndCheck_emitted added (Pod.set_lastObject (Some added) p))
        as (_ & Hst & _).
      rewrite Ha, Hc, Hst. cbn [Pod.State Pod.set_lastObject]. rewrite Hstate.
      cbn. split; [lia|]. done.
  - unbind.
    cbn [modify value state emitted app].
    destruct (Hquiet modified (Pod.set_lastObject (Some modified) p)) as [Ha Hc].
    destruct (handleAndCheck_emitted modified (Pod.set_lastObject (Some modified) p))
      as (_ & Hst & _).
    rewrite Ha, Hc, Hst. cbn [Pod.State Pod.set_lastObject].
    split; [lia|]. done.
  - cbn. split; [lia|]. done.
  - cbn. split; [lia|]. done.
  - cbn. split; [lia|]. done.
Qed.

Lemma Track_loop_starts kubeGetPod msgs p :
  let r := select_loop (Pod.Track_select kubeGetPod) msgs p in
  (Pod.State p ≠ Pod.Initial ->
   Pod.State (state r) ≠ Pod.Initial ∧ tally is_container_start (emitted r) = 0)
  ∧ (tally is_pod_added (emitted r) = 0 -> tally is_container_start (emitted r) = 0).
Proof.
  revert p. induction msgs as [|m msgs IH]; intros p r; subst r; [done|].
  destruct (select_loop_cons (Pod.Track_select kubeGetPod) m msgs p) as (He & Hs & _).
  rewrite He, Hs, !tally_app.
  destruct (Track_select_starts kubeGetPod m p) as (_ & Hni & Hc).
  cbv zeta in Hni, Hc.
  destruct (value (Pod.Track_select kubeGetPod m p)).
  - destruct (IH (state (Pod.Track_select kubeGetPod m p))) as [IHni IHc].
    cbv zeta in IHni, IHc. split.
    + intros Hp. destruct (Hni Hp) as [Hp' Hz]. destruct (IHni Hp') as [Hp'' Hz'].
      split; [exact Hp''|]. lia.
    + intros Hz. rewrite Hc, IHc by lia. reflexivity.
  - cbn [tally List.filter length]. split.
    + intros Hp. destruct (Hni Hp) as [Hp' Hz]. split; [exact Hp'|]. lia.
    + intros Hz. rewrite Hc by lia. reflexivity.
  - cbn [tally List.filter length]. split.
    + intros Hp. destruct (Hni Hp) as [Hp' Hz]. split; [exact Hp'|]. lia.
    + intros Hz. rewrite Hc by lia. reflexivity.
Qed.

(** X6: a run of the pod tracker sends [Added] at most once; container
    trackers are started only in a run that sends it; and a tracker
    that has left its initial state never returns to it, sends no
    further [Added] and starts no further container tracker. *)
Theorem pod_Track_Added_once (kubeGetPod : string -> string -> error + corev1.Pod)
    (msgs : list Pod.Msg) (p : Pod.PodTracker) :
  let r := Pod.Track kubeGetPod msgs p in
  tally is_pod_added (emitted r) <= 1
  ∧ (tally is_pod_added (emitted r) = 0 -> tally is_container_start (emitted r) = 0)
  ∧ (Pod.State p ≠ Pod.Initial ->
     Pod.State (state r) ≠ Pod.Initial
     ∧ tally is_pod_added (emitted r) = 0
     ∧ tally is_container_start (emitted r) = 0).
Proof.
  intros r.
  assert (Hr : emitted r = [Pod.GoInformer]
                           ++ emitted (select_loop (Pod.Track_select kubeGetPod) msgs p)
               ∧ state r = state (select_loop (Pod.Track_select kubeGetPod) msgs p))
    by done.
  destruct Hr as [-> ->]. rewrite !tally_app.
  change (tally is_pod_added [Pod.GoInformer]) with 0.
  change (tally is_container_start [Pod.GoInformer]) with 0.
  pose proof (select_loop_tally (Pod.Track_select kubeGetPod) is_pod_added
                (fun p => pod_budget (Pod.State p))
                (fun m s => proj1 (Track_select_starts kubeGetPod m s)) msgs p) as Hb.
  cbv beta in Hb.
  destruct (Track_loop_starts kubeGetPod msgs p) as [Hni Hc]. cbv zeta in Hni, Hc.
  assert (Hle : pod_budget (Pod.State p) <= 1) by (destruct (Pod.State p); cbn; lia).
  split; [lia|]. split; [intros Hz; rewrite Hc by lia; reflexivity|].
  intros Hp. destruct (Hni Hp) as [Hp' Hz]. split; [exact Hp'|].
  split; [|lia]. destruct (Pod.State p); [done|cbn in Hb; lia..].
Qed.

Lemma pod_Track_Added_once_witness :
  tally is_pod_added
    (emitted (Pod.Track (fun _ _ => inr (a_pod "Running" []))
                [Pod.objectAdded (a_pod "Running" []);
                 Pod.objectAdded (a_pod "Running" []);
                 Pod.objectModified (a_pod "Running" [])]
                (Pod.NewPodTracker "p1" "default"))) <= 1.
Proof.
  apply (pod_Track_Added_once (fun _ _ => inr (a_pod "Running" []))).
Defined.

Lemma completes_last_none {V} acts (v nil : V) :
  completion_signals acts = [] -> completes_last acts v nil.
Proof. intros H. by left. Qed.

Lemma completes_last_prefix {V} pre acts (v nil : V) :
  completion_signals pre = [] ->
  completes_last acts v nil -> completes_last (pre ++ acts) v nil.
Proof.
  intros Hpre [Hnone|(sig & before & -> & Hsig & Hbefore & Hv)].
  - left. by rewrite completion_signals_app, Hpre, Hnone.
  - right. exists sig, (pre ++ before). rewrite app_assoc.
    repeat split; [exact Hsig | | exact Hv].
    by rewrite completion_signals_app, Hpre, Hbefore.
Qed.

Lemma handleAndCheck_completes object p :
  completes_last (emitted (Pod.handleAndCheck object p))
    (value (Pod.handleAndCheck object p)) (Return None).
Proof.
  destruct (handleAndCheck_emitted object p) as (-> & _ & ->).
  apply completes_last_prefix; [apply completion_signals_waiting_errors|].
  unfold completion_of. destruct (Pod.TrackedContainers p); [|by left].
  destruct (String.eqb _ corev1.PodSucceeded).
  { right. by exists Pod.SendSucceeded, []. }
  destruct (String.eqb _ corev1.PodFailed).
  { right. by exists Pod.SendFailed, []. }
  by left.
Qed.

Lemma Track_select_completes kubeGetPod msg p :
  completes_last (emitted (Pod.Track_select kubeGetPod msg p))
    (value (Pod.Track_select kubeGetPod msg p)) (Return None).
Proof.
  destruct msg as [name|added|modified|deleted| |err]; cbn [Pod.Track_select].
  - unbind.
    cbn [modify get value state emitted app Pod.set_TrackedContainers Pod.lastObject].
    destruct (Pod.lastObject p) as [last|]; [apply handleAndCheck_completes | by left].
  - unbind. cbn [modify get value state emitted app Pod.set_lastObject Pod.State].
    destruct (Pod.State p) eqn:Hstate;
      try (cbn [ret value state emitted app]; apply handleAndCheck_completes).
    unbind. cbn [modify send value state emitted app].
    set (p1 := Pod.set_State Pod.ResourceAdded _).
    destruct (runContainersTrackers_full kubeGetPod p1) as (_ & He & Hv).
    cbv zeta in He, Hv. rewrite Hv, He.
    change (Pod.SendAdded :: ?l) with ([Pod.SendAdded] ++ l).
    apply completes_last_prefix; [reflexivity|].
    destruct (kubeGetPod (Pod.Namespace p1) (Pod.ResourceName p1)) as [e|manifest].
    + by left.
    + apply completes_last_prefix; [apply completion_signals_GoTrackContainer|].
      apply handleAndCheck_completes.
  - unbind. cbn [modify value state emitted app]. apply handleAndCheck_completes.
  - by left.
  - by left.
  - by left.
Qed.

Lemma Track_loop_completes kubeGetPod msgs p :
  completes_last (emitted (select_loop (Pod.Track_select kubeGetPod) msgs p))
    (value (select_loop (Pod.Track_select kubeGetPod) msgs p)) (Returned None).
Proof.
  revert p. induction msgs as [|m msgs IH]; intros p; [by left|].
  destruct (select_loop_cons (Pod.Track_select kubeGetPod) m msgs p) as (He & _ & Hv).
  rewrite He, Hv.
  destruct (Track_select_completes kubeGetPod m p)
    as [Hnone|(sig & before & Hem & Hsig & Hbefore & Hval)].
  - destruct (value (Pod.Track_select kubeGetPod m p)).
    + apply completes_last_prefix; [exact Hnone | apply IH].
    + left. by rewrite app_nil_r.
    + left. by rewrite app_nil_r.
  - rewrite Hval, app_nil_r. right. by exists sig, before.
Qed.

(** X7: a run of the pod tracker sends at most one completion signal
    ([Succeeded] or [Failed]); when it sends one, the signal is the
    last thing the run does and [Track] returns nil with it. *)
Theorem pod_Track_completes_last (kubeGetPod : string -> string -> error + corev1.Pod)
    (msgs : list Pod.Msg) (p : Pod.PodTracker) :
  let r := Pod.Track kubeGetPod msgs p in
  completion_signals (emitted r) = []
  ∨ ∃ sig before,
      emitted r = before ++ [sig]
      ∧ (sig = Pod.SendSucceeded ∨ sig = Pod.SendFailed)
      ∧ completion_signals before = []
      ∧ value r = Returned None.
Proof.
  intros r.
  assert (Hr : completes_last (emitted r) (value r) (Returned None)).
  { change (emitted r) with
      ([Pod.GoInformer] ++ emitted (select_loop (Pod.Track_select kubeGetPod) msgs p)).
    apply completes_last_prefix; [reflexivity | apply Track_loop_completes]. }
  destruct Hr as [Hnone|(sig & before & Hem & Hsig & Hbefore & Hval)]; [by left|].
  right. exists sig, before. repeat split; try done.
  destruct sig; try discriminate Hsig; auto.
Qed.

End PodProperties.

(* ===================================================================== *)
(** * Further properties: container trackers and informer callbacks       *)
(* ===================================================================== *)

Module ContainerProperties.

Import MoreRules FeedFacts LoopFacts.

Section WithText.

Variable state_text : Pod.TrackerState -> string.

Lemma trackContainer_skip resourceName containerName stream waiting rest :
  forallb waiting_tick waiting = true ->
  ContainerTracker.trackContainer state_text resourceName containerName stream
    (waiting ++ rest) =
  ContainerTracker.trackContainer state_text resourceName containerName stream rest.
Proof.
  induction waiting as [|t waiting IH]; [reflexivity|].
  cbn [forallb]. intros [Ht Hw]%andb_true_iff. cbn [app].
  destruct t as [[]|]; try discriminate Ht;
    cbn [ContainerTracker.trackContainer]; by apply IH.
Qed.

End WithText.

(** X8: a container tracker lets pass every tick that finds its
    container not started (initial or waiting); the first other message
    decides: a tick that finds the container running or terminated
    makes it follow the log and return what the follower returns, with
    the follower's chunks; the end of the context makes it return
    [ErrTrackTimeout] with nothing delivered; and while only such ticks
    come it keeps waiting. *)
Theorem trackContainer_waits (state_text : Pod.TrackerState -> string)
    (resourceName containerName : string) (stream : error + list Pod.ReadStep)
    (waiting rest : list ContainerTracker.Tick) :
  forallb waiting_tick waiting = true ->
  let track := ContainerTracker.trackContainer state_text resourceName containerName
                 stream in
  track (waiting ++ rest) = track rest
  ∧ track (waiting ++ ContainerTracker.tick Pod.ContainerRunning :: rest)
    = Pod.followContainerLogs containerName stream
  ∧ track (waiting ++ ContainerTracker.tick Pod.ContainerTerminated :: rest)
    = Pod.followContainerLogs containerName stream
  ∧ track (waiting ++ ContainerTracker.ContextDone :: rest)
    = mkRun (Returned (Some ErrTrackTimeout)) [] []
  ∧ track waiting = mkRun Blocked [] [].
Proof.
  intros Hw track. subst track. repeat split.
  - by apply trackContainer_skip.
  - by rewrite trackContainer_skip.
  - by rewrite trackContainer_skip.
  - by rewrite trackContainer_skip.
  - rewrite <- (app_nil_r waiting). by rewrite trackContainer_skip.
Qed.

Lemma trackContainer_waits_witness :
  ContainerTracker.trackContainer sample_state_text "p1" "c"
    (inr LogFraming.sample_reads)
    (sample_ticks ++ [ContainerTracker.tick Pod.ContainerRunning])
  = Pod.followContainerLogs "c" (inr LogFraming.sample_reads).
Proof.
  destruct (trackContainer_waits sample_state_text "p1" "c"
              (inr LogFraming.sample_reads) sample_ticks []) as (_ & Hrun & _).
  - reflexivity.
  - exact Hrun.
Defined.

(** X9: when [trackContainer] returns an error, the container's
    goroutine reports it on [errors], a channel without buffer, and
    signals [containerDone] only once the report is taken; the pod
    tracker's [Track], dispatching the report, returns that error with
    nothing else done.  When [trackContainer] returns nil the
    goroutine only signals [containerDone]. *)
Theorem containerGoroutine_error (state_text : Pod.TrackerState -> string)
    (kubeGetPod : string -> string -> error + corev1.Pod)
    (resourceName containerName : string) (stream : error + list Pod.ReadStep)
    (ticks : list ContainerTracker.Tick) (rest : list Pod.Msg) (p : Pod.PodTracker) :
  let outcome := value (ContainerTracker.trackContainer state_text resourceName
                          containerName stream ticks) in
  let sends := ContainerTracker.containerGoroutine state_text resourceName
                 containerName stream ticks in
  (∀ e, outcome = Returned (Some e) ->
     sends = [Pod.errorsMsg e; Pod.containerDone containerName]
     ∧ Pod.Track kubeGetPod (sends ++ rest) p
       = mkRun (Returned (Some e)) p [Pod.GoInformer])
  ∧ (outcome = Returned None -> sends = [Pod.containerDone containerName])
  ∧ (outcome = Blocked -> sends = []).
Proof.
  intros outcome sends. subst outcome sends.
  unfold ContainerTracker.containerGoroutine.
  destruct (value (ContainerTracker.trackContainer _ _ _ _ _)) as [|[e'|]|];
    repeat split; try discriminate; intros; simplify_eq; reflexivity.
Qed.

(** A log stream that breaks makes the pod tracker return the error. *)
Lemma containerGoroutine_error_witness :
  Pod.Track (fun _ _ => inr (PodRules.a_pod "Running" []))
    (ContainerTracker.containerGoroutine sample_state_text "p1" "c" failing_stream
       [ContainerTracker.tick Pod.ContainerRunning]
     ++ [Pod.objectModified (PodRules.a_pod "Running" [])])
    (Pod.NewPodTracker "p1" "default")
  = mkRun (Returned (Some (Errorf "connection reset")))
      (Pod.NewPodTracker "p1" "default") [Pod.GoInformer].
Proof.
  destruct (containerGoroutine_error sample_state_text
              (fun _ _ => inr (PodRules.a_pod "Running" [])) "p1" "c" failing_stream
              [ContainerTracker.tick Pod.ContainerRunning]
              [Pod.objectModified (PodRules.a_pod "Running" [])]
              (Pod.NewPodTracker "p1" "default")) as [Herr _].
  destruct (Herr (Errorf "connection reset") eq_refl) as [_ Htrack].
  exact Htrack.
Defined.

#[local] Set Warnings "-clear-no-such-hyp".

(** Decides the chain of tests on an event's type. *)
Ltac forward_cases :=
  repeat match goal with
         | |- context [String.eqb ?a ?b] =>
             destruct (String.eqb_spec a b); [subst|]
         end;
  repeat match goal with
         | |- context [decide ?P] => destruct (decide P)
         end;
  cbn [fst snd]; try done.

(** X10: the pod informer's callback.  It stops the watch exactly when
    it returns an error, which is exactly when an event other than
    [Error] carries an object that is not a pod, and it then forwards
    nothing.  An [Error] event is let pass: nothing is forwarded and
    the watch goes on.  A pod is forwarded on the channel of its event
    type, and on none for any other type. *)
Theorem podCallback_cases (Sprintf_T : watch.Object -> string)
    (resourceName : string) (e : watch.Event) :
  let r := Informers.podCallback Sprintf_T resourceName e in
  (fst (snd r) = true <-> snd (snd r) ≠ None)
  ∧ (fst (snd r) = true <->
     watch.Type_ e ≠ watch.Error ∧ ∀ o, watch.Object_ e ≠ watch.PodObject o)
  ∧ (fst (snd r) = true -> fst r = [])
  ∧ (watch.Type_ e = watch.Error -> r = ([], (false, None)))
  ∧ (∀ o, watch.Object_ e = watch.PodObject o ->
       fst r =
       if decide (watch.Type_ e = watch.Added) then [Pod.objectAdded o]
       else if decide (watch.Type_ e = watch.Modified) then [Pod.objectModified o]
       else if decide (watch.Type_ e = watch.Deleted) then [Pod.objectDeleted o]
       else []).
Proof.
  intros r. subst r. unfold Informers.podCallback, Informers.pod_forward.
  destruct e as [ty obj]. cbn [watch.Type_ watch.Object_].
  destruct (String.eqb_spec ty watch.Error) as [->|Hty]; cbn [negb].
  - cbn. repeat split; try done; try naive_solver.
  - destruct obj as [o| | |]; cbn [fst snd]; repeat split; try done;
      try naive_solver.
    intros o' [= <-]. forward_cases.
Qed.

(** X11: the deployment and daemonset informers' callbacks.  Each
    stops the watch exactly when it returns an error, and that is when
    the event is an [Error] event or carries an object of another
    kind; it then forwards nothing.  An object of the right kind is
    forwarded on the channel of its event type if that is [Added],
    [Modified] or [Deleted], and is ignored for any other type. *)
Theorem controllerCallback_cases (Sprintf_T Sprintf_v : watch.Object -> string)
    (resourceName : string) (e : watch.Event) :
  let r := Informers.deploymentCallback Sprintf_T Sprintf_v resourceName e in
  let r' := Informers.daemonsetCallback Sprintf_T Sprintf_v resourceName e in
  ((fst (snd r) = true <-> snd (snd r) ≠ None)
   ∧ (fst (snd r) = true <->
      watch.Type_ e = watch.Error ∨ ∀ o, watch.Object_ e ≠ watch.DeploymentObject o)
   ∧ (fst (snd r) = true -> fst r = [])
   ∧ (∀ o, watch.Object_ e = watch.DeploymentObject o ->
        fst r =
        if decide (watch.Type_ e = watch.Added) then [Deployment.resourceAdded o]
        else if decide (watch.Type_ e = watch.Modified) then [Deployment.resourceModified o]
        else if decide (watch.Type_ e = watch.Deleted) then [Deployment.resourceDeleted o]
        else []))
  ∧ ((fst (snd r') = true <-> snd (snd r') ≠ None)
     ∧ (fst (snd r') = true <->
        watch.Type_ e = watch.Error ∨ ∀ o, watch.Object_ e ≠ watch.DaemonSetObject o)
     ∧ (fst (snd r') = true -> fst r' = [])
     ∧ (∀ o, watch.Object_ e = watch.DaemonSetObject o ->
          fst r' =
          if decide (watch.Type_ e = watch.Added) then [DaemonSet.resourceAdded o]
          else if decide (watch.Type_ e = watch.Modified) then [DaemonSet.resourceModified o]
          else if decide (watch.Type_ e = watch.Deleted) then [DaemonSet.resourceDeleted o]
          else [])).
Proof.
  intros r r'. subst r r'.
  unfold Informers.deploymentCallback, Informers.daemonsetCallback,
    Informers.deployment_switch, Informers.daemonset_switch.
  destruct e as [ty obj]. cbn [watch.Type_ watch.Object_].
  destruct (String.eqb_spec ty watch.Error) as [->|Hty]; cbn [negb].
  - cbn. repeat split; try done; try naive_solver.
  - split.
    + destruct obj as [|o| |]; cbn [fst snd];
        try (repeat split; try done; naive_solver).
      repeat split; try (intros o' [= <-]); forward_cases; naive_solver.
    + destruct obj as [| |o|]; cbn [fst snd];
        try (repeat split; try done; naive_solver).
      repeat split; try (intros o' [= <-]); forward_cases; naive_solver.
Qed.

End ContainerProperties.

(* ===================================================================== *)
(** * Further properties: the adapters between pod and controller trackers *)
(* ===================================================================== *)

Module AdapterProperties.

Import ControllerRules MoreRules FeedFacts LoopFacts.

Lemma deployment_adapter_cons podName rsName m msgs :
  PodAdapter.deployment_adapter podName rsName (m :: msgs) =
  if adapter_stop m
  then mkRun (Returned None) tt (deployment_forward podName rsName m)
  else mkRun (value (PodAdapter.deployment_adapter podName rsName msgs)) tt
         (deployment_forward podName rsName m
          ++ emitted (PodAdapter.deployment_adapter podName rsName msgs)).
Proof.
  unfold PodAdapter.deployment_adapter, deployment_forward.
  destruct (select_loop (PodAdapter.deployment_select podName rsName) msgs tt)
    as [v [] em] eqn:E.
  destruct m; cbn [select_loop adapter_stop]; unfold bind; cbn; rewrite ?E;
    cbn; rewrite ?app_nil_r; reflexivity.
Qed.

Lemma daemonset_adapter_cons podName m msgs :
  PodAdapter.daemonset_adapter podName (m :: msgs) =
  if adapter_stop m
  then mkRun (Returned None) tt (daemonset_forward podName m)
  else mkRun (value (PodAdapter.daemonset_adapter podName msgs)) tt
         (daemonset_forward podName m
          ++ emitted (PodAdapter.daemonset_adapter podName msgs)).
Proof.
  unfold PodAdapter.daemonset_adapter, daemonset_forward.
  destruct (select_loop (PodAdapter.daemonset_select podName) msgs tt)
    as [v [] em] eqn:E.
  destruct m; cbn [select_loop adapter_stop]; unfold bind; cbn; rewrite ?E;
    cbn; rewrite ?app_nil_r; reflexivity.
Qed.

(** X12: the adapters forward the log chunks of their pod tracker in
    the order received, none lost and none twice, each under the pod's
    name, up to the message that ends the adapter; a chunk that comes
    after that message is not forwarded.  The deployment's adapter
    hands them to [Track] with the replica set's name and [IsNew]
    false; the daemonset's adapter sends them on the public
    [PodLogChunk] channel itself, with the zero replica set. *)
Theorem adapters_forward_chunks (podName rsName : string)
    (msgs : list PodAdapter.From) :
  forwarded_chunks (emitted (PodAdapter.deployment_adapter podName rsName msgs))
  = map (wrap_chunk podName rsName) (received_chunks (adapter_dispatched msgs))
  ∧ ds_forwarded_chunks (emitted (PodAdapter.daemonset_adapter podName msgs))
    = map (wrap_chunk podName "") (received_chunks (adapter_dispatched msgs)).
Proof.
  split.
  - induction msgs as [|m msgs IH]; [reflexivity|].
    rewrite deployment_adapter_cons.
    unfold forwarded_chunks, received_chunks in *.
    destruct m; cbn [adapter_stop adapter_dispatched emitted omap];
      unfold deployment_forward; cbn; rewrite ?IH; reflexivity.
  - induction msgs as [|m msgs IH]; [reflexivity|].
    rewrite daemonset_adapter_cons.
    unfold ds_forwarded_chunks, received_chunks in *.
    destruct m; cbn [adapter_stop adapter_dispatched emitted omap];
      unfold daemonset_forward; cbn; rewrite ?IH; reflexivity.
Qed.

(** X13: how the adapters end, as long as what they send is taken.
    While neither the pod tracker's error nor its end has come, the
    adapter waits and has signalled neither [podDone] nor an error to
    [Track].  With the first of the two it returns, and the signal for
    it, [podDone] with the pod's name or the error, is the last thing
    it sends and the only such signal. *)
Theorem adapters_end (podName rsName : string) (msgs : list PodAdapter.From) :
  let r := PodAdapter.deployment_adapter podName rsName msgs in
  let r' := PodAdapter.daemonset_adapter podName msgs in
  match adapter_end msgs with
  | None =>
      value r = Blocked ∧ tally is_terminal (emitted r) = 0
      ∧ value r' = Blocked ∧ tally ds_is_terminal (emitted r') = 0
  | Some m =>
      value r = Returned None
      ∧ (∃ before sig, emitted r = before ++ [sig]
                       ∧ terminal_signal podName m = [sig]
                       ∧ tally is_terminal before = 0)
      ∧ value r' = Returned None
      ∧ (∃ before sig, emitted r' = before ++ [sig]
                       ∧ ds_terminal_signal podName m = [sig]
                       ∧ tally ds_is_terminal before = 0)
  end.
Proof.
  cbv zeta. unfold adapter_end.
  induction msgs as [|m msgs IH]; [done|].
  rewrite deployment_adapter_cons, daemonset_adapter_cons. cbn [List.find].
  destruct (adapter_stop m) eqn:Hstop.
  - destruct m; try discriminate Hstop; cbn [value emitted];
      (split; [reflexivity|]); (split; [|split; [reflexivity|]]);
      eexists [], _; done.
  - cbn [value emitted].
    assert (Hfwd : tally is_terminal (deployment_forward podName rsName m) = 0
                   ∧ tally ds_is_terminal (daemonset_forward podName m) = 0)
      by (destruct m; try discriminate Hstop; done).
    destruct Hfwd as [Hf Hf'].
    destruct (List.find adapter_stop msgs) as [m'|].
    + destruct IH as (Hv & (before & sig & He & Hsig & Hb)
                      & Hv' & (before' & sig' & He' & Hsig' & Hb')).
      split; [exact Hv|]. split.
      { exists (deployment_forward podName rsName m ++ before), sig.
        rewrite He, tally_app, Hf, Hb, app_assoc. done. }
      split; [exact Hv'|].
      exists (daemonset_forward podName m ++ before'), sig'.
      rewrite He', tally_app, Hf', Hb', app_assoc. done.
    + destruct IH as (Hv & Hb & Hv' & Hb').
      rewrite !tally_app, Hf, Hb, Hf', Hb'. done.
Qed.

Lemma track_inbox_toTrack m sends :
  track_inbox (PodAdapter.toTrack m :: sends) = m :: track_inbox sends.
Proof. reflexivity. Qed.

Lemma track_inbox_event text sends :
  track_inbox (PodAdapter.toEventMsg text :: sends) = track_inbox sends.
Proof. reflexivity. Qed.

Section Pipeline.

Variable deps : Deployment.Deps.

Lemma Track_select_chunk d rsChunk isNew :
  Deployment.IsReplicaSetNew deps (Deployment.lastObject d)
    (Deployment.knownReplicaSets d)
    (replicaset.Name (replicaset.LogReplicaSet rsChunk)) = (isNew, None) ->
  Deployment.Track_select deps (Deployment.replicaSetPodLogChunk rsChunk) d
  = mkRun Continue d
      [Deployment.SendPodLogChunk (replicaset.set_IsNew_chunk isNew rsChunk)].
Proof.
  intros H. unfold Deployment.Track_select.
  destruct d as [ns name logs cur st fin known last rs fr ps tp].
  DeploymentFacts.eval_tracker_in H. DeploymentFacts.eval_tracker.
  rewrite H. reflexivity.
Qed.

Lemma Track_select_pod_error d rsPodError isNew :
  Deployment.IsReplicaSetNew deps (Deployment.lastObject d)
    (Deployment.knownReplicaSets d)
    (replicaset.Name (replicaset.ErrReplicaSet rsPodError)) = (isNew, None) ->
  Deployment.Track_select deps (Deployment.replicaSetPodError rsPodError) d
  = mkRun Continue d
      [Deployment.SendPodError (replicaset.set_IsNew_error isNew rsPodError)].
Proof.
  intros H. unfold Deployment.Track_select.
  destruct d as [ns name logs cur st fin known last rs fr ps tp].
  DeploymentFacts.eval_tracker_in H. DeploymentFacts.eval_tracker.
  rewrite H. reflexivity.
Qed.

Lemma Track_select_status d reported :
  let r := Deployment.Track_select deps (Deployment.podStatusesReport reported) d in
  value r = Continue
  ∧ state r = Deployment.set_podStatuses (reported ∪ Deployment.podStatuses d) d
  ∧ emitted r = match Deployment.lastObject d with
                | Some last =>
                    [Deployment.SendStatusReport
                       (report_of (state r) last)]
                | None => []
                end.
Proof.
  unfold Deployment.Track_select, report_of.
  destruct d as [ns name logs cur st fin known [last|] rs fr ps tp];
    DeploymentFacts.eval_tracker; done.
Qed.

Lemma Track_select_podDone d podName :
  Deployment.Track_select deps (Deployment.podDone podName) d
  = mkRun Continue
      (Deployment.set_TrackedPods
         (filter (fun name => name ≠ podName) (Deployment.TrackedPods d)) d) [].
Proof.
  unfold Deployment.Track_select.
  destruct d as [ns name logs cur st fin known last rs fr ps tp].
  DeploymentFacts.eval_tracker. reflexivity.
Qed.

End Pipeline.

Lemma omap_on_channel {A} (f : Deployment.Msg -> option A) (c : nat) msgs :
  (∀ m, is_Some (f m) -> channel m = c) ->
  omap f (on_channel c msgs) = omap f msgs.
Proof.
  intros Hf. unfold on_channel.
  induction msgs as [|m msgs IH]; [reflexivity|].
  cbn [List.filter]. destruct (Nat.eqb_spec (channel m) c) as [Hc|Hc].
  - cbn [omap list_omap]. fold (@omap list _ _ _ f). by rewrite IH.
  - cbn [omap list_omap]. fold (@omap list _ _ _ f). rewrite IH.
    destruct (f m) as [a|] eqn:E; [|reflexivity].
    destruct Hc. apply Hf. by rewrite E.
Qed.

(** What the adapter puts on each of the channels of [Track]. *)
Lemma track_inbox_channels podName rsName msgs :
  let inbox := track_inbox (emitted (PodAdapter.deployment_adapter podName rsName msgs)) in
  omap chunk_payload inbox
  = map (wrap_chunk podName rsName) (received_chunks (adapter_dispatched msgs))
  ∧ omap status_payload inbox
    = map (fun st => {[ podName := st ]}) (reported_statuses (adapter_dispatched msgs))
  ∧ omap done_payload inbox
    = match adapter_end msgs with
      | Some (PodAdapter.errorChan _) => []
      | Some _ => [podName]
      | None => []
      end
  ∧ omap error_payload inbox
    = match adapter_end msgs with
      | Some (PodAdapter.errorChan err) => [err]
      | _ => []
      end
  ∧ Forall (adapter_kind rsName) inbox.
Proof.
  cbv zeta. unfold adapter_end, received_chunks, reported_statuses.
  induction msgs as [|m msgs IH]; [by repeat split|].
  rewrite deployment_adapter_cons.
  destruct IH as (IHc & IHs & IHd & IHe & IHk).
  destruct m;
    cbn [adapter_stop adapter_dispatched emitted List.find];
    unfold deployment_forward; cbn [PodAdapter.deployment_select];
    unfold bind, send, ret; cbn [emitted app];
    rewrite ?track_inbox_toTrack, ?track_inbox_event;
    cbn [omap list_omap map chunk_payload status_payload done_payload error_payload];
    rewrite ?IHc, ?IHs, ?IHd, ?IHe;
    repeat split; try done; try (apply Forall_cons_2; [done | exact IHk]);
    try (apply Forall_cons_2; [done | apply Forall_nil_2]).
Qed.

Lemma until_error_all msgs :
  omap error_payload msgs = [] -> until_error msgs = msgs.
Proof.
  induction msgs as [|m msgs IH]; [reflexivity|].
  destruct m; cbn [until_error omap list_omap error_payload]; try discriminate;
    intros H; by rewrite IH.
Qed.

Lemma until_error_prefix {A} (f : Deployment.Msg -> option A) msgs :
  omap f (until_error msgs) `prefix_of` omap f msgs.
Proof.
  induction msgs as [|m msgs IH]; [done|].
  destruct m; cbn [until_error]; try (apply prefix_nil);
    cbn [omap list_omap]; fold (@omap list _ _ _ f);
    destruct (f _); try exact IH; by apply prefix_cons.
Qed.

(** [Track] on messages of an adapter, in whatever order. *)
Lemma Track_adapter_inbox deps rsName isNew inbox d :
  Deployment.IsReplicaSetNew deps (Deployment.lastObject d)
    (Deployment.knownReplicaSets d) rsName = (isNew, None) ->
  Forall (adapter_kind rsName) inbox ->
  let r := select_loop (Deployment.Track_select deps) inbox d in
  pod_log_chunks (emitted r)
  = map (replicaset.set_IsNew_chunk isNew) (omap chunk_payload (until_error inbox))
  ∧ Deployment.podStatuses (state r)
    = foldl (fun ps reported => reported ∪ ps) (Deployment.podStatuses d)
        (omap status_payload (until_error inbox))
  ∧ Deployment.TrackedPods (state r)
    = foldl (fun tracked podName => filter (fun name => name ≠ podName) tracked)
        (Deployment.TrackedPods d) (omap done_payload (until_error inbox))
  ∧ (Deployment.lastObject d = None -> status_reports (emitted r) = [])
  ∧ value r = match head (omap error_payload inbox) with
              | Some err => Returned (Some err)
              | None => Blocked
              end.
Proof.
  cbv zeta. revert d. induction inbox as [|m inbox IH]; intros d Hnew Hkind; [done|].
  apply Forall_cons in Hkind as [Hm Hkind].
  destruct (select_loop_cons (Deployment.Track_select deps) m inbox d) as (He & Hs & Hv).
  rewrite He, Hs, Hv. clear He Hs Hv.
  destruct m; try (by destruct Hm); cbn [adapter_kind] in Hm.
  - (* the end of a pod tracker *)
    rewrite Track_select_podDone. cbn [value state emitted app].
    set (d' := Deployment.set_TrackedPods _ d).
    destruct (IH d' Hnew Hkind) as (IHc & IHp & IHt & IHr & IHv).
    cbn [until_error omap list_omap chunk_payload status_payload done_payload
         error_payload foldl].
    split; [exact IHc|]. split; [exact IHp|]. split; [exact IHt|].
    split; [exact IHr | exact IHv].
  - (* a status report *)
    destruct (Track_select_status deps d podStatuses) as (Tv & Ts & Te).
    rewrite Tv, Te, Ts.
    set (d' := Deployment.set_podStatuses (podStatuses ∪ Deployment.podStatuses d) d).
    destruct (IH d' Hnew Hkind) as (IHc & IHp & IHt & IHr & IHv).
    cbn [until_error omap list_omap chunk_payload status_payload done_payload
         error_payload foldl].
    unfold pod_log_chunks, status_reports in *.
    rewrite !omap_app, IHc.
    split; [by destruct (Deployment.lastObject d)|].
    split; [exact IHp|]. split; [exact IHt|]. split; [|exact IHv].
    intros Hlast. rewrite Hlast. by apply IHr.
  - (* a log chunk *)
    pose proof Hnew as Hc. rewrite <- Hm in Hc.
    rewrite (Track_select_chunk deps d rsChunk isNew Hc). cbn [value state emitted].
    destruct (IH d Hnew Hkind) as (IHc & IHp & IHt & IHr & IHv).
    cbn [until_error omap list_omap chunk_payload status_payload done_payload
         error_payload foldl map].
    unfold pod_log_chunks, status_reports in *.
    cbn [app omap list_omap]. rewrite IHc. done.
  - (* a container error *)
    pose proof Hnew as Hc. rewrite <- Hm in Hc.
    rewrite (Track_select_pod_error deps d rsPodError isNew Hc).
    cbn [value state emitted].
    destruct (IH d Hnew Hkind) as (IHc & IHp & IHt & IHr & IHv).
    cbn [until_error omap list_omap chunk_payload status_payload done_payload
         error_payload foldl map].
    unfold pod_log_chunks, status_reports in *.
    cbn [app omap list_omap]. done.
Qed.

Lemma foldl_reported podName (statuses : list pod.PodStatus)
    (ps : gmap string pod.PodStatus) :
  foldl (fun ps reported => reported ∪ ps) ps
    (map (fun st => {[ podName := st ]}) statuses)
  = match last statuses with
    | Some st => <[podName := st]> ps
    | None => ps
    end.
Proof.
  revert ps. induction statuses as [|st statuses IH]; intros ps; [reflexivity|].
  cbn [map foldl]. rewrite IH, last_cons, <- insert_union_singleton_l.
  destruct (last statuses); [by rewrite insert_insert_eq | reflexivity].
Qed.

(** X14: the deployment's adapter and [Track] together.  Let [Track]
    dispatch what the adapter of pod [podName] has sent it, in any
    order that keeps the order of each channel, with a replica set
    that [IsReplicaSetNew] accepts.  What [Track] publishes on
    [PodLogChunk] is then a prefix of the chunks the pod tracker
    delivered, in their order, under the pod's and the replica set's
    name and with [IsNew] as computed by [Track]; without a last
    object no status report is published.  If the pod tracker failed,
    [Track] returns its error, whatever chunks still wait in the
    buffer.  Otherwise [Track] goes on and has published all the
    chunks, the pod's entry of [podStatuses] is the last status the
    pod tracker reported with the other entries untouched, and, once
    the pod tracker is done, its name is off [TrackedPods]. *)
Theorem adapter_Track_pipeline (deps : Deployment.Deps) (podName rsName : string)
    (msgs : list PodAdapter.From) (inbox : list Deployment.Msg)
    (d : Deployment.Tracker) (isNew : bool) :
  Deployment.IsReplicaSetNew deps (Deployment.lastObject d)
    (Deployment.knownReplicaSets d) rsName = (isNew, None) ->
  (∀ c, on_channel c inbox
        = on_channel c
            (track_inbox (emitted (PodAdapter.deployment_adapter podName rsName msgs)))) ->
  let r := select_loop (Deployment.Track_select deps) inbox d in
  let delivered :=
    map (fun c => replicaset.set_IsNew_chunk isNew (wrap_chunk podName rsName c))
      (received_chunks (adapter_dispatched msgs)) in
  pod_log_chunks (emitted r) `prefix_of` delivered
  ∧ (Deployment.lastObject d = None -> status_reports (emitted r) = [])
  ∧ match adapter_end msgs with
    | Some (PodAdapter.errorChan err) =>
        value r = Returned (Some err)
        ∧ Deployment.TrackedPods (state r) = Deployment.TrackedPods d
    | stopped =>
        value r = Blocked
        ∧ pod_log_chunks (emitted r) = delivered
        ∧ Deployment.podStatuses (state r)
          = match last_status (adapter_dispatched msgs) with
            | Some st => <[podName := st]> (Deployment.podStatuses d)
            | None => Deployment.podStatuses d
            end
        ∧ Deployment.TrackedPods (state r)
          = match stopped with
            | Some _ => filter (fun name => name ≠ podName) (Deployment.TrackedPods d)
            | None => Deployment.TrackedPods d
            end
    end.
Proof.
  intros Hnew Horder. cbv zeta.
  set (sent := track_inbox (emitted (PodAdapter.deployment_adapter podName rsName msgs)))
    in *.
  destruct (track_inbox_channels podName rsName msgs) as (Sc & Ss & Sd & Se & Sk).
  fold sent in Sc, Ss, Sd, Se, Sk.
  assert (Hc : omap chunk_payload inbox = omap chunk_payload sent).
  { rewrite <- (omap_on_channel chunk_payload 10 inbox),
      <- (omap_on_channel chunk_payload 10 sent), Horder; [done|..];
      by intros [] [? [=]]. }
  assert (Hs : omap status_payload inbox = omap status_payload sent).
  { rewrite <- (omap_on_channel status_payload 9 inbox),
      <- (omap_on_channel status_payload 9 sent), Horder; [done|..];
      by intros [] [? [=]]. }
  assert (Hd : omap done_payload inbox = omap done_payload sent).
  { rewrite <- (omap_on_channel done_payload 8 inbox),
      <- (omap_on_channel done_payload 8 sent), Horder; [done|..];
      by intros [] [? [=]]. }
  assert (Herr : omap error_payload inbox = omap error_payload sent).
  { rewrite <- (omap_on_channel error_payload 13 inbox),
      <- (omap_on_channel error_payload 13 sent), Horder; [done|..];
      by intros [] [? [=]]. }
  assert (Hkind : Forall (adapter_kind rsName) inbox).
  { rewrite Forall_forall in Sk. apply Forall_forall. intros m Hm. apply Sk.
    assert (Hin : m ∈ on_channel (channel m) inbox).
    { apply list_elem_of_In, filter_In. split; [by apply list_elem_of_In|].
      apply Nat.eqb_refl. }
    rewrite Horder in Hin. apply list_elem_of_In, filter_In in Hin as [Hin _].
    by apply list_elem_of_In. }
  destruct (Track_adapter_inbox deps rsName isNew inbox d Hnew Hkind)
    as (Tc & Tp & Tt & Tr & Tv).
  rewrite Tc, Tv, Tt, Tp, Herr, Se.
  split.
  { rewrite <- (map_map (wrap_chunk podName rsName) (replicaset.set_IsNew_chunk isNew)),
      <- Sc, <- Hc.
    destruct (until_error_prefix chunk_payload inbox) as [k Hk].
    exists (map (replicaset.set_IsNew_chunk isNew) k). by rewrite Hk, map_app. }
  split; [exact Tr|].
  assert (Hall : omap error_payload inbox = [] ->
            map (replicaset.set_IsNew_chunk isNew) (omap chunk_payload (until_error inbox))
            = map (fun c => replicaset.set_IsNew_chunk isNew (wrap_chunk podName rsName c))
                (received_chunks (adapter_dispatched msgs))
            ∧ foldl (fun ps reported => reported ∪ ps) (Deployment.podStatuses d)
                (omap status_payload (until_error inbox))
              = match last_status (adapter_dispatched msgs) with
                | Some st => <[podName := st]> (Deployment.podStatuses d)
                | None => Deployment.podStatuses d
                end
            ∧ omap done_payload (until_error inbox) = omap done_payload sent).
  { intros Hnone. rewrite (until_error_all inbox Hnone), Hc, Sc, Hs, Ss, map_map.
    split; [reflexivity|]. split; [apply foldl_reported | exact Hd]. }
  rewrite Herr, Se in Hall.
  destruct (adapter_end msgs) as [[]|] eqn:Hend;
    try (destruct (Hall eq_refl) as (Ac & As & Ad); rewrite Ac, As, Ad, Sd;
         by repeat split).
  (* the pod tracker failed *)
  cbn [head]. split; [reflexivity|].
  assert (Hnone : omap done_payload (until_error inbox) = []).
  { pose proof (until_error_prefix done_payload inbox) as Hp.
    rewrite Hd, Sd in Hp. by apply prefix_nil_inv in Hp. }
  by rewrite Hnone.
Qed.

Lemma adapter_Track_pipeline_witness :
  pod_log_chunks
    (emitted (select_loop (Deployment.Track_select sample_deps) sample_inbox
                tracker_with_p1))
  = [replicaset.mkReplicaSetPodLogChunk
       (pod.mkPodLogChunk (Pod.mkContainerLogChunk "c" [Pod.mkLogLine "t1" "one"]) "p1")
       (replicaset.mkReplicaSet "rs-new" true);
     replicaset.mkReplicaSetPodLogChunk
       (pod.mkPodLogChunk (Pod.mkContainerLogChunk "c" [Pod.mkLogLine "t2" "two"]) "p1")
       (replicaset.mkReplicaSet "rs-new" true)]
  ∧ Deployment.TrackedPods
      (state (select_loop (Deployment.Track_select sample_deps) sample_inbox
                tracker_with_p1)) = [].
Proof.
  destruct (adapter_Track_pipeline sample_deps "p1" "rs-new" sample_adapter_msgs
              sample_inbox tracker_with_p1 true) as (_ & _ & Hrun).
  - reflexivity.
  - intros c. do 14 (destruct c as [|c]; [reflexivity|]). reflexivity.
  - destruct Hrun as (_ & Hchunks & _ & Htracked).
    split; [exact Hchunks | exact Htracked].
Defined.

End AdapterProperties.

(* ===================================================================== *)
(** * Further properties: the controller trackers' loops                  *)
(* ===================================================================== *)

Module ControllerProperties.

Import ControllerRules MoreRules FeedFacts LoopFacts.

Section Loop.

Context {S O Msg : Type}.
Variable body : Msg -> M S O Flow.


(** An invariant kept by the iterations on messages of a kind holds
    along a loop that only receives such messages. *)
Lemma select_loop_invariant_on (A : Msg -> Prop) (I : S -> Prop) (Q : O -> Prop) :
  (∀ m s, A m -> I s -> I (state (body m s)) ∧ Forall Q (emitted (body m s))) ->
  ∀ msgs s, Forall A msgs -> I s ->
    I (state (select_loop body msgs s)) ∧ Forall Q (emitted (select_loop body msgs s)).
Proof.
  intros Hstep msgs. induction msgs as [|m msgs IH]; intros s HA Hs.
  - split; [exact Hs | constructor].
  - destruct (select_loop_cons body m msgs s) as (He & Hst & _). rewrite He, Hst.
    apply Forall_cons in HA as [Hm HA].
    destruct (Hstep m s Hm Hs) as [HI HQ].
    destruct (value (body m s)).
    + destruct (IH _ HA HI) as [HI' HQ']. split; [exact HI' | by apply Forall_app].
    + rewrite app_nil_r. done.
    + rewrite app_nil_r. done.
Qed.

End Loop.

(** Case analysis on the message, on what the collaborators return
    and on the tracker's fields, with the iteration evaluated. *)
Ltac deployment_cases deps msg d :=
  cbv zeta;
  destruct msg as [?object|?object|?object|?reason|?rs|?rs|?rs|?pod|?podName|
                   ?reported|?rsChunk|?rsPodError| |?err];
  cbn [Deployment.Track_select]; unfold Deployment.handleDeploymentState;
  try match goal with
      | |- context [if Deployment.debug deps
                    then Deployment.ListEventsForObject deps ?o else None] =>
          destruct (if Deployment.debug deps
                    then Deployment.ListEventsForObject deps o else None)
            as [?listErr|] eqn:?Hlist
      end;
  destruct d as [?ns ?name ?logs ?cur ?st ?fin ?known [?last|] ?rs ?fr ?ps ?tp];
  DeploymentFacts.eval_tracker;
  repeat match goal with
         | |- context [Deployment.IsReplicaSetNew deps ?a ?b ?c] =>
             destruct (Deployment.IsReplicaSetNew deps a b c)
               as [?isNew [?e|]] eqn:?Hnew
         | |- context [negb ?c && ?x] => destruct (negb c && x)
         | |- context [String.eqb ?s ""] => destruct (String.eqb s "") eqn:?Hst
         end;
  DeploymentFacts.eval_tracker.

Ltac daemonset_cases deps msg d :=
  cbv zeta;
  destruct msg as [?object|?object|?object|?reason|?pod|?podName|?reported| |?err];
  unfold DaemonSet.Track_select, DaemonSet.handleDaemonSetStatus;
  try match goal with
      | |- context [DaemonSet.DaemonSetRolloutStatus deps ?o] =>
          destruct (DaemonSet.DaemonSetRolloutStatus deps o)
            as [[?text [|]] [?rollErr|]] eqn:?Hroll;
          destruct (if DaemonSet.debug deps
                    then DaemonSet.ListEventsForObject deps o else None)
            as [?listErr|] eqn:?Hlist
      end;
  destruct d as [?ns ?name ?logs ?st [?last|] ?ps ?tp];
  DaemonSetFacts.eval_tracker;
  repeat match goal with
         | |- context [String.eqb ?s ""] => destruct (String.eqb s "") eqn:?Hst
         end;
  DaemonSetFacts.eval_tracker.







Ltac rank_step :=
  split;
  [ unfold state_rank;
    repeat match goal with H : String.eqb _ _ = _ |- _ => rewrite H end;
    cbn [String.eqb Ascii.eqb Bool.eqb];
    repeat match goal with
           | |- context [String.eqb ?s ?t] => destruct (String.eqb s t)
           end; lia
  | intros Hin; first [exact Hin | by repeat constructor] ].

Lemma Track_select_State deps msg d :
  let st' := Deployment.State (state (Deployment.Track_select deps msg d)) in
  state_rank (Deployment.State d) <= state_rank st'
  ∧ (Deployment.State d ∈ controller_states -> st' ∈ controller_states).
Proof. deployment_cases deps msg d; rank_step. Qed.

Lemma ds_Track_select_State deps msg d :
  let st' := DaemonSet.State (state (DaemonSet.Track_select deps msg d)) in
  state_rank (DaemonSet.State d) <= state_rank st'
  ∧ (DaemonSet.State d ∈ controller_states -> st' ∈ controller_states).
Proof. daemonset_cases deps msg d; rank_step. Qed.

(** X16: the [State] of a controller tracker only moves forward: from
    not started to [Started], and from either to [Deleted] or
    [Failed].  A tracker that has started never shows the empty state
    again, and one that was deleted or has failed is never [Started]
    again, whatever is received afterwards.  The state is always one of
    these four. *)
Theorem controllers_State_moves_forward (deps : Deployment.Deps)
    (ddeps : DaemonSet.Deps) (msgs : list Deployment.Msg)
    (dmsgs : list DaemonSet.Msg) (d : Deployment.Tracker) (ds : DaemonSet.Tracker) :
  let st' := Deployment.State (state (Deployment.Track deps msgs d)) in
  let dst' := DaemonSet.State (state (DaemonSet.Track ddeps dmsgs ds)) in
  (state_rank (Deployment.State d) <= state_rank st'
   ∧ (Deployment.State d ∈ controller_states -> st' ∈ controller_states))
  ∧ (state_rank (DaemonSet.State ds) <= state_rank dst'
     ∧ (DaemonSet.State ds ∈ controller_states -> dst' ∈ controller_states)).
Proof.
  cbv zeta. split.
  - change (state (Deployment.Track deps msgs d))
      with (state (select_loop (Deployment.Track_select deps) msgs
                     (state (Deployment.runDeploymentInformer d)))).
    change (Deployment.State d)
      with (Deployment.State (state (Deployment.runDeploymentInformer d))).
    generalize (state (Deployment.runDeploymentInformer d)). intros d0.
    apply (select_loop_invariant (Deployment.Track_select deps)
             (fun s => state_rank (Deployment.State d0) <= state_rank (Deployment.State s)
                       ∧ (Deployment.State d0 ∈ controller_states
                          -> Deployment.State s ∈ controller_states))
             (fun _ => True)); [|done].
    intros m s [Hr Hm]. destruct (Track_select_State deps m s) as [Hr' Hm'].
    split; [split; [lia | auto] | by apply Forall_true].
  - change (state (DaemonSet.Track ddeps dmsgs ds))
      with (state (select_loop (DaemonSet.Track_select ddeps) dmsgs
                     (state (DaemonSet.runDaemonSetInformer ds)))).
    change (DaemonSet.State ds)
      with (DaemonSet.State (state (DaemonSet.runDaemonSetInformer ds))).
    generalize (state (DaemonSet.runDaemonSetInformer ds)). intros d0.
    apply (select_loop_invariant (DaemonSet.Track_select ddeps)
             (fun s => state_rank (DaemonSet.State d0) <= state_rank (DaemonSet.State s)
                       ∧ (DaemonSet.State d0 ∈ controller_states
                          -> DaemonSet.State s ∈ controller_states))
             (fun _ => True)); [|done].
    intros m s [Hr Hm]. destruct (ds_Track_select_State ddeps m s) as [Hr' Hm'].
    split; [split; [lia | auto] | by apply Forall_true].
Qed.

Ltac report_flags :=
  repeat (apply Forall_cons_2;
          [ let Heq := fresh in
            intros ? Heq;
            first [ discriminate Heq
                  | injection Heq as <-;
                    cbn [Deployment.IsFailed Deployment.NewDeploymentStatus
                         Deployment.zeroDeploymentStatus];
                    first [reflexivity | by apply String.eqb_neq] ]
          | ]);
  apply Forall_nil_2.

Lemma Track_select_not_failed deps msg d :
  is_resourceFailed msg = false ->
  Deployment.State d ≠ "Failed" ->
  Deployment.State (state (Deployment.Track_select deps msg d)) ≠ "Failed"
  ∧ Forall (fun a => ∀ st, a = Deployment.SendStatusReport st ->
                           Deployment.IsFailed st = false)
      (emitted (Deployment.Track_select deps msg d)).
Proof.
  deployment_cases deps msg d; intros Hmsg Hstate; try discriminate Hmsg;
    (split; [first [exact Hstate | discriminate] | report_flags]).
Qed.

(** X17: the deployment tracker publishes a status report that says
    failed only after a [resourceFailed] message: from a tracker that
    is not in the state [Failed], a run that receives no such message
    publishes reports with [IsFailed] false only. *)
Theorem StatusReport_failed_only_after_resourceFailed (deps : Deployment.Deps)
    (msgs : list Deployment.Msg) (d : Deployment.Tracker)
    (st : Deployment.DeploymentStatus) :
  Deployment.State d ≠ "Failed" ->
  Deployment.SendStatusReport st ∈ emitted (Deployment.Track deps msgs d) ->
  Deployment.IsFailed st = true ->
  ∃ reason, Deployment.resourceFailed reason ∈ msgs.
Proof.
  intros Hstate Hin Hfailed.
  destruct (existsb is_resourceFailed msgs) eqn:E.
  - apply existsb_exists in E as (m & Hm & Hf).
    destruct m; try discriminate Hf. exists reason. by apply list_elem_of_In.
  - exfalso.
    assert (HA : Forall (fun m => is_resourceFailed m = false) msgs).
    { apply Forall_forall. intros m Hm.
      destruct (is_resourceFailed m) eqn:Em; [|reflexivity].
      assert (existsb is_resourceFailed msgs = true) as Hex
        by (apply existsb_exists; exists m; split; [by apply list_elem_of_In | exact Em]).
      congruence. }
    change (emitted (Deployment.Track deps msgs d))
      with (Deployment.GoDeploymentInformer
            :: emitted (select_loop (Deployment.Track_select deps) msgs d)) in Hin.
    apply elem_of_cons in Hin as [Hin|Hin]; [discriminate Hin|].
    destruct (select_loop_invariant_on (Deployment.Track_select deps)
                (fun m => is_resourceFailed m = false)
                (fun s => Deployment.State s ≠ "Failed")
                (fun a => ∀ st, a = Deployment.SendStatusReport st ->
                                Deployment.IsFailed st = false)
                (fun m s Hm Hs => Track_select_not_failed deps m s Hm Hs)
                msgs d HA Hstate) as [_ Hall].
    rewrite Forall_forall in Hall.
    specialize (Hall _ Hin st eq_refl). congruence.
Qed.

Lemma StatusReport_failed_only_after_resourceFailed_witness :
  ∃ reason, Deployment.resourceFailed reason ∈ failed_msgs.
Proof.
  apply (StatusReport_failed_only_after_resourceFailed sample_deps failed_msgs
           (Deployment.NewTracker "web" "default" None)
           (report_of failed_tracker (a_deployment 0))).
  - discriminate.
  - apply (list_elem_of_lookup_2 _ 6). vm_compute. reflexivity.
  - reflexivity.
Defined.

Lemma Track_select_known deps msg d :
  Deployment.knownReplicaSets (state (Deployment.Track_select deps msg d))
  = rs_event (Deployment.knownReplicaSets d) msg.
Proof. deployment_cases deps msg d; reflexivity. Qed.

(** X18: the replica sets the deployment tracker knows are those the
    replica-set events leave: while [Track] has not returned, the map
    holds, under its name, each replica set last added or modified and
    not deleted since, and no other message changes it. *)
Theorem knownReplicaSets_follow_events (deps : Deployment.Deps)
    (msgs : list Deployment.Msg) (d : Deployment.Tracker) :
  value (Deployment.Track deps msgs d) = Blocked ->
  Deployment.knownReplicaSets (state (Deployment.Track deps msgs d))
  = foldl rs_event (Deployment.knownReplicaSets d) msgs.
Proof.
  change (Deployment.Track deps msgs d)
    with (let r := select_loop (Deployment.Track_select deps) msgs d in
          mkRun (value r) (state r) (Deployment.GoDeploymentInformer :: emitted r)).
  cbn [value state]. revert d.
  induction msgs as [|m msgs IH]; intros d Hv; [reflexivity|].
  destruct (select_loop_cons (Deployment.Track_select deps) m msgs d)
    as (_ & Hs & Hv').
  rewrite Hv' in Hv. rewrite Hs.
  destruct (value (Deployment.Track_select deps m d)); try discriminate Hv.
  rewrite (IH _ Hv), Track_select_known. reflexivity.
Qed.

Lemma knownReplicaSets_follow_events_witness :
  Deployment.knownReplicaSets
    (state (Deployment.Track sample_deps replica_set_msgs started_tracker))
  = {[ "rs-2" := appsv1.mkReplicaSet "rs-2" 3 ]}.
Proof.
  rewrite (knownReplicaSets_follow_events sample_deps replica_set_msgs started_tracker).
  - apply map_eq. intros k. cbn [foldl replica_set_msgs rs_event appsv1.ReplicaSetName].
    change (Deployment.knownReplicaSets started_tracker) with (∅ : gmap string appsv1.ReplicaSet).
    destruct (decide (k = "rs-2")) as [->|Hk2].
    + rewrite lookup_delete_ne by done. by rewrite !lookup_insert_eq.
    + rewrite lookup_singleton_ne by done.
      destruct (decide (k = "rs-1")) as [->|Hk1].
      * by rewrite lookup_delete_eq.
      * rewrite lookup_delete_ne by done. by rewrite !lookup_insert_ne.
  - reflexivity.
Defined.

(** X19: what an error of a collaborator leaves behind.  When the
    event lister fails for the object of an [Added] or [Modified]
    message, the deployment's [Track] returns the error with the
    tracker as it was and nothing published.  The daemonset's [Track]
    returns the error of its status calculation in the same way on
    [Modified]; on [Added] it has by then stored the object as the
    last one and published a status report for it. *)
Theorem collaborator_error_effects (deps : Deployment.Deps) (ddeps : DaemonSet.Deps)
    (object : appsv1.Deployment) (dobject : appsv1.DaemonSet) (e e' : error)
    (rest : list Deployment.Msg) (drest : list DaemonSet.Msg)
    (d : Deployment.Tracker) (ds : DaemonSet.Tracker) :
  (if Deployment.debug deps then Deployment.ListEventsForObject deps object else None)
  = Some e ->
  snd (rollout ddeps dobject) = Some e' ->
  Deployment.Track deps (Deployment.resourceAdded object :: rest) d
  = mkRun (Returned (Some e)) d [Deployment.GoDeploymentInformer]
  ∧ Deployment.Track deps (Deployment.resourceModified object :: rest) d
    = mkRun (Returned (Some e)) d [Deployment.GoDeploymentInformer]
  ∧ DaemonSet.Track ddeps (DaemonSet.resourceAdded dobject :: drest) ds
    = mkRun (Returned (Some e')) (DaemonSet.set_lastObject (Some dobject) ds)
        [DaemonSet.GoDaemonSetInformer;
         DaemonSet.SendStatusReport
           (DaemonSet.NewDaemonSetStatus (appsv1.DaemonSetStatusOf dobject)
              (DaemonSet.podStatuses ds))]
  ∧ DaemonSet.Track ddeps (DaemonSet.resourceModified dobject :: drest) ds
    = mkRun (Returned (Some e')) ds [DaemonSet.GoDaemonSetInformer].
Proof.
  intros Hlist Hroll.
  destruct (DeploymentFacts.Track_select_listing_error deps object d e Hlist)
    as [Hadd Hmod].
  split; [|split].
  - unfold Deployment.Track, Deployment.runDeploymentInformer. cbn [select_loop].
    unfold bind, send. cbn [value state emitted]. rewrite Hadd. reflexivity.
  - unfold Deployment.Track, Deployment.runDeploymentInformer. cbn [select_loop].
    unfold bind, send. cbn [value state emitted]. rewrite Hmod. reflexivity.
  - unfold DaemonSet.Track. cbn [select_loop].
    unfold DaemonSet.Track_select, DaemonSet.handleDaemonSetStatus.
    unfold rollout in Hroll.
    destruct (DaemonSet.DaemonSetRolloutStatus ddeps dobject) as [[text rdy] err].
    destruct (if DaemonSet.debug ddeps then _ else _) as [listErr|];
      cbn [fst snd] in Hroll; simplify_eq;
      destruct ds as [ns name logs st last ps tp]; DaemonSetFacts.eval_tracker;
      split; reflexivity.
Qed.

Lemma collaborator_error_effects_witness :
  Deployment.Track failing_deps
    [Deployment.resourceAdded (a_deployment 2); Deployment.resourceModified (a_deployment 2)]
    (Deployment.NewTracker "web" "default" None)
  = mkRun (Returned (Some (Errorf "list events")))
      (Deployment.NewTracker "web" "default" None) [Deployment.GoDeploymentInformer]
  ∧ DaemonSet.lastObject
      (state (DaemonSet.Track failing_ds_deps [DaemonSet.resourceAdded (a_daemonset 3)]
                (DaemonSet.NewTracker "agent" "default" None)))
    = Some (a_daemonset 3).
Proof.
  destruct (collaborator_error_effects failing_deps failing_ds_deps
              (a_deployment 2) (a_daemonset 3)
              (Errorf "list events") (Errorf "rollout status")
              [Deployment.resourceModified (a_deployment 2)] []
              (Deployment.NewTracker "web" "default" None)
              (DaemonSet.NewTracker "agent" "default" None))
    as (Hadd & _ & Hds & _).
  - reflexivity.
  - reflexivity.
  - split; [exact Hadd | rewrite Hds; reflexivity].
Defined.

Lemma ds_Track_select_pods ddeps msg d :
  let r := DaemonSet.Track_select ddeps msg d in
  DaemonSet.TrackedPods (state r) = pod_event (DaemonSet.TrackedPods d) msg
  ∧ DaemonSet.podStatuses (state r) = status_event (DaemonSet.podStatuses d) msg
  ∧ DaemonSet.LogsFromTime (state r) = DaemonSet.LogsFromTime d
  ∧ ds_started_trackers (emitted r)
    = match msg with
      | DaemonSet.podAdded pod => [(corev1.PodName pod, DaemonSet.LogsFromTime d)]
      | _ => []
      end.
Proof.
  daemonset_cases ddeps msg d; try destruct logs; repeat split; reflexivity.
Qed.

(** X20: the daemonset tracker's books on its pods.  While [Track]
    has not returned, it has started one pod tracker for every pod
    [Added] message received, in order and with the tracker's own
    [LogsFromTime]; [TrackedPods] holds the names of the pods added,
    less every occurrence of a name whose pod tracker has ended since;
    and [podStatuses] holds for each pod the status last reported. *)
Theorem daemonset_pods_follow_events (ddeps : DaemonSet.Deps)
    (msgs : list DaemonSet.Msg) (d : DaemonSet.Tracker) :
  let r := DaemonSet.Track ddeps msgs d in
  value r = Blocked ->
  DaemonSet.TrackedPods (state r) = foldl pod_event (DaemonSet.TrackedPods d) msgs
  ∧ DaemonSet.podStatuses (state r) = foldl status_event (DaemonSet.podStatuses d) msgs
  ∧ ds_started_trackers (emitted r)
    = map (fun pod => (corev1.PodName pod, DaemonSet.LogsFromTime d)) (ds_added_pods msgs).
Proof.
  change (DaemonSet.Track ddeps msgs d)
    with (let r := select_loop (DaemonSet.Track_select ddeps) msgs d in
          mkRun (value r) (state r) (DaemonSet.GoDaemonSetInformer :: emitted r)).
  cbv zeta. cbn [value state emitted].
  change (ds_started_trackers (DaemonSet.GoDaemonSetInformer :: ?l))
    with (ds_started_trackers l).
  revert d. induction msgs as [|m msgs IH]; intros d Hv; [done|].
  destruct (select_loop_cons (DaemonSet.Track_select ddeps) m msgs d)
    as (He & Hs & Hv').
  rewrite Hv' in Hv. rewrite He, Hs.
  destruct (ds_Track_select_pods ddeps m d) as (Ht & Hp & Hl & Hg).
  destruct (value (DaemonSet.Track_select ddeps m d)); try discriminate Hv.
  destruct (IH _ Hv) as (IHt & IHp & IHg).
  unfold ds_started_trackers in *. rewrite omap_app, IHt, IHp, IHg, Hg, Ht, Hp, Hl.
  cbn [foldl]. split; [reflexivity|]. split; [reflexivity|].
  destruct m; reflexivity.
Qed.

Lemma daemonset_pods_follow_events_witness :
  DaemonSet.TrackedPods (state (DaemonSet.Track sample_ds_deps ds_pod_msgs started_ds_tracker))
  = ["p2"]
  ∧ ds_started_trackers
      (emitted (DaemonSet.Track sample_ds_deps ds_pod_msgs started_ds_tracker))
    = [("p1", None); ("p2", None)].
Proof.
  destruct (daemonset_pods_follow_events sample_ds_deps ds_pod_msgs started_ds_tracker)
    as (Ht & _ & Hg).
  - reflexivity.
  - split; [rewrite Ht | rewrite Hg]; reflexivity.
Defined.

End ControllerProperties.

(* ===================================================================== *)
(** * Further properties: the pod tracker's loop and TrackPod             *)
(* ===================================================================== *)

Module PodLoopProperties.

Import PodRules PodFacts MoreRules FeedFacts LoopFacts.

Lemma TrackPod_select_nil {F} (feed : Pod.PodFeed F) (m : Pod.FeedMsg) (f : F) :
  (∀ m f' r, callback_result feed m f' = Some r -> fst r = None) ->
  Pod.TrackPod_select feed m f =
  if feed_stop m
  then mkRun (match m with
              | Pod.errorChan e => Return (Some e)
              | _ => Return None
              end) f []
  else mkRun Continue (feed_state feed f [m]) [m].
Proof.
  intros Hnil. pose proof (Hnil m f) as H.
  destruct m; cbn [Pod.TrackPod_select feed_stop]; try reflexivity;
    cbn [callback_result] in H; specialize (H _ eq_refl);
    unfold bind, send, Pod.call, feed_state;
    cbn [value state emitted app foldl callback_result];
    rewrite H; reflexivity.
Qed.

(** X21: [TrackPod] with a feed whose callbacks return nil.  It calls
    the callback of every message it receives before the pod
    tracker's error or end, in the order received and each on the
    feed as the previous call left it, and calls none afterwards; it
    waits while neither has come, returns the error of the pod tracker
    when that comes first, and nil when the pod tracker is done. *)
Theorem TrackPod_nil_feed {F} (feed : Pod.PodFeed F) (msgs : list Pod.FeedMsg) (f : F) :
  (∀ m f' r, callback_result feed m f' = Some r -> fst r = None) ->
  let r := Pod.TrackPod feed msgs f in
  emitted r = until_stop msgs
  ∧ state r = feed_state feed f (until_stop msgs)
  ∧ value r = match List.find feed_stop msgs with
              | Some (Pod.errorChan e) => Returned (Some e)
              | Some _ => Returned None
              | None => Blocked
              end.
Proof.
  intros Hnil. cbv zeta. unfold Pod.TrackPod. revert f.
  induction msgs as [|m msgs IH]; intros f; [done|].
  destruct (select_loop_cons (Pod.TrackPod_select feed) m msgs f) as (He & Hs & Hv).
  rewrite He, Hs, Hv, (TrackPod_select_nil feed m f Hnil).
  cbn [until_stop List.find].
  destruct (feed_stop m) eqn:Hstop.
  - destruct m; try discriminate Hstop; done.
  - cbn [value state emitted]. destruct (IH (feed_state feed f [m])) as (IHe & IHs & IHv).
    rewrite IHe, IHs, IHv. done.
Qed.

Lemma TrackPod_nil_feed_witness :
  state (Pod.TrackPod counting_feed sample_feed_msgs 0) = 3
  ∧ value (Pod.TrackPod counting_feed sample_feed_msgs 0) = Returned None.
Proof.
  destruct (TrackPod_nil_feed counting_feed sample_feed_msgs 0) as (_ & Hs & Hv).
  - intros m f' r Hr. destruct m; cbn in Hr; by simplify_eq.
  - split; [rewrite Hs | rewrite Hv]; reflexivity.
Defined.

Lemma handlePodState_lastObject object p :
  Pod.lastObject (state (Pod.handlePodState object p)) = Pod.lastObject p.
Proof.
  unfold Pod.handlePodState.
  destruct (handleContainersState_run object p) as (Hv & _).
  assert (Hlast : Pod.lastObject (state (Pod.handleContainersState object p))
                  = Pod.lastObject p).
  { unfold Pod.handleContainersState. rewrite bind_state. cbn [ret state].
    apply (range_preserves Pod.lastObject). intros c q.
    apply PodProperties.handleContainerStatus_frame. }
  rewrite bind_state, Hv. rewrite bind_state. cbn [get value state].
  destruct (Nat.eqb _ 0); [|by run_monad].
  destruct (String.eqb _ corev1.PodSucceeded); [by run_monad|].
  destruct (String.eqb _ corev1.PodFailed); by run_monad.
Qed.

Lemma handleAndCheck_lastObject object p :
  Pod.lastObject (state (Pod.handleAndCheck object p)) = Pod.lastObject p
  ∧ value (Pod.handleAndCheck object p) ≠ Panic.
Proof.
  unfold Pod.handleAndCheck. rewrite bind_state, bind_value.
  destruct (snd (value (Pod.handlePodState object p))); [|destruct (fst _)];
    cbn [ret value state]; (split; [apply handlePodState_lastObject | done]).
Qed.

Lemma runContainersTrackers_lastObject kubeGetPod p :
  Pod.lastObject (state (Pod.runContainersTrackers kubeGetPod p)) = Pod.lastObject p.
Proof.
  unfold Pod.runContainersTrackers. cbv zeta.
  rewrite bind_state. cbn [get value state].
  destruct (kubeGetPod (Pod.Namespace p) (Pod.ResourceName p)) as [e|manifest];
    [reflexivity|].
  rewrite bind_state. cbn [ret state].
  apply (range_preserves Pod.lastObject). intros n q. by run_monad.
Qed.

(** One iteration panics only on a container's end without a last
    object, and an iteration that stays in the loop leaves a last
    object. *)
Lemma Track_select_lastObject kubeGetPod msg p :
  let r := Pod.Track_select kubeGetPod msg p in
  (value r = Panic <-> Pod.lastObject p = None ∧ ∃ c, msg = Pod.containerDone c)
  ∧ (value r = Continue -> Pod.lastObject (state r) ≠ None).
Proof.
  cbv zeta.
  destruct msg as [name|added|modified|deleted| |err]; cbn [Pod.Track_select].
  - PodProperties.unbind.
    cbn [modify get value state emitted Pod.set_TrackedContainers Pod.lastObject].
    destruct (Pod.lastObject p) as [last|] eqn:Hlast.
    + destruct (handleAndCheck_lastObject last
                  (Pod.set_TrackedContainers
                     (filter (fun n => n ≠ name) (Pod.TrackedContainers p)) p))
        as [Hl Hv].
      rewrite Hl. cbn [Pod.lastObject Pod.set_TrackedContainers]. rewrite Hlast.
      split; [|done]. split; [done | by intros [? _]].
    + cbn [ret value]. split; [|done]. split; [eauto | done].
  - PodProperties.unbind.
    cbn [modify get value state emitted Pod.set_lastObject Pod.State].
    set (p0 := Pod.set_lastObject (Some added) p).
    assert (Hgo : ∀ q, Pod.lastObject q = Some added ->
              (value (Pod.handleAndCheck added q) = Panic
               <-> Pod.lastObject p = None ∧ ∃ c, Pod.objectAdded added = Pod.containerDone c)
              ∧ (value (Pod.handleAndCheck added q) = Continue ->
                 Pod.lastObject (state (Pod.handleAndCheck added q)) ≠ None)).
    { intros q Hq. destruct (handleAndCheck_lastObject added q) as [Hl Hv].
      rewrite Hl, Hq. split; [|done]. split; [done | by intros [_ [? ?]]]. }
    destruct (Pod.State p).
    + PodProperties.unbind. cbn [modify send value state].
      set (p1 := Pod.set_State Pod.ResourceAdded p0).
      pose proof (runContainersTrackers_lastObject kubeGetPod p1) as Hrun.
      destruct (value (Pod.runContainersTrackers kubeGetPod p1)).
      * cbn [ret value]. split; [|done]. split; [done | by intros [_ [? ?]]].
      * apply Hgo. rewrite Hrun. reflexivity.
    + cbn [ret value state]. by apply Hgo.
    + cbn [ret value state]. by apply Hgo.
    + cbn [ret value state]. by apply Hgo.
    + cbn [ret value state]. by apply Hgo.
  - PodProperties.unbind. cbn [modify value state].
    destruct (handleAndCheck_lastObject modified (Pod.set_lastObject (Some modified) p))
      as [Hl Hv].
    rewrite Hl. split; [|done]. split; [done | by intros [_ [? ?]]].
  - cbn. split; [|done]. split; [done | by intros [_ [? ?]]].
  - cbn. split; [|done]. split; [done | by intros [_ [? ?]]].
  - cbn. split; [|done]. split; [done | by intros [_ [? ?]]].
Qed.

(** X22: the pod tracker's [Track] panics, on a nil last object, in
    one case only: when the first message it dispatches is the end of
    a container tracker and it holds no object yet.  From the first
    object received on, and for a tracker that holds one, it never
    does. *)
Theorem pod_Track_panics_iff (kubeGetPod : string -> string -> error + corev1.Pod)
    (msgs : list Pod.Msg) (p : Pod.PodTracker) :
  value (Pod.Track kubeGetPod msgs p) = Panicked
  <-> Pod.lastObject p = None ∧ ∃ c rest, msgs = Pod.containerDone c :: rest.
Proof.
  change (value (Pod.Track kubeGetPod msgs p))
    with (value (select_loop (Pod.Track_select kubeGetPod) msgs p)).
  assert (Hsafe : ∀ l q, Pod.lastObject q ≠ None ->
            value (select_loop (Pod.Track_select kubeGetPod) l q) ≠ Panicked).
  { induction l as [|m l IH]; intros q Hq; [done|].
    destruct (select_loop_cons (Pod.Track_select kubeGetPod) m l q) as (_ & _ & Hv).
    rewrite Hv. destruct (Track_select_lastObject kubeGetPod m q) as [Hp Hc].
    destruct (value (Pod.Track_select kubeGetPod m q)).
    - apply IH. by apply Hc.
    - done.
    - destruct Hp as [Hp _]. by destruct (Hp eq_refl) as [Hnone _]. }
  destruct msgs as [|m msgs]; [split; [done | by intros [_ (? & ? & ?)]]|].
  destruct (select_loop_cons (Pod.Track_select kubeGetPod) m msgs p) as (_ & _ & Hv).
  rewrite Hv. destruct (Track_select_lastObject kubeGetPod m p) as [Hp Hc].
  destruct (value (Pod.Track_select kubeGetPod m p)) eqn:E.
  - split.
    + intros Hpanic. exfalso. by apply (Hsafe msgs _ (Hc eq_refl)).
    + intros [Hlast (c & rest & [= -> ->])].
      assert (Continue = Panic) by (apply Hp; eauto). done.
  - split; [done|].
    intros [Hlast (c & rest & [= -> ->])].
    assert (Return err = Panic) by (apply Hp; eauto). done.
  - split; [|done]. intros _. destruct Hp as [Hp _].
    destruct (Hp eq_refl) as (Hlast & c & ->). eauto.
Qed.

End PodLoopProperties.
